(** * Resilient crawl orchestrator of [auction_scraper.py]

    A shallow embedding of the three cooperating classes of
    [auction_scraper.py] -- [ProxyRotator] (the egress identity pool),
    [PageScraper] (the page fetch job with its browser session) and
    [MachineryPeteScraper] (the batching orchestrator with its result
    store) -- followed by theorems about them.

    Everything the Python code asks of the outside world (the proxy
    listing, the probe of a proxy, the clock, Chrome starting or not,
    what a page shows, whether a file can be written, whether a job can
    be submitted to the executor) is answered by an explicit, deterministic
    oracle, so every definition below can be evaluated. *)

From Stdlib Require Import List String Ascii Bool Arith ZArith Lia.
From Stdlib Require Import Permutation.
From Stdlib Require PrimFloat.
From Stdlib Require SpecFloat FloatOps.
Import ListNotations.

Local Open Scope string_scope.
Local Open Scope list_scope.
Local Open Scope nat_scope.

(** ** Python helpers used by the source *)

Module Py.

(** [c.isspace()] for a character of code point below 256: TAB, LF,
    VT, FF, CR, FS, GS, RS, US, SPACE, NEL and the no-break space. *)
Definition is_space (c : ascii) : bool :=
  let n := nat_of_ascii c in
  ((9 <=? n) && (n <=? 13)) || ((28 <=? n) && (n <=? 32)) ||
  (n =? 133) || (n =? 160).

Fixpoint lstrip (s : string) : string :=
  match s with
  | EmptyString => EmptyString
  | String c rest => if is_space c then lstrip rest else s
  end.

(** [rstrip] keeps a character when it is not a space or when something
    survives to its right. *)
Fixpoint rstrip (s : string) : string :=
  match s with
  | EmptyString => EmptyString
  | String c rest =>
      match rstrip rest with
      | EmptyString => if is_space c then EmptyString else String c EmptyString
      | kept => String c kept
      end
  end.

(** [s.strip()] *)
Definition strip (s : string) : string := rstrip (lstrip s).

(** [s.split(sep)] for a one-character separator: empty pieces are kept. *)
Fixpoint split_acc (sep : ascii) (cur : string) (s : string) : list string :=
  match s with
  | EmptyString => [cur]
  | String c rest =>
      if Ascii.eqb c sep then cur :: split_acc sep EmptyString rest
      else split_acc sep (String.append cur (String c EmptyString)) rest
  end.

Definition split (sep : ascii) (s : string) : list string :=
  split_acc sep EmptyString s.

Definition LF : ascii := ascii_of_nat 10.
Definition CR : ascii := ascii_of_nat 13.

(** [range(start, stop, step)] for a positive step. *)
Definition range (start stop step : Z) : list Z :=
  map (fun k => (start + Z.of_nat k * step)%Z)
      (seq 0 (Z.to_nat ((stop - start + step - 1) / step))).

(** [range(start, stop)] *)
Definition range1 (start stop : Z) : list Z := range start stop 1.

(** The float that stands for the integer [z] in arithmetic and
    comparisons with floats: the nearest binary64. *)
Definition float_of_int (z : Z) : PrimFloat.float :=
  FloatOps.SF2Prim
    (SpecFloat.binary_normalize FloatOps.prec FloatOps.emax z 0 false).

End Py.

(** ** The egress identity pool: [class ProxyRotator] *)

Module ProxyRotator.

(** The fields set by [__init__].  [lock] is a [threading.Lock]: the
    model keeps whether it is held.  Such a lock has no owner and is
    not re-entrant. *)
Record t : Type := mk {
  proxies : list string;
  current_index : nat;
  lock : bool;
  last_update : PrimFloat.float;
  update_interval : PrimFloat.float
}.

(** A new rotator.  [last_update = 0] and [update_interval = 300]
    are Python integers; they enter the float arithmetic and the
    comparison of [get_proxy] as the floats of the same value. *)
Definition __init__ : t :=
  {| proxies := []; current_index := 0; lock := false;
     last_update := Py.float_of_int 0; update_interval := Py.float_of_int 300 |}.

(** What the network and the clock answer during one call. *)
Record Net : Type := mkNet {
  (** [requests.get(provider, timeout=10)]: [None] when it raises,
      otherwise the status code and the body. *)
  provider_response : option (Z * string);
  (** iteration order of the Python [set] built from the listed lines,
      given its distinct members in order of first insertion *)
  set_iteration : list string -> list string;
  (** [_test_proxy]: the probe through the proxy answered 200 *)
  test_proxy : string -> bool;
  (** [time.time()] read by [get_proxy] *)
  now : PrimFloat.float;
  (** [time.time()] read at the end of [update_proxies] *)
  now_refreshed : PrimFloat.float;
  (** [update_headers()] or [session.get(url, **kwargs)] raises, given
      the [proxies] argument of the request *)
  request_raises : option (string * string) -> bool
}.

(** How a call made by one thread ends.  [Blocks]: the thread is left
    waiting for the lock.  When the lock it waits for is held by the
    waiting thread itself, as in a nested [with self.lock], nobody is
    left to release it and the wait never ends. *)
Inductive run (A : Type) : Type :=
| Returns (a : A) (s : t)
| Raises (s : t)
| Blocks (s : t).
Arguments Returns {A} a s.
Arguments Raises {A} s.
Arguments Blocks {A} s.

Definition set_lock (b : bool) (s : t) : t :=
  {| proxies := proxies s; current_index := current_index s; lock := b;
     last_update := last_update s; update_interval := update_interval s |}.

(** [with self.lock: body].  Acquiring a held lock never completes;
    leaving the block, normally or by an exception, releases it. *)
Definition with_lock {A : Type} (body : t -> run A) (s : t) : run A :=
  if lock s then Blocks s
  else match body (set_lock true s) with
       | Returns a s' => Returns a (set_lock false s')
       | Raises s' => Raises (set_lock false s')
       | Blocks s' => Blocks s'
       end.

(** The loop over [test_proxies]: every candidate is stripped, probed,
    kept when the probe succeeds, and the loop stops at 10 kept. *)
Fixpoint validate (probe : string -> bool) (test_proxies : list string)
         (valid_proxies : list string) : list string :=
  match test_proxies with
  | [] => valid_proxies
  | proxy :: rest =>
      if probe (Py.strip proxy) then
        let valid_proxies := valid_proxies ++ [Py.strip proxy] in
        if 10 <=? List.length valid_proxies then valid_proxies
        else validate probe rest valid_proxies
      else validate probe rest valid_proxies
  end.

(** The candidates gathered from the first provider. *)
Definition fetched (net : Net) : list string :=
  match provider_response net with
  | Some (status_code, text) =>
      if (status_code =? 200)%Z then
        nodup string_dec (Py.split Py.LF (Py.strip text))
      else []
  | None => []
  end.

(** [update_proxies] *)
Definition update_proxies (net : Net) (s : t) : run unit :=
  let new_proxies := fetched net in
  let test_proxies := firstn 50 (set_iteration net new_proxies) in
  let valid_proxies := validate (test_proxy net) test_proxies [] in
  with_lock (fun s =>
    Returns tt {| proxies := valid_proxies; current_index := 0;
                  lock := lock s; last_update := now_refreshed net;
                  update_interval := update_interval s |}) s.

(** [not self.proxies or time.time() - self.last_update > self.update_interval] *)
Definition needs_refresh (net : Net) (s : t) : bool :=
  match proxies s with
  | [] => true
  | _ => PrimFloat.ltb (update_interval s)
                       (PrimFloat.sub (now net) (last_update s))
  end.

(** [get_proxy]: the result is [None] for Python's [None]. *)
Definition get_proxy (net : Net) (s : t) : run (option string) :=
  with_lock (fun s =>
    match (if needs_refresh net s then update_proxies net s
           else Returns tt s) with
    | Blocks s => Blocks s
    | Raises s => Raises s
    | Returns _ s =>
        match proxies s with
        | [] => Returns None s
        | _ =>
            match nth_error (proxies s) (current_index s) with
            | None => Raises s  (* IndexError *)
            | Some proxy =>
                Returns (Some proxy)
                  {| proxies := proxies s;
                     current_index :=
                       (current_index s + 1) mod List.length (proxies s);
                     lock := lock s; last_update := last_update s;
                     update_interval := update_interval s |}
            end
        end
    end) s.

End ProxyRotator.

(** ** [class RetrySession]: [get] *)

Module RetrySession.

(** How a call of [get] ends.  [proxies] is the [proxies] argument
    that [session.get] is called with, [None] when there is none;
    [rot] is the rotator afterwards, if the session has one. *)
Inductive outcome : Type :=
| Sent (proxies : option (string * string)) (rot : option ProxyRotator.t)
    (* session.get returned its response *)
| SendRaised (proxies : option (string * string))
             (rot : option ProxyRotator.t)
    (* update_headers or session.get raised *)
| Raised (rot : option ProxyRotator.t)
    (* get_proxy raised *)
| Blocked (rot : option ProxyRotator.t).
    (* the thread is left waiting for the rotator's lock *)

(** [self.update_headers(); return self.session.get(url, **kwargs)] *)
Definition send (net : ProxyRotator.Net) (proxies : option (string * string))
           (rot : option ProxyRotator.t) : outcome :=
  if ProxyRotator.request_raises net proxies then SendRaised proxies rot
  else Sent proxies rot.

(** [get]: [if self.proxy_rotator] consults the rotator when the
    session has one, and [if proxy] adds the [proxies] argument for a
    proxy that is neither [None] nor the empty string. *)
Definition get (net : ProxyRotator.Net) (proxy_rotator : option ProxyRotator.t)
  : outcome :=
  match proxy_rotator with
  | None => send net None None
  | Some rot =>
      match ProxyRotator.get_proxy net rot with
      | ProxyRotator.Returns (Some EmptyString) rot' =>
          send net None (Some rot')
      | ProxyRotator.Returns (Some proxy) rot' =>
          send net (Some (String.append "http://" proxy,
                          String.append "http://" proxy)) (Some rot')
      | ProxyRotator.Returns None rot' => send net None (Some rot')
      | ProxyRotator.Raises rot' => Raised (Some rot')
      | ProxyRotator.Blocks rot' => Blocked (Some rot')
      end
  end.

End RetrySession.

(** ** Exceptions and state

    A Python statement either completes with a value or raises; either
    way it leaves a state behind.  [M S A] is a statement over a state of
    type [S].  [Exc] stands for an exception of class [Exception], the
    class that every [except] clause of the source names. *)

Inductive result (A : Type) : Type :=
| Val (a : A)
| Exc.
Arguments Val {A} a.
Arguments Exc {A}.

Definition M (S A : Type) : Type := S -> result A * S.

Definition ret {S A : Type} (a : A) : M S A := fun s => (Val a, s).

Definition raise {S A : Type} : M S A := fun s => (Exc, s).

Definition bind {S A B : Type} (m : M S A) (k : A -> M S B) : M S B :=
  fun s => match m s with
           | (Val a, s') => k a s'
           | (Exc, s') => (Exc, s')
           end.

(** [try: m except Exception: handler] *)
Definition try_except {S A : Type} (m : M S A) (handler : M S A) : M S A :=
  fun s => match m s with
           | (Val a, s') => (Val a, s')
           | (Exc, s') => handler s'
           end.

(** [try: m finally: cleanup]: the cleanup runs on both exits and an
    exception of its own replaces the outcome of [m]. *)
Definition try_finally {S A : Type} (m : M S A) (cleanup : M S unit) : M S A :=
  fun s => match m s with
           | (r, s') => match cleanup s' with
                        | (Val _, s'') => (r, s'')
                        | (Exc, s'') => (Exc, s'')
                        end
           end.

(** A statement that only changes the state. *)
Definition modify {S : Type} (f : S -> S) : M S unit := fun s => (Val tt, f s).

Definition gets {S A : Type} (f : S -> A) : M S A := fun s => (Val (f s), s).

Declare Scope py_scope.
Delimit Scope py_scope with py.
Notation "x <- m ;; k" := (bind m (fun x => k))
  (at level 100, m at next level, right associativity) : py_scope.
Notation "m ;; k" := (bind m (fun _ => k))
  (at level 100, right associativity) : py_scope.

(** [for x in xs: body x] *)
Fixpoint for_each {S A : Type} (xs : list A) (body : A -> M S unit) : M S unit :=
  match xs with
  | [] => ret tt
  | x :: rest => bind (body x) (fun _ => for_each rest body)
  end.

(** ** Records, the outside world and its trace *)

(** [@dataclass ListingData]; [asdict] of it carries the same eight fields. *)
Record ListingData : Type := mkListing {
  brand : option string;
  model : option string;
  price : option PrimFloat.float;
  sold_date : option string;
  hours : option PrimFloat.float;
  specs : option string;
  location : option string;
  condition : option string
}.

(** How one call of [PageScraper.setup_driver] ends. *)
Inductive setup_outcome : Type :=
| ChromeStarted     (* webdriver.Chrome(service=...) returned, the stealth commands ran *)
| FallbackStarted   (* the first path raised, webdriver.Chrome(options=...) returned *)
| StealthFailed     (* a session was created, then execute_cdp_cmd or execute_script raised *)
| ChromeFailed.     (* both creation paths raised: no session exists *)

(** What the loop body of [scrape_page] meets for one listing element. *)
Inductive item_outcome : Type :=
| Parsed (r : ListingData)  (* extract_listing_data and parse_listing_data gave values *)
| NoData                    (* extract_listing_data returned None *)
| NotParsed                 (* parse_listing_data returned None *)
| StaleElement              (* StaleElementReferenceException *)
| ItemError.                (* any other exception while processing the listing *)

(** What one navigation to a page meets. *)
Inductive page_outcome : Type :=
| GetRaises                            (* driver.get(url) raised *)
| WaitTimesOut                         (* wait.until raised TimeoutException *)
| WaitRaises                           (* wait.until raised another exception *)
| Listed (items : list item_outcome).  (* wait.until returned these elements *)

(** How the two writes of [save_results] end. *)
Inductive write_outcome : Type :=
| Written
| JsonOpenFails
| JsonDumpFails
| CsvOpenFails
| CsvWriteFails.

(** The oracle.  The answers about a page depend on the page and on how
    often it was asked about before, never on other pages. *)
Record Env : Type := mkEnv {
  (** [setup_driver] called by a job for [page], after [k] earlier calls *)
  setup_driver_outcome : Z -> nat -> setup_outcome;
  (** [driver.get] of [page] and the wait after it, after [k] earlier ones *)
  page_outcome_of : Z -> nat -> page_outcome;
  (** reading [current_url] of the session that a job of [page] holds at
      the start of an attempt raises, after [k] calls of [setup_driver] *)
  current_url_raises : Z -> nat -> bool;
  (** the writes of the flush that follows [k] earlier ones *)
  write_outcome_of : nat -> write_outcome;
  (** [executor.submit(self._scrape_single_page, page)] raises *)
  submit_raises : Z -> bool;
  (** the order in which [as_completed] yields the futures of a batch *)
  completion_order : list Z -> list Z
}.

Inductive event : Type :=
| Open (sid : nat)                (* webdriver.Chrome(...) returned session [sid] *)
| Attempt (page : Z) (n : nat)    (* iteration [n] of the loop of scrape_page starts *)
| Get (sid : nat) (page : Z)      (* driver.get(url) on session [sid] *)
| TimedOut (page : Z)             (* logger.error: the element wait of [page] timed out *)
| Caught (page : Z) (n : nat)     (* logger.error: attempt [n] of [page] raised *)
| Quit (sid : nat)                (* driver.quit() called on session [sid] *)
| Sleep (lo hi : nat)             (* time.sleep(random.uniform(lo, hi)) *)
| Submit (page : Z)               (* executor.submit accepted the job of [page] *)
| Flush (rs : list ListingData)   (* save_results opens the output files for [rs] *)
| Fault.                          (* an exception raised by the loop of scrape_pages itself *)

(** An output file: absent, holding a complete dump of records, or cut
    short by a failed write. *)
Inductive file : Type :=
| Absent
| Whole (rs : list ListingData)
| Damaged.

Record World : Type := mkWorld {
  setups : Z -> nat;      (* per page: calls of setup_driver so far *)
  visits : Z -> nat;      (* per page: navigations so far *)
  next_session : nat;     (* sessions created so far *)
  writes : nat;           (* flushes so far *)
  json_file : file;       (* auction_results.json *)
  csv_file : file;        (* auction_results.csv *)
  trace : list event      (* oldest first *)
}.

Definition new_world : World :=
  {| setups := fun _ => 0; visits := fun _ => 0; next_session := 0;
     writes := 0; json_file := Absent; csv_file := Absent; trace := [] |}.

Definition bump (f : Z -> nat) (page : Z) : Z -> nat :=
  fun q => if (q =? page)%Z then S (f q) else f q.

Definition log (e : event) (w : World) : World :=
  {| setups := setups w; visits := visits w; next_session := next_session w;
     writes := writes w; json_file := json_file w; csv_file := csv_file w;
     trace := trace w ++ [e] |}.

Definition count_setup (page : Z) (w : World) : World :=
  {| setups := bump (setups w) page; visits := visits w;
     next_session := next_session w; writes := writes w;
     json_file := json_file w; csv_file := csv_file w; trace := trace w |}.

Definition count_visit (page : Z) (w : World) : World :=
  {| setups := setups w; visits := bump (visits w) page;
     next_session := next_session w; writes := writes w;
     json_file := json_file w; csv_file := csv_file w; trace := trace w |}.

(** A new browser session: its id is fresh and its creation is logged. *)
Definition open_session (w : World) : nat * World :=
  (next_session w,
   {| setups := setups w; visits := visits w;
      next_session := S (next_session w); writes := writes w;
      json_file := json_file w; csv_file := csv_file w;
      trace := trace w ++ [Open (next_session w)] |}).

Definition set_files (json csv : file) (w : World) : World :=
  {| setups := setups w; visits := visits w; next_session := next_session w;
     writes := S (writes w); json_file := json; csv_file := csv;
     trace := trace w |}.

(** ** The page fetch job: [class PageScraper] *)

Module PageScraper.

Local Open Scope py_scope.

(** A [PageScraper] object together with the world it acts on.
    [driver] is [self.driver]: the id of its browser session, or
    [None]. *)
Record Job : Type := mkJob {
  driver : option nat;
  world : World
}.

Definition on_world (f : World -> World) : M Job unit :=
  modify (fun j => {| driver := driver j; world := f (world j) |}).

Definition set_driver (d : option nat) : M Job unit :=
  modify (fun j => {| driver := d; world := world j |}).

Definition max_retries : nat := 3.

Section WithEnv.

Variable env : Env.

(** [setup_driver], called by the job of [page].  [self.driver] is
    assigned as soon as a session exists, so it stays assigned when a
    stealth command raises afterwards. *)
Definition setup_driver (page : Z) : M Job unit :=
  k <- gets (fun j => setups (world j) page) ;;
  on_world (count_setup page) ;;
  match setup_driver_outcome env page k with
  | ChromeStarted | FallbackStarted =>
      sid <- gets (fun j => next_session (world j)) ;;
      on_world (fun w => snd (open_session w)) ;;
      set_driver (Some sid)
  | StealthFailed =>
      sid <- gets (fun j => next_session (world j)) ;;
      on_world (fun w => snd (open_session w)) ;;
      set_driver (Some sid) ;;
      raise
  | ChromeFailed => raise
  end.

(** [PageScraper(base_url, logger)] built for the job of [page]:
    [__init__] sets [self.driver = None] and calls [setup_driver]. *)
Definition __init__ (page : Z) (w : World) : result unit * Job :=
  setup_driver page {| driver := None; world := w |}.

(** [_random_sleep(min_seconds, max_seconds)] and
    [time.sleep(random.uniform(lo, hi))] *)
Definition _random_sleep (lo hi : nat) : M Job unit :=
  on_world (log (Sleep lo hi)).

(** The [for listing in listings] loop: a listing contributes a
    record when both helpers return a value; every exception of the
    loop body is caught and the listing skipped. *)
Fixpoint collect (listings : list item_outcome) : list ListingData :=
  match listings with
  | [] => []
  | Parsed r :: rest => r :: collect rest
  | _ :: rest => collect rest
  end.

(** [self.driver.quit()] inside [try ... except Exception: pass]: the
    call is logged, an exception of it is swallowed. *)
Definition quit_quietly : M Job unit :=
  d <- gets driver ;;
  match d with
  | Some sid => on_world (log (Quit sid))
  | None => ret tt
  end.

(** [hasattr(self.driver, 'current_url')] on a session object.
    [current_url] is a property of every session object, so the
    test is true unless reading the property raises, and [hasattr]
    lets through every exception that is not an [AttributeError]. *)
Definition has_current_url (page : Z) : M Job unit :=
  k <- gets (fun j => setups (world j) page) ;;
  if current_url_raises env page k then raise else ret tt.

(** The statements of the [try] block up to its [return]s; the value
    is the list the block returns.  [not self.driver or not
    hasattr(...)]: without a session [setup_driver] is called, with
    one its [current_url] is read. *)
Definition try_block (page : Z) (retry_count : nat)
  : M Job (list ListingData) :=
  on_world (log (Attempt page (retry_count + 1))) ;;
  d <- gets driver ;;
  (match d with
   | None => setup_driver page
   | Some _ => has_current_url page
   end) ;;
  _random_sleep 1 2 ;;
  d <- gets driver ;;
  match d with
  | None => raise   (* AttributeError: 'NoneType' has no attribute 'get' *)
  | Some sid =>
      k <- gets (fun j => visits (world j) page) ;;
      on_world (fun w => log (Get sid page) (count_visit page w)) ;;
      match page_outcome_of env page k with
      | GetRaises => raise
      | WaitRaises => raise
      | WaitTimesOut => on_world (log (TimedOut page)) ;; ret []
      | Listed listings =>
          match listings with
          | [] => ret []
          | _ => ret (collect listings)
          end
      end
  end.

(** What one iteration of the [while] loop decides. *)
Inductive control : Type :=
| Return (rs : list ListingData)   (* a [return] statement was executed *)
| Continue (retry_count : nat).    (* the loop goes on *)

(** The [except Exception] block. *)
Definition except_block (page : Z) (retry_count : nat) : M Job control :=
  let retry_count := retry_count + 1 in
  on_world (log (Caught page retry_count)) ;;
  d <- gets driver ;;
  (match d with
   | Some _ => quit_quietly
   | None => ret tt
   end) ;;
  set_driver None ;;
  if retry_count <? max_retries then
    _random_sleep 2 5 ;;
    ret (Continue retry_count)
  else ret (Return []).

(** The [finally] block. *)
Definition finally_block : M Job unit :=
  d <- gets driver ;;
  match d with
  | Some _ => quit_quietly ;; set_driver None
  | None => ret tt
  end.

(** One iteration: [try ... except Exception ... finally ...]. *)
Definition iteration (page : Z) (retry_count : nat) : M Job control :=
  try_finally
    (try_except
       (rs <- try_block page retry_count ;; ret (Return rs))
       (except_block page retry_count))
    finally_block.

(** What [scrape_page] hands back: a list, or Python's [None] when
    the [while] loop ends without a [return]. *)
Inductive returned : Type :=
| PyList (rs : list ListingData)
| PyNone.

(** The [while retry_count < max_retries] loop.  [fuel] bounds the
    number of iterations of the model; [scrape_page_enough_fuel]
    shows that the bound given by [scrape_page] is never reached. *)
Fixpoint scrape_page_loop (fuel : nat) (page : Z) (retry_count : nat)
  : M Job returned :=
  match fuel with
  | 0 => ret PyNone
  | S fuel =>
      if retry_count <? max_retries then
        c <- iteration page retry_count ;;
        match c with
        | Return rs => ret (PyList rs)
        | Continue retry_count => scrape_page_loop fuel page retry_count
        end
      else ret PyNone
  end.

(** [scrape_page(page_num)] *)
Definition scrape_page (page_num : Z) : M Job returned :=
  scrape_page_loop (S max_retries) page_num 0.

End WithEnv.

End PageScraper.

(** ** The orchestrator: [class MachineryPeteScraper] *)

Module MachineryPeteScraper.

Local Open Scope py_scope.

Import PageScraper.

(** [self.results] is either a list object of its own or, after
    [self.results = all_results], the very list that [all_results]
    names, which then grows with it. *)
Inductive results_ref : Type :=
| Own (rs : list ListingData)
| SameAsAllResults.

(** The object field [self.results], the two locals of [scrape_pages]
    and the world. *)
Record Crawl : Type := mkCrawl {
  all_results : list ListingData;
  failed_pages : list Z;
  results : results_ref;
  world : World
}.

(** The value of [self.results]. *)
Definition self_results (c : Crawl) : list ListingData :=
  match results c with
  | Own rs => rs
  | SameAsAllResults => all_results c
  end.

(** The object after [__init__], in world [w]. *)
Definition __init__ (w : World) : Crawl :=
  {| all_results := []; failed_pages := []; results := Own []; world := w |}.

Definition on_world (f : World -> World) : M Crawl unit :=
  modify (fun c => {| all_results := all_results c;
                      failed_pages := failed_pages c;
                      results := results c; world := f (world c) |}).

(** [failed_pages = []] and [all_results = []]: two new lists, so
    [self.results] keeps the list it had. *)
Definition fresh_locals : M Crawl unit :=
  modify (fun c => {| all_results := []; failed_pages := [];
                      results := Own (self_results c); world := world c |}).

(** [all_results.extend(page_results)] *)
Definition extend (page_results : list ListingData) : M Crawl unit :=
  modify (fun c => {| all_results := all_results c ++ page_results;
                      failed_pages := failed_pages c;
                      results := results c; world := world c |}).

(** [failed_pages.append(page_num)] *)
Definition append_failed (page_num : Z) : M Crawl unit :=
  modify (fun c => {| all_results := all_results c;
                      failed_pages := failed_pages c ++ [page_num];
                      results := results c; world := world c |}).

(** [self.results = all_results] *)
Definition share_results : M Crawl unit :=
  modify (fun c => {| all_results := all_results c;
                      failed_pages := failed_pages c;
                      results := SameAsAllResults; world := world c |}).

Section WithEnv.

Variable env : Env.

(** [_scrape_single_page(page_num)], as a statement over the world:
    an exception of the constructor leaves the function. *)
Definition _scrape_single_page (page_num : Z) : M World returned :=
  fun w =>
    match PageScraper.__init__ env page_num w with
    | (Exc, j) => (Exc, PageScraper.world j)
    | (Val _, j) =>
        match scrape_page env page_num j with
        | (r, j') => (r, PageScraper.world j')
        end
    end.

(** The job of a page run to its end, seen from the orchestrator:
    [future.result()] in the main pass, the two statements
    [scraper = PageScraper(...)] and [scraper.scrape_page(page_num)]
    in the retry pass. *)
Definition run_job (page_num : Z) : M Crawl returned :=
  fun c =>
    match _scrape_single_page page_num (world c) with
    | (r, w) => (r, {| all_results := all_results c;
                       failed_pages := failed_pages c;
                       results := results c; world := w |})
    end.

(** The two writes of [save_results] under its [try]: every
    exception is caught and logged.  Opening a file with mode "w"
    empties it, so a write that fails after the open leaves the file
    cut short. *)
Definition write_files (rs : list ListingData) (w : World) : World :=
  let k := writes w in
  let w := log (Flush rs) w in
  match write_outcome_of env k with
  | Written => set_files (Whole rs) (Whole rs) w
  | JsonOpenFails => set_files (json_file w) (csv_file w) w
  | JsonDumpFails => set_files Damaged (csv_file w) w
  | CsvOpenFails => set_files (Whole rs) (csv_file w) w
  | CsvWriteFails => set_files (Whole rs) Damaged w
  end.

(** [save_results].  [self.results_lock] is taken by this method
    only and this method is called by the thread of [scrape_pages]
    only, so the lock is always free when it is asked for. *)
Definition save_results : M Crawl unit :=
  rs <- gets self_results ;;
  match rs with
  | [] => ret tt   (* "No results to save" *)
  | _ => on_world (write_files rs)
  end.

(** [if all_results: self.results = all_results; self.save_results()] *)
Definition save_if_any : M Crawl unit :=
  rs <- gets all_results ;;
  match rs with
  | [] => ret tt
  | _ => share_results ;; save_results
  end.

(** A job whose future is never asked for its result: it runs, its
    outcome is dropped. *)
Definition run_unobserved (page_num : Z) : M Crawl unit :=
  try_except (run_job page_num ;; ret tt) (ret tt).

(** The dict comprehension of [executor.submit] calls.  When a
    submit raises, leaving the [with] block waits for the jobs
    already submitted, whose results nobody collects. *)
Fixpoint submit_all (pages : list Z) (submitted : list Z) : M Crawl unit :=
  match pages with
  | [] => ret tt
  | page_num :: rest =>
      if submit_raises env page_num then
        on_world (log Fault) ;;
        for_each submitted run_unobserved ;;
        raise
      else
        on_world (log (Submit page_num)) ;;
        submit_all rest (submitted ++ [page_num])
  end.

(** The body of [for future in as_completed(future_to_page)]. *)
Definition collect_future (page_num : Z) : M Crawl unit :=
  try_except
    (page_results <- run_job page_num ;;
     match page_results with
     | PyList (r :: rs) => extend (r :: rs)
     | _ => append_failed page_num
     end)
    (append_failed page_num).

(** One [with ThreadPoolExecutor(max_workers=2)] block.  The jobs of
    a batch run in two worker threads; each works on a [PageScraper]
    of its own and the oracle answers per page, so the model runs
    each job when its future is collected, in the order of
    completion. *)
Definition run_batch (batch_start batch_end : Z) : M Crawl unit :=
  let pages := Py.range1 batch_start (batch_end + 1) in
  submit_all pages [] ;;
  for_each (completion_order env pages) collect_future.

(** The [for batch_start in range(...)] loop. *)
Definition main_pass (batch_size start_page end_page : Z) : M Crawl unit :=
  for_each (Py.range start_page (end_page + 1) batch_size)
    (fun batch_start =>
       let batch_end := Z.min (batch_start + batch_size - 1) end_page in
       run_batch batch_start batch_end ;;
       save_if_any ;;
       on_world (log (Sleep 3 5))).

(** The body of [for page_num in failed_pages]. *)
Definition retry_page (page_num : Z) : M Crawl unit :=
  try_except
    (on_world (log (Sleep 3 5)) ;;
     page_results <- run_job page_num ;;
     match page_results with
     | PyList (r :: rs) => extend (r :: rs)
     | _ => ret tt
     end)
    (ret tt).

(** [if failed_pages: for page_num in failed_pages: ...] *)
Definition retry_pass : M Crawl unit :=
  failed <- gets failed_pages ;;
  match failed with
  | [] => ret tt
  | _ => for_each failed retry_page
  end.

(** [scrape_pages] with its local [batch_size] as a parameter. *)
Definition scrape_pages_with (batch_size start_page end_page : Z)
  : M Crawl unit :=
  try_except
    (fresh_locals ;;
     main_pass batch_size start_page end_page ;;
     retry_pass ;;
     save_if_any)
    raise.   (* logger.error(...); raise *)

(** [scrape_pages(start_page, end_page)]: [batch_size = 2]. *)
Definition scrape_pages (start_page end_page : Z) : M Crawl unit :=
  scrape_pages_with 2 start_page end_page.

End WithEnv.

End MachineryPeteScraper.

(** ** Pool states and networks used by the statements below *)

Module PoolScenarios.

Import ProxyRotator.

(** The pool holds at least two different identities. *)
Definition two_identities (s : t) : Prop :=
  2 <= List.length (nodup string_dec (proxies s)).

(** The listing source cannot be reached: [requests.get] raises. *)
Definition unreachable : Net :=
  {| provider_response := None;
     set_iteration := fun l => l;
     test_proxy := fun _ => true;
     now := Py.float_of_int 1000;
     now_refreshed := Py.float_of_int 1001;
     request_raises := fun _ => false |}.

(** A listing of three lines, the first ended by CR LF, the other two
    by LF alone; every probe succeeds. *)
Definition mixed_line_ends : Net :=
  {| provider_response :=
       Some (200%Z,
             String.append "10.0.0.1:80"
               (String Py.CR (String Py.LF
                  (String.append "10.0.0.1:80"
                     (String Py.LF "10.0.0.2:80")))));
     set_iteration := fun l => l;
     test_proxy := fun _ => true;
     now := Py.float_of_int 1000;
     now_refreshed := Py.float_of_int 1001;
     request_raises := fun _ => false |}.

(** Ten seconds after the refresh of [mixed_line_ends]. *)
Definition soon_after : Net :=
  {| provider_response := None;
     set_iteration := fun l => l;
     test_proxy := fun _ => true;
     now := Py.float_of_int 1011;
     now_refreshed := Py.float_of_int 1012;
     request_raises := fun _ => false |}.

(** The pool that [update_proxies] builds from [mixed_line_ends]. *)
Definition repeated_entry : t :=
  {| proxies := ["10.0.0.1:80"; "10.0.0.1:80"; "10.0.0.2:80"];
     current_index := 0; lock := false;
     last_update := Py.float_of_int 1001;
     update_interval := Py.float_of_int 300 |}.

Definition three_proxies : t :=
  {| proxies := ["10.0.0.1:80"; "10.0.0.2:80"; "10.0.0.3:80"];
     current_index := 2; lock := false;
     last_update := Py.float_of_int 1001;
     update_interval := Py.float_of_int 300 |}.

End PoolScenarios.

(** ** Reading a trace *)

Module Trace.

(** The sessions created, in order. *)
Definition opened (evs : list event) : list nat :=
  flat_map (fun e => match e with Open sid => [sid] | _ => [] end) evs.

(** The sessions on which [quit] was called, in order. *)
Definition quitted (evs : list event) : list nat :=
  flat_map (fun e => match e with Quit sid => [sid] | _ => [] end) evs.

(** The sessions used for a navigation, in order. *)
Definition visited (evs : list event) : list nat :=
  flat_map (fun e => match e with Get sid _ => [sid] | _ => [] end) evs.

(** The numbers of the attempts started, in order. *)
Definition attempts (evs : list event) : list nat :=
  flat_map (fun e => match e with Attempt _ n => [n] | _ => [] end) evs.

(** The numbers of the attempts that raised, in order. *)
Definition caught (evs : list event) : list nat :=
  flat_map (fun e => match e with Caught _ n => [n] | _ => [] end) evs.

(** The pages whose job the executor accepted, in order. *)
Definition submitted (evs : list event) : list Z :=
  flat_map (fun e => match e with Submit page => [page] | _ => [] end) evs.

(** The record lists handed to the output files, in order. *)
Definition flushed (evs : list event) : list (list ListingData) :=
  flat_map (fun e => match e with Flush rs => [rs] | _ => [] end) evs.

(** The events that follow the first [Fault]. *)
Fixpoint after_fault (evs : list event) : option (list event) :=
  match evs with
  | [] => None
  | Fault :: rest => Some rest
  | _ :: rest => after_fault rest
  end.

(** Where a trace stands between two attempts of a job. *)
Inductive pace : Type :=
| NotStarted   (* no attempt yet *)
| Attempted    (* an attempt started and no 2-5 second sleep followed yet *)
| Slept        (* a 2-5 second sleep followed the last attempt *)
| Rushed.      (* an attempt started right after another, with no sleep between *)

Definition pace_step (p : pace) (e : event) : pace :=
  match p, e with
  | Rushed, _ => Rushed
  | Attempted, Attempt _ _ => Rushed
  | _, Attempt _ _ => Attempted
  | Attempted, Sleep 2 5 => Slept
  | p, _ => p
  end.

Definition pace_after (p : pace) (evs : list event) : pace :=
  fold_left pace_step evs p.

(** Every attempt but the first comes after a 2-5 second sleep that
    follows the attempt before it. *)
Definition sleeps_between_attempts (evs : list event) : Prop :=
  pace_after NotStarted evs <> Rushed.

End Trace.

(** ** What a page fetch job leaves in the trace *)

Module JobShape.

Import PageScraper Trace.

(** The session an object holds, as a list. *)
Definition held (d : option nat) : list nat :=
  match d with
  | Some sid => [sid]
  | None => []
  end.

(** What one iteration of the loop of [scrape_page], started in state
    [j] as attempt [retry_count + 1], did: [c] is its decision, [j'] the
    state it leaves, [evs] the events it added. *)
Record iteration_did (page : Z) (retry_count : nat) (j : Job)
       (c : control) (j' : Job) (evs : list event) : Prop := {
  did_release : driver j' = None;
  did_trace : trace (world j') = trace (world j) ++ evs;
  did_attempt : attempts evs = [retry_count + 1];
  did_open : opened evs = [] \/
             (driver j = None /\ opened evs = [next_session (world j)]);
  did_count : next_session (world j') =
              next_session (world j) + List.length (opened evs);
  did_quit : quitted evs = held (driver j) ++ opened evs;
  did_visit : visited evs = [] \/ visited evs = held (driver j) ++ opened evs;
  did_pace : forall p, p = NotStarted \/ p = Slept ->
               pace_after p evs =
               match c with Continue _ => Slept | Return _ => Attempted end;
  did_decide : match c with
               | Continue n =>
                   n = retry_count + 1 /\ n < max_retries /\
                   caught evs = [n]
               | Return rs =>
                   caught evs = [] \/
                   (caught evs = [retry_count + 1] /\
                    max_retries <= retry_count + 1 /\ rs = [])
               end
}.

(** What the loop of [scrape_page] did from [retry_count] on: [rs] is
    the list returned, [j'] the state left, [evs] the events added. *)
Record job_did (retry_count : nat) (j j' : Job) (rs : list ListingData)
       (evs : list event) : Prop := {
  job_release : driver j' = None;
  job_trace : trace (world j') = trace (world j) ++ evs;
  job_attempts : exists n, attempts evs = seq (retry_count + 1) n /\
                           1 <= n /\ retry_count + n <= max_retries;
  job_sessions : opened evs =
                 seq (next_session (world j)) (List.length (opened evs));
  job_count : next_session (world j') =
              next_session (world j) + List.length (opened evs);
  job_quit : quitted evs = held (driver j) ++ opened evs;
  job_visit : NoDup (visited evs) /\
              incl (visited evs) (held (driver j) ++ opened evs);
  job_pace : forall p, p = NotStarted \/ p = Slept ->
               pace_after p evs = Attempted;
  job_exhausted : In max_retries (caught evs) -> rs = []
}.

(** [w'] differs from [w] by what a job of [page] may do: the counters
    of other pages, the output files and the count of flushes are the
    same, and the events added hold no flush, no submit and no fault
    of the orchestrator. *)
Definition job_only (page : Z) (w w' : World) : Prop :=
  (forall q, q <> page ->
             setups w' q = setups w q /\ visits w' q = visits w q) /\
  writes w' = writes w /\
  json_file w' = json_file w /\
  csv_file w' = csv_file w /\
  exists evs, trace w' = trace w ++ evs /\
              flushed evs = [] /\ submitted evs = [] /\ ~ In Fault evs.

(** Two worlds that the oracle cannot tell apart when asked about
    [page]. *)
Definition same_at (page : Z) (w1 w2 : World) : Prop :=
  setups w1 page = setups w2 page /\ visits w1 page = visits w2 page.

(** Two job states that behave alike on [page]. *)
Definition alike (page : Z) (j1 j2 : Job) : Prop :=
  (driver j1 = None <-> driver j2 = None) /\
  same_at page (world j1) (world j2).

End JobShape.

(** ** Oracles used by the statements below *)

Module CrawlScenarios.

Definition deere (model_name : string) : ListingData :=
  {| brand := Some "John Deere"; model := Some model_name;
     price := None; sold_date := None; hours := None;
     specs := None; location := None; condition := None |}.

(** A page that lists three tractors. *)
Definition three_listings : page_outcome :=
  Listed [Parsed (deere "4020"); Parsed (deere "4440"); Parsed (deere "8300")].

(** A page that lists two tractors. *)
Definition two_listings : page_outcome :=
  Listed [Parsed (deere "4020"); Parsed (deere "4440")].

(** Every page lists three tractors, nothing ever fails, futures
    complete in page order. *)
Definition calm : Env :=
  {| setup_driver_outcome := fun _ _ => ChromeStarted;
     page_outcome_of := fun _ _ => three_listings;
     current_url_raises := fun _ _ => false;
     write_outcome_of := fun _ => Written;
     submit_raises := fun _ => false;
     completion_order := fun pages => pages |}.

(** As [calm], but Chrome cannot be started at all. *)
Definition no_chrome : Env :=
  {| setup_driver_outcome := fun _ _ => ChromeFailed;
     page_outcome_of := fun _ _ => three_listings;
     current_url_raises := fun _ _ => false;
     write_outcome_of := fun _ => Written;
     submit_raises := fun _ => false;
     completion_order := fun pages => pages |}.

(** Pages 1, 2 and 4 list three tractors.  The element wait of page 3
    times out the first two times the page is visited and finds two
    tractors from the third visit on.  [order] is the order in which
    the futures of a batch complete. *)
Definition page_three_times_out (order : list Z -> list Z) : Env :=
  {| setup_driver_outcome := fun _ _ => ChromeStarted;
     page_outcome_of := fun page k =>
       if (page =? 3)%Z then
         if k <? 2 then WaitTimesOut else two_listings
       else three_listings;
     current_url_raises := fun _ _ => false;
     write_outcome_of := fun _ => Written;
     submit_raises := fun _ => false;
     completion_order := order |}.

(** As [page_three_times_out], but the first two visits of page 3 end
    with [driver.get] raising. *)
Definition page_three_raises (order : list Z -> list Z) : Env :=
  {| setup_driver_outcome := fun _ _ => ChromeStarted;
     page_outcome_of := fun page k =>
       if (page =? 3)%Z then
         if k <? 2 then GetRaises else two_listings
       else three_listings;
     current_url_raises := fun _ _ => false;
     write_outcome_of := fun _ => Written;
     submit_raises := fun _ => false;
     completion_order := order |}.

(** As [calm], but the executor refuses the job of page 3 and the
    first flush cannot open its file. *)
Definition refuses_page_three : Env :=
  {| setup_driver_outcome := fun _ _ => ChromeStarted;
     page_outcome_of := fun _ _ => three_listings;
     current_url_raises := fun _ _ => false;
     write_outcome_of := fun k => match k with
                                  | 0 => JsonOpenFails
                                  | _ => Written
                                  end;
     submit_raises := fun page => (page =? 3)%Z;
     completion_order := fun pages => pages |}.

(** Every element wait times out. *)
Definition all_time_out : Env :=
  {| setup_driver_outcome := fun _ _ => ChromeStarted;
     page_outcome_of := fun _ _ => WaitTimesOut;
     current_url_raises := fun _ _ => false;
     write_outcome_of := fun _ => Written;
     submit_raises := fun _ => false;
     completion_order := fun pages => pages |}.

(** As [calm], but the first call of [setup_driver] for a page
    starts Chrome and then fails on a stealth command. *)
Definition stealth_fails_first : Env :=
  {| setup_driver_outcome := fun _ k =>
       match k with
       | 0 => StealthFailed
       | _ => ChromeStarted
       end;
     page_outcome_of := fun _ _ => three_listings;
     current_url_raises := fun _ _ => false;
     write_outcome_of := fun _ => Written;
     submit_raises := fun _ => false;
     completion_order := fun pages => pages |}.

End CrawlScenarios.

(** ** What the orchestrator gathers *)

Module CrawlShape.

Import MachineryPeteScraper Trace.

(** The records a job hands to the orchestrator: those of the list it
    returns, none when it returns [None] or raises. *)
Definition records (r : result PageScraper.returned) : list ListingData :=
  match r with
  | Val (PageScraper.PyList rs) => rs
  | _ => []
  end.

(** The records of the job of [page] started in world [w], and the
    world that job leaves. *)
Definition job_records (env : Env) (w : World) (page : Z) : list ListingData :=
  records (fst (_scrape_single_page env page w)).

Definition job_world (env : Env) (w : World) (page : Z) : World :=
  snd (_scrape_single_page env page w).

(** The main pass marks a page as failed when its job hands over no
    record. *)
Definition fails (env : Env) (w : World) (page : Z) : bool :=
  match job_records env w page with
  | [] => true
  | _ => false
  end.

(** The records of the retry job of [page]: its second job, started
    where its first job, started in [w], left the page. *)
Definition retry_records (env : Env) (w : World) (page : Z)
  : list ListingData :=
  job_records env (job_world env w page) page.

(** The pages of the batch that starts at [batch_start]. *)
Definition batch_pages (batch_size end_page batch_start : Z) : list Z :=
  Py.range1 batch_start (Z.min (batch_start + batch_size - 1) end_page + 1).

(** Follows the specification: the union of the records that each
    page fetch job returns when run in isolation.  The jobs of a run
    are one job per page of the range and, for each page whose job
    handed over no record, one retry job; each is run alone, the first
    in the world [w] in which the crawl starts, the retry where the
    first left the page. *)
Definition union_of_isolated_jobs (env : Env) (w : World)
           (start_page end_page : Z) : list ListingData :=
  flat_map (fun page =>
              job_records env w page ++
              (if fails env w page then retry_records env w page else []))
           (Py.range1 start_page (end_page + 1)).

(** Follows the specification for the main pass alone: one job per
    page, each run alone in [w]. *)
Definition union_of_isolated_main_jobs (env : Env) (w : World)
           (start_page end_page : Z) : list ListingData :=
  flat_map (job_records env w) (Py.range1 start_page (end_page + 1)).

(** No submit is refused and every batch completes in some order of
    its pages. *)
Definition cooperative (env : Env) : Prop :=
  (forall page, submit_raises env page = false) /\
  (forall pages, Permutation (completion_order env pages) pages).

(** The bookkeeping of the main pass after the jobs of the pages
    [ran], in that order, in a crawl started in world [w0]: what was
    gathered and which pages were marked, what the oracle will see of
    each page, and which submits the trace holds. *)
Definition gathered (env : Env) (w0 : World) (ran : list Z)
           (sub : list Z) (c : Crawl) : Prop :=
  all_results c = flat_map (job_records env w0) ran /\
  failed_pages c = filter (fails env w0) ran /\
  (forall q, ~ In q ran -> JobShape.same_at q (world c) w0) /\
  (forall p, In p ran -> JobShape.same_at p (world c) (job_world env w0 p)) /\
  (exists evs, trace (world c) = trace w0 ++ evs /\ submitted evs = sub).

(** The bookkeeping of the retry pass after the retry jobs of the
    pages [again], the main pass having run the pages [ran]. *)
Definition retried (env : Env) (w0 : World) (ran again : list Z)
           (sub : list Z) (c : Crawl) : Prop :=
  all_results c = flat_map (job_records env w0) ran ++
                  flat_map (retry_records env w0) again /\
  failed_pages c = filter (fails env w0) ran /\
  (forall p, In p ran -> ~ In p again ->
             JobShape.same_at p (world c) (job_world env w0 p)) /\
  (exists evs, trace (world c) = trace w0 ++ evs /\ submitted evs = sub).

(** The order in which the main pass runs the jobs: batch after
    batch, each batch in the order its futures complete. *)
Definition main_pass_order (env : Env) (batch_size start_page end_page : Z)
  : list Z :=
  flat_map (fun batch_start =>
              completion_order env
                (batch_pages batch_size end_page batch_start))
           (Py.range start_page (end_page + 1) batch_size).

(** Each list of a sequence of flushes extends the one before it. *)
Fixpoint grows (fl : list (list ListingData)) : Prop :=
  match fl with
  | a :: (b :: _) as rest => (exists more, b = a ++ more) /\ grows rest
  | _ => True
  end.

(** The flushes [fl] made so far fit the records [acc] gathered so
    far: none is empty, each is an initial part of [acc], and each
    extends the one before it. *)
Definition flushes_fit (acc : list ListingData)
           (fl : list (list ListingData)) : Prop :=
  grows fl /\
  Forall (fun rs => rs <> [] /\ exists more, acc = rs ++ more) fl.

(** The last flush wrote exactly [acc]; nothing was flushed when
    [acc] is empty. *)
Definition flushed_up_to_date (acc : list ListingData)
           (fl : list (list ListingData)) : Prop :=
  match acc with
  | [] => fl = []
  | _ => exists earlier, fl = earlier ++ [acc]
  end.

(** [w'] differs from [w] by events that are neither flushes nor
    faults, and the output files are as they were. *)
Definition calm_since (w w' : World) : Prop :=
  writes w' = writes w /\ json_file w' = json_file w /\
  csv_file w' = csv_file w /\
  exists evs, trace w' = trace w ++ evs /\ flushed evs = [] /\ ~ In Fault evs.

(** The state of a crawl that started in world [base] and has not met
    a fault: its flushes fit what it gathered, and as long as there was
    no flush the output files are those of [base].  With [settled] the
    last flush moreover wrote all that was gathered. *)
Definition crawl_inv (settled : bool) (base : World) (c : Crawl) : Prop :=
  exists evs,
    trace (world c) = trace base ++ evs /\
    ~ In Fault evs /\
    flushes_fit (all_results c) (flushed evs) /\
    (settled = true -> flushed_up_to_date (all_results c) (flushed evs)) /\
    (flushed evs = [] ->
     json_file (world c) = json_file base /\
     csv_file (world c) = csv_file base /\
     writes (world c) = writes base).

Definition tidy : World -> Crawl -> Prop := crawl_inv false.
Definition settled : World -> Crawl -> Prop := crawl_inv true.

(** The state in which [scrape_pages] re-raises: the events [before]
    the fault are those of a settled crawl, and the events [after] it
    hold no flush. *)
Definition aborted (base : World) (c : Crawl) : Prop :=
  exists before after,
    trace (world c) = trace base ++ before ++ Fault :: after /\
    ~ In Fault before /\
    flushed after = [] /\
    flushes_fit (all_results c) (flushed before) /\
    flushed_up_to_date (all_results c) (flushed before) /\
    (flushed before = [] ->
     json_file (world c) = json_file base /\
     csv_file (world c) = csv_file base /\
     writes (world c) = writes base).

End CrawlShape.

(** ** Using the pool several times *)

Module PoolUse.

Import ProxyRotator.

(** [get_proxy] called once per network of [nets], one call after
    the other: the proxies returned and the pool left, up to the first
    call that does not return a proxy. *)
Fixpoint get_proxy_each (nets : list Net) (s : t) : list string * t :=
  match nets with
  | [] => ([], s)
  | net :: rest =>
      match get_proxy net s with
      | Returns (Some proxy) s' =>
          let (given, s'') := get_proxy_each rest s' in
          (proxy :: given, s'')
      | _ => ([], s)
      end
  end.

(** The index points into the list, or the list is empty. *)
Definition index_in_range (s : t) : Prop :=
  proxies s = [] \/ current_index s < List.length (proxies s).

(** The call made with [net] finds the pool [s] recent enough. *)
Definition recent (s : t) (net : Net) : Prop :=
  PrimFloat.ltb (update_interval s)
                (PrimFloat.sub (now net) (last_update s)) = false.

(** The first fifty candidates of a refresh, in the order in which
    the set hands them out. *)
Definition candidates (net : Net) : list string :=
  firstn 50 (set_iteration net (fetched net)).

(** The listing was not obtained: the request raised or was answered
    with a status other than 200. *)
Definition listing_failed (net : Net) : Prop :=
  match provider_response net with
  | None => True
  | Some (status_code, _) => status_code <> 200%Z
  end.

(** A pool of four proxies, refreshed at 1001, its index at 3. *)
Definition four_proxies : t :=
  {| proxies := ["10.0.0.1:80"; "10.0.0.2:80"; "10.0.0.3:80"; "10.0.0.4:80"];
     current_index := 3; lock := false;
     last_update := Py.float_of_int 1001;
     update_interval := Py.float_of_int 300 |}.

(** The listing answers 503. *)
Definition listing_down : Net :=
  {| provider_response := Some (503%Z, "Service Unavailable");
     set_iteration := fun l => l;
     test_proxy := fun _ => true;
     now := Py.float_of_int 2000;
     now_refreshed := Py.float_of_int 2001;
     request_raises := fun _ => false |}.

End PoolUse.

(** ** Outcomes of a visit and of a browser start *)

Module JobUse.

(** The visit ends with an exception that reaches the [except] block
    of [scrape_page]. *)
Definition raises (o : page_outcome) : Prop :=
  o = GetRaises \/ o = WaitRaises.

(** [setup_driver] returns with a session. *)
Definition starts (o : setup_outcome) : Prop :=
  o = ChromeStarted \/ o = FallbackStarted.

(** The first two visits of a page raise, the third lists a tractor
    between two listings that cannot be read. *)
Definition third_time_lucky : Env :=
  {| setup_driver_outcome := fun _ _ => FallbackStarted;
     page_outcome_of := fun _ k =>
       match k with
       | 0 => GetRaises
       | 1 => WaitRaises
       | _ => Listed [StaleElement; Parsed (CrawlScenarios.deere "4020"); NoData]
       end;
     current_url_raises := fun _ _ => false;
     write_outcome_of := fun _ => Written;
     submit_raises := fun _ => false;
     completion_order := fun pages => pages |}.

(** A [PageScraper] just built in a new world: it holds session 0. *)
Definition fresh_job (page : Z) : PageScraper.Job :=
  {| PageScraper.driver := Some 0;
     PageScraper.world := snd (open_session (count_setup page new_world)) |}.

(** The session an attempt of [scrape_page] works in: the one the
    job holds, or the one [setup_driver] is about to create. *)
Definition session_of (d : option nat) (w : World) : nat :=
  match d with
  | Some sid => sid
  | None => next_session w
  end.

(** The world in which the attempt numbered [rc + 1] makes its 1 to 2
    second sleep: the attempt is logged and, for a job without a
    session, [setup_driver] has been counted and has created one. *)
Definition ready (page : Z) (rc : nat) (d : option nat) (w : World)
  : World :=
  match d with
  | Some _ => log (Attempt page (rc + 1)) w
  | None => snd (open_session
                   (count_setup page (log (Attempt page (rc + 1)) w)))
  end.

(** The world after the sleep and [self.driver.get] of that attempt. *)
Definition navigated (page : Z) (rc : nat) (d : option nat) (w : World)
  : World :=
  log (Get (session_of d w) page)
    (count_visit page (log (Sleep 1 2) (ready page rc d w))).

End JobUse.

(** ** Whole runs: sessions and files *)

Module RunUse.

Import Trace MachineryPeteScraper.

(** An event logged by [scrape_pages] itself rather than by a job or
    by [save_results]. *)
Definition of_orchestrator (e : event) : Prop :=
  match e with
  | Sleep _ _ | Submit _ | Fault => True
  | _ => False
  end.

(** No call of [setup_driver] ever creates a session and then fails
    on a stealth command. *)
Definition stealth_never_fails (env : Env) : Prop :=
  forall page k, setup_driver_outcome env page k <> StealthFailed.

(** What the events between the worlds [w] and [w'] did with browser
    sessions: the sessions created got the next free ids, in order;
    [quit] was called on sessions created in between only, and at most
    once on each; and if no stealth command ever fails, it was called
    on every one of them, in the order of their creation. *)
Definition sessions_since (env : Env) (w w' : World) : Prop :=
  exists evs,
    trace w' = trace w ++ evs /\
    opened evs = seq (next_session w) (List.length (opened evs)) /\
    next_session w' = next_session w + List.length (opened evs) /\
    NoDup (quitted evs) /\
    incl (quitted evs) (opened evs) /\
    (stealth_never_fails env -> quitted evs = opened evs).

(** Every step of the statement [m] leaves a world related by [R] to
    the world it found. *)
Definition keeps {A : Type} (R : World -> World -> Prop) (m : M Crawl A)
  : Prop :=
  forall c, R (world c) (world (snd (m c))).

(** The stealth command fails in the constructor of the job of page 2. *)
Definition stealth_fails_once : Env :=
  {| setup_driver_outcome := fun page _ =>
       if (page =? 2)%Z then StealthFailed else ChromeStarted;
     page_outcome_of := fun _ _ => CrawlScenarios.three_listings;
     current_url_raises := fun _ _ => false;
     write_outcome_of := fun _ => Written;
     submit_raises := fun _ => false;
     completion_order := fun pages => pages |}.

(** The crawl object after [scrape_pages(1, 4)] in a world where
    every page lists three tractors. *)
Definition calm_run_end : Crawl :=
  snd (scrape_pages CrawlScenarios.calm 1 4 (__init__ new_world)).

End RunUse.

(** ** Text helpers

    A character of the model is a code point below 256.  In that range
    the digits of [\d] are 0 to 9 and the whitespace of [str.split] is
    that of ASCII together with NEL and the no-break space. *)

Module PyText.

Definition code (c : ascii) : nat := nat_of_ascii c.

(** [\d] *)
Definition is_digit (c : ascii) : bool :=
  (48 <=? code c) && (code c <=? 57).

(** [c.isspace()] *)
Definition is_whitespace (c : ascii) : bool :=
  Py.is_space c || (code c =? 133) || (code c =? 160).

Definition DOT : ascii := ascii_of_nat 46.
Definition COMMA : ascii := ascii_of_nat 44.

Definition is_dot (c : ascii) : bool := Ascii.eqb c DOT.

Definition is_comma (c : ascii) : bool := Ascii.eqb c COMMA.

(** [[\d.]] and [[\d.,]] *)
Definition digit_or_dot (c : ascii) : bool := is_digit c || is_dot c.

Definition digit_dot_or_comma (c : ascii) : bool :=
  digit_or_dot c || is_comma c.

Fixpoint all_chars (p : ascii -> bool) (s : string) : bool :=
  match s with
  | EmptyString => true
  | String c rest => p c && all_chars p rest
  end.

Fixpoint any_char (p : ascii -> bool) (s : string) : bool :=
  match s with
  | EmptyString => false
  | String c rest => p c || any_char p rest
  end.

Fixpoint count_char (p : ascii -> bool) (s : string) : nat :=
  match s with
  | EmptyString => 0
  | String c rest => (if p c then 1 else 0) + count_char p rest
  end.

(** [re.sub(r'[^...]', '', s)] for the character class [p]: the
    characters of the class are kept, in order. *)
Fixpoint keep_chars (p : ascii -> bool) (s : string) : string :=
  match s with
  | EmptyString => EmptyString
  | String c rest =>
      if p c then String c (keep_chars p rest) else keep_chars p rest
  end.

(** [s.replace(c, '')] for a one-character [c] *)
Definition remove_char (c : ascii) (s : string) : string :=
  keep_chars (fun x => negb (Ascii.eqb x c)) s.

(** *** [s.split(maxsplit=1)] *)

Fixpoint skip_whitespace (s : string) : string :=
  match s with
  | EmptyString => EmptyString
  | String c rest => if is_whitespace c then skip_whitespace rest else s
  end.

(** The longest start of [s] without whitespace, and what follows it. *)
Fixpoint first_word (s : string) : string * string :=
  match s with
  | EmptyString => (EmptyString, EmptyString)
  | String c rest =>
      if is_whitespace c then (EmptyString, s)
      else let (w, after) := first_word rest in (String c w, after)
  end.

(** Leading whitespace is skipped; the first word is split off; what
    follows the whitespace after it, if anything does, is the second
    and last piece, trailing whitespace included. *)
Definition split_maxsplit_1 (s : string) : list string :=
  match skip_whitespace s with
  | EmptyString => []
  | t =>
      let (w, after) := first_word t in
      match skip_whitespace after with
      | EmptyString => [w]
      | r => [w; r]
      end
  end.

(** The characters of the class [p] taken off the left end, and off
    the right end: a character is kept when it is not of the class or
    when something is kept to its right. *)
Fixpoint lstrip_of (p : ascii -> bool) (s : string) : string :=
  match s with
  | EmptyString => EmptyString
  | String c rest => if p c then lstrip_of p rest else s
  end.

Fixpoint rstrip_of (p : ascii -> bool) (s : string) : string :=
  match s with
  | EmptyString => EmptyString
  | String c rest =>
      match rstrip_of p rest with
      | EmptyString => if p c then EmptyString else String c EmptyString
      | kept => String c kept
      end
  end.

(** [s.strip()] *)
Definition strip (s : string) : string :=
  rstrip_of is_whitespace (lstrip_of is_whitespace s).

(** [s.replace(ab, '')] for a text [ab] of two characters: the
    occurrences are taken from the left and do not overlap. *)
Fixpoint remove_pair (a b : ascii) (s : string) : string :=
  match s with
  | String c (String d rest as tail) =>
      if Ascii.eqb c a && Ascii.eqb d b then remove_pair a b rest
      else String c (remove_pair a b tail)
  | _ => s
  end.

(** [s.split(c)[0]] for a one-character [c]: what precedes the first
    [c], all of [s] when there is none. *)
Fixpoint before_char (c : ascii) (s : string) : string :=
  match s with
  | EmptyString => EmptyString
  | String x rest =>
      if Ascii.eqb x c then EmptyString else String x (before_char c rest)
  end.

(** [c.lower()] for a code point below 256 *)
Definition lower_char (c : ascii) : ascii :=
  let n := code c in
  if ((65 <=? n) && (n <=? 90)) ||
     ((192 <=? n) && (n <=? 222) && negb (n =? 215))
  then ascii_of_nat (n + 32)
  else c.

(** [s.lower()] *)
Fixpoint lower (s : string) : string :=
  match s with
  | EmptyString => EmptyString
  | String c rest => String (lower_char c) (lower rest)
  end.

(** *** [float(s)] on a text of digits and dots

    [parse_listing_data] passes [float] nothing else.  Such a text is
    accepted when it holds at least one digit and at most one dot, and
    its value is the binary64 number nearest to the decimal number
    written, ties to even; a text that is not accepted stands for
    [ValueError]. *)

(** The number written by the digits of [s], the dot left out. *)
Fixpoint digits_value (acc : N) (s : string) : N :=
  match s with
  | EmptyString => acc
  | String c rest =>
      if is_digit c
      then digits_value (10 * acc + N.of_nat (code c - 48)) rest
      else digits_value acc rest
  end.

(** The number of digits after the first dot of [s]. *)
Fixpoint fraction_digits (s : string) : nat :=
  match s with
  | EmptyString => 0
  | String c rest =>
      if is_dot c then count_char is_digit rest
      else fraction_digits rest
  end.

(** [m / 10^k] rounded to binary64. *)
Definition round_decimal (m : N) (k : nat) : PrimFloat.float :=
  match m with
  | N0 => PrimFloat.zero
  | Npos p =>
      FloatOps.SF2Prim
        (SpecFloat.SFdiv FloatOps.prec FloatOps.emax
           (SpecFloat.S754_finite false p 0)
           (SpecFloat.S754_finite false (Z.to_pos (10 ^ Z.of_nat k)) 0))
  end.

Definition is_decimal (s : string) : bool :=
  all_chars digit_or_dot s && any_char is_digit s &&
  (count_char is_dot s <=? 1).

Definition float (s : string) : option PrimFloat.float :=
  if is_decimal s
  then Some (round_decimal (digits_value 0 s) (fraction_digits s))
  else None.

(** *** [float(s)] on a text without a digit

    Such a text is accepted when, whitespace at both ends and case
    set aside, it spells [inf], [infinity] or [nan] after an optional
    sign.  The whitespace that [float] takes off is that of
    [str.split] without the four separators FS, GS, RS and US. *)
Definition is_float_space (c : ascii) : bool :=
  ((9 <=? code c) && (code c <=? 13)) || (code c =? 32) ||
  (code c =? 133) || (code c =? 160).

Definition float_without_digits (s : string) : option PrimFloat.float :=
  let t := lower (rstrip_of is_float_space (lstrip_of is_float_space s)) in
  let negative :=
    match t with
    | String c _ => Ascii.eqb c (ascii_of_nat 45)
    | EmptyString => false
    end in
  let word :=
    match t with
    | String c rest =>
        if Ascii.eqb c (ascii_of_nat 45) || Ascii.eqb c (ascii_of_nat 43)
        then rest else t
    | EmptyString => t
    end in
  if String.eqb word "inf" || String.eqb word "infinity"
  then Some (if negative then PrimFloat.neg_infinity else PrimFloat.infinity)
  else if String.eqb word "nan" then Some PrimFloat.nan
  else None.

(** *** [re.search(r'(\d{1,3}(?:,\d{3})*(?:\.\d+)?)', s)]

    Every part of the pattern after the first digit may match the
    empty text, so the greedy choices are never undone: the match
    starts at the first digit of [s]. *)

(** [\d{1,n}] at the start of [s]: the digits taken, and the rest. *)
Fixpoint up_to_digits (n : nat) (s : string) : string * string :=
  match n, s with
  | S n, String c rest =>
      if is_digit c
      then let (ds, after) := up_to_digits n rest in (String c ds, after)
      else (EmptyString, s)
  | _, _ => (EmptyString, s)
  end.

(** [\d*] at the start of [s] *)
Fixpoint all_digits (s : string) : string * string :=
  match s with
  | String c rest =>
      if is_digit c
      then let (ds, after) := all_digits rest in (String c ds, after)
      else (EmptyString, s)
  | EmptyString => (EmptyString, s)
  end.

(** [(?:,\d{3})*] at the start of [s] *)
Fixpoint comma_groups (s : string) : string * string :=
  match s with
  | String c0 (String c1 (String c2 (String c3 rest))) =>
      if is_comma c0 && is_digit c1 && is_digit c2 && is_digit c3
      then let (gs, after) := comma_groups rest in
           (String c0 (String c1 (String c2 (String c3 gs))), after)
      else (EmptyString, s)
  | _ => (EmptyString, s)
  end.

(** [(?:\.\d+)?] at the start of [s] *)
Definition fraction (s : string) : string * string :=
  match s with
  | String c0 (String c1 rest) =>
      if is_dot c0 && is_digit c1
      then let (ds, after) := all_digits rest in
           (String c0 (String c1 ds), after)
      else (EmptyString, s)
  | _ => (EmptyString, s)
  end.

(** The pattern at the start of [s]: group 1 of the match. *)
Definition number_at (s : string) : option string :=
  match up_to_digits 3 s with
  | (EmptyString, _) => None
  | (ds, after) =>
      let (gs, after) := comma_groups after in
      let (fr, _) := fraction after in
      Some (ds ++ gs ++ fr)%string
  end.

(** Group 1 of the leftmost match, or [None] when there is no match. *)
Fixpoint search_number (s : string) : option string :=
  match number_at s with
  | Some group1 => Some group1
  | None =>
      match s with
      | EmptyString => None
      | String _ rest => search_number rest
      end
  end.

(** *** [re.search(r'(\d+(?:\.\d+)?)', s)] *)

(** The pattern at the start of [s]: group 1 of the match. *)
Definition decimal_at (s : string) : option string :=
  match all_digits s with
  | (EmptyString, _) => None
  | (ds, after) =>
      let (fr, _) := fraction after in
      Some (ds ++ fr)%string
  end.

(** Group 1 of the leftmost match, or [None] when there is no match. *)
Fixpoint search_decimal (s : string) : option string :=
  match decimal_at s with
  | Some group1 => Some group1
  | None =>
      match s with
      | EmptyString => None
      | String _ rest => search_decimal rest
      end
  end.

End PyText.

(** ** [PageScraper.parse_listing_data] *)

Module ListingParser.

Import PyText.
Local Open Scope py_scope.

(** The dict that [extract_listing_data] builds: text keys, each value
    a [str] or [None]. *)
Definition raw : Type := list (string * option string).

(** [raw_data.get(key)]: [None] for a missing key as for a stored
    [None]. *)
Fixpoint get (raw_data : raw) (key : string) : option string :=
  match raw_data with
  | [] => None
  | (k, v) :: rest => if String.eqb k key then v else get rest key
  end.

(** [ListingData()] *)
Definition new_listing : ListingData :=
  {| brand := None; model := None; price := None; sold_date := None;
     hours := None; specs := None; location := None; condition := None |}.

Definition set_brand (v : option string) (l : ListingData) : ListingData :=
  {| brand := v; model := model l; price := price l;
     sold_date := sold_date l; hours := hours l; specs := specs l;
     location := location l; condition := condition l |}.

Definition set_model (v : option string) (l : ListingData) : ListingData :=
  {| brand := brand l; model := v; price := price l;
     sold_date := sold_date l; hours := hours l; specs := specs l;
     location := location l; condition := condition l |}.

Definition set_price (v : option PrimFloat.float) (l : ListingData)
  : ListingData :=
  {| brand := brand l; model := model l; price := v;
     sold_date := sold_date l; hours := hours l; specs := specs l;
     location := location l; condition := condition l |}.

Definition set_hours (v : option PrimFloat.float) (l : ListingData)
  : ListingData :=
  {| brand := brand l; model := model l; price := price l;
     sold_date := sold_date l; hours := v; specs := specs l;
     location := location l; condition := condition l |}.

(** [float(s)]: the value, or [ValueError]. *)
Definition to_float (s : string) : M ListingData PrimFloat.float :=
  match float s with
  | Some x => ret x
  | None => raise
  end.

(** [if raw_data.get('title_text'): ...].  [parts[0]] raises
    [IndexError] when the title holds whitespace only. *)
Definition process_title (raw_data : raw) : M ListingData unit :=
  match get raw_data "title_text" with
  | Some (String _ _ as title_text) =>
      match split_maxsplit_1 title_text with
      | [] => raise
      | part0 :: more =>
          modify (set_brand (Some part0)) ;;
          match more with
          | part1 :: _ => modify (set_model (Some part1))
          | [] => ret tt
          end
      end
  | _ => ret tt
  end.

(** [if raw_data.get('price_text'): ...] *)
Definition process_price (raw_data : raw) : M ListingData unit :=
  match get raw_data "price_text" with
  | Some (String _ _ as price_text) =>
      let numeric := keep_chars digit_or_dot price_text in
      try_except
        (match numeric with
         | EmptyString => modify (set_price None)
         | _ => x <- to_float numeric ;; modify (set_price (Some x))
         end)
        (ret tt)
  | _ => ret tt
  end.

(** [if raw_data.get('hours_text'): ...] *)
Definition process_hours (raw_data : raw) : M ListingData unit :=
  match get raw_data "hours_text" with
  | Some (String _ _ as hours_text) =>
      try_except
        (let hours_clean := keep_chars digit_dot_or_comma hours_text in
         let hours_clean := remove_char COMMA hours_clean in
         match hours_clean with
         | EmptyString => modify (set_hours None)
         | _ => x <- to_float hours_clean ;; modify (set_hours (Some x))
         end)
        (match search_number hours_text with
         | Some group1 =>
             try_except
               (let hours_str := remove_char COMMA group1 in
                x <- to_float hours_str ;; modify (set_hours (Some x)))
               (ret tt)
         | None => ret tt
         end)
  | _ => ret tt
  end.

(** The four assignments under [# Copy direct fields]. *)
Definition copy_direct_fields (raw_data : raw) : M ListingData unit :=
  modify (fun l =>
    {| brand := brand l; model := model l; price := price l;
       sold_date := get raw_data "sold_date"; hours := hours l;
       specs := get raw_data "specs";
       location := get raw_data "location";
       condition := get raw_data "condition" |}).

(** [parse_listing_data(raw_data)]: [None] for a missing or empty
    [raw_data] and when a statement of the [try] block raises. *)
Definition parse_listing_data (raw_data : option raw) : option ListingData :=
  match raw_data with
  | None | Some [] => None
  | Some d =>
      match (process_title d ;;
             process_price d ;;
             process_hours d ;;
             copy_direct_fields d) new_listing with
      | (Val _, listing) => Some listing
      | (Exc, _) => None
      end
  end.

(** A listing as the site shows it. *)
Definition deere_4020 : raw :=
  [("title_text", Some "John Deere 4020");
   ("price_text", Some "$12,500.00");
   ("sold_date", Some "03/14/2024");
   ("hours_text", Some "showing 6,532 hrs");
   ("condition", None);
   ("specs", Some "Diesel, showing 6,532 hrs");
   ("location", Some "Ames, IA")].

(** The record [parse_listing_data] makes of it: [None] fields where
    the function returns [None]. *)
Definition parsed_deere_4020 : ListingData :=
  match parse_listing_data (Some deere_4020) with
  | Some listing => listing
  | None => new_listing
  end.

End ListingParser.

(** ** The brand crawler of [tractorlib.py] *)

Module TractorLib.

Import PyText.
Local Open Scope py_scope.

Definition BASE_URL : string := "https://www.tractordata.com".

Definition BRANDS : list string :=
  ["AGCO"; "Allis Chalmers"; "Belarus"; "Big Bud"; "Case"; "Case IH";
   "Caterpillar"; "Challenger"; "Claas"; "Deutz"; "Deutz-Fahr"; "Fendt";
   "Ford"; "International Harvester"; "John Deere"; "Kioti"; "Kubota";
   "Landini"; "Mahindra"; "Massey Ferguson"; "McCormick";
   "Minneapolis-Moline"; "New Holland"; "Oliver"; "Same"; "Steiger";
   "Valtra"; "Versatile"; "White"; "Yanmar"; "Zetor"].

Definition SPACE : ascii := ascii_of_nat 32.
Definition DASH : ascii := ascii_of_nat 45.

(** The dict [brand_map] of [get_brand_url] *)
Definition brand_map : list (string * string) :=
  [("Case IH", "caseih");
   ("International Harvester", "ih");
   ("Massey Ferguson", "massey-ferguson");
   ("Minneapolis-Moline", "minneapolis-moline");
   ("New Holland", "newholland");
   ("Deutz-Fahr", "deutz-fahr");
   ("McCormick", "mccormick");
   ("Big Bud", "bigbud")].

Fixpoint lookup (m : list (string * string)) (key : string) : option string :=
  match m with
  | [] => None
  | (k, v) :: rest => if String.eqb k key then Some v else lookup rest key
  end.

(** The local [brand_formatted] of [get_brand_url] *)
Definition brand_formatted (brand : string) : string :=
  match lookup brand_map brand with
  | Some special => special
  | None =>
      remove_char DOT (remove_char DASH (remove_char SPACE (lower brand)))
  end.

(** [get_brand_url(brand)] *)
Definition get_brand_url (brand : string) : string :=
  (BASE_URL ++ "/farm-tractors/tractor-brands/" ++ brand_formatted brand ++
   "/" ++ brand_formatted brand ++ "-tractors.html")%string.

(** An ASCII capital letter. *)
Definition is_upper (c : ascii) : bool :=
  (65 <=? code c) && (code c <=? 90).

(** Neither a space, a dash, a dot nor an ASCII capital letter. *)
Definition is_plain (c : ascii) : bool :=
  negb (Ascii.eqb c SPACE) && negb (Ascii.eqb c DASH) &&
  negb (is_dot c) && negb (is_upper c).

(** An ASCII small letter or a dash. *)
Definition is_slug_char (c : ascii) : bool :=
  ((97 <=? code c) && (code c <=? 122)) || Ascii.eqb c DASH.

(** No text occurs twice in [l]. *)
Fixpoint all_distinct (l : list string) : bool :=
  match l with
  | [] => true
  | x :: rest => negb (existsb (String.eqb x) rest) && all_distinct rest
  end.

(** [lst[start:stop]] for [0 <= start <= stop] *)
Definition slice {A : Type} (lst : list A) (start stop : Z) : list A :=
  firstn (Z.to_nat (stop - start)) (skipn (Z.to_nat start) lst).

(** [TractorScraper.chunk_list(lst, chunk_size)]: [None] stands for
    the [ValueError] of [range] with step 0; with a negative step the
    range from 0 is empty. *)
Definition chunk_list {A : Type} (lst : list A) (chunk_size : Z)
  : option (list (list A)) :=
  if (chunk_size =? 0)%Z then None
  else if (chunk_size <? 0)%Z then Some []
  else Some (map (fun i => slice lst i (i + chunk_size))
                 (Py.range 0 (Z.of_nat (List.length lst)) chunk_size)).

(** One item of [model_data]. *)
Record Tractor : Type := mkTractor {
  tractor_brand : string;
  tractor_model : string;
  horsepower : string;
  years : string;
  url : string
}.

Definition PAREN : ascii := ascii_of_nat 40.

(** The three statements under [# Clean and standardize horsepower
    data]: the local [hp] made from the text [power]. *)
Definition clean_hp (power : string) : string :=
  let hp := strip (remove_pair "h" "p" (lower power)) in
  if any_char (fun c => Ascii.eqb c PAREN) hp
  then strip (before_char PAREN hp)
  else hp.

(** What the row loop reads of a page.  [anchor] is the result of
    [find("a")] on a cell, with the text that [get_text(strip=True)]
    gives for it and its [href] attribute, if it has one; [cell_text]
    is [get_text(strip=True)] of the cell. *)
Record Anchor : Type := mkAnchor {
  anchor_text : string;
  href : option string
}.

Record Cell : Type := mkCell {
  anchor : option Anchor;
  cell_text : string
}.

(** The tables of class [tdMenu1] of a page, each a list of rows,
    each row the list of its [td] cells. *)
Definition Page : Type := list (list (list Cell)).

(** The body of [for row in rows]: the item appended, or [None] when
    the row is passed over.  [model_link["href"]] raises [KeyError]
    for a link without that attribute, which the [except] of the loop
    body turns into a [continue]. *)
Definition row_item (brand_name : string) (cells : list Cell)
  : option Tractor :=
  match cells with
  | cell0 :: cell1 :: cell2 :: _ =>
      match anchor cell0 with
      | None => None
      | Some model_link =>
          match href model_link with
          | None => None
          | Some target =>
              Some {| tractor_brand := brand_name;
                      tractor_model := anchor_text model_link;
                      horsepower := clean_hp (cell_text cell1);
                      years := cell_text cell2;
                      url := (BASE_URL ++ target)%string |}
          end
      end
  | _ => None
  end.

(** The module level [scrape_brand_models(brand_name, brand_url)].
    [get_soup] is [None] when the request fails. *)
Definition scrape_brand_models_of_page (get_soup : string -> option Page)
           (brand_name brand_url : string) : list Tractor :=
  match get_soup brand_url with
  | None => []
  | Some tables =>
      flat_map (fun rows =>
                  flat_map (fun row =>
                              match row_item brand_name row with
                              | Some item => [item]
                              | None => []
                              end) rows)
               tables
  end.

(** An output file of [save_results]: absent, holding a complete dump
    of the items, or cut short by a failed write. *)
Inductive tractor_file : Type :=
| NoFile
| Dump (items : list Tractor)
| CutShort.

(** The oracle: what the module level [scrape_brand_models(brand_name,
    brand_url)] returns, and how the writes of [save_results] end. *)
Record Site : Type := mkSite {
  page_models : string -> string -> list Tractor;
  save_outcome : write_outcome
}.

(** A [TractorScraper] with the files it writes.  [log_lines] holds
    the number reported by each "Completed scraping" line. *)
Record Scraper : Type := mkScraper {
  results : list Tractor;
  json_file : tractor_file;
  csv_file : tractor_file;
  log_lines : list nat
}.

(** [TractorScraper()] where no output file exists. *)
Definition new_scraper : Scraper :=
  {| results := []; json_file := NoFile; csv_file := NoFile;
     log_lines := [] |}.

Section WithSite.

Variable site : Site.

(** [TractorScraper.scrape_brand_models(brand)] *)
Definition scrape_brand_models (brand : string) : list Tractor :=
  page_models site brand (get_brand_url brand).

(** [scrape_brand_chunk(brand_chunk, log_file)]: the worker builds a
    [TractorScraper] of its own and returns a list of its own. *)
Definition scrape_brand_chunk (brand_chunk : list string) : list Tractor :=
  fold_left (fun results brand =>
               match scrape_brand_models brand with
               | [] => results
               | brand_results => results ++ brand_results
               end)
            brand_chunk [].

(** [self.results.extend(chunk)] *)
Definition extend (chunk : list Tractor) : M Scraper unit :=
  modify (fun s => {| results := results s ++ chunk;
                      json_file := json_file s; csv_file := csv_file s;
                      log_lines := log_lines s |}).

Definition set_json (f : tractor_file) : M Scraper unit :=
  modify (fun s => {| results := results s; json_file := f;
                      csv_file := csv_file s; log_lines := log_lines s |}).

Definition set_csv (f : tractor_file) : M Scraper unit :=
  modify (fun s => {| results := results s; json_file := json_file s;
                      csv_file := f; log_lines := log_lines s |}).

(** [save_results]: nothing is caught, and the CSV file is only
    opened when there are results. *)
Definition save_results : M Scraper unit :=
  rs <- gets results ;;
  match save_outcome site with
  | JsonOpenFails => raise
  | JsonDumpFails => set_json CutShort ;; raise
  | outcome =>
      set_json (Dump rs) ;;
      match rs with
      | [] => ret tt
      | _ =>
          match outcome with
          | CsvOpenFails => raise
          | CsvWriteFails => set_csv CutShort ;; raise
          | _ => set_csv (Dump rs)
          end
      end
  end.

(** [self.log(f"Completed scraping {len(self.results)} total tractors")] *)
Definition log_completed : M Scraper unit :=
  modify (fun s => {| results := results s; json_file := json_file s;
                      csv_file := csv_file s;
                      log_lines := log_lines s ++
                                   [List.length (results s)] |}).

(** [scrape_all_brands(num_processes)].  The division raises
    [ZeroDivisionError] for 0 processes and [mp.Pool] raises
    [ValueError] for fewer than 1; [pool.map] returns the results of
    the chunks in the order of the chunks. *)
Definition scrape_all_brands (num_processes : Z) : M Scraper unit :=
  if (num_processes =? 0)%Z then raise
  else
    let chunk_size :=
      Z.max 1 (Z.of_nat (List.length BRANDS) / num_processes) in
    match chunk_list BRANDS chunk_size with
    | None => raise
    | Some brand_chunks =>
        if (num_processes <? 1)%Z then raise
        else
          let chunk_results := map scrape_brand_chunk brand_chunks in
          for_each chunk_results extend ;;
          save_results ;;
          log_completed
    end.

(** The items of all brands, brand after brand in the order of
    [BRANDS]. *)
Definition all_models : list Tractor :=
  flat_map scrape_brand_models BRANDS.

End WithSite.

(** A site with two models for every brand and a disk that takes
    every write. *)
Definition two_models_each : Site :=
  {| page_models := fun brand brand_url =>
       [ {| tractor_brand := brand; tractor_model := "A";
            horsepower := "40"; years := "1960 - 1965";
            url := (brand_url ++ "#a")%string |};
         {| tractor_brand := brand; tractor_model := "B";
            horsepower := "55"; years := "1965 - 1972";
            url := (brand_url ++ "#b")%string |} ];
     save_outcome := Written |}.

(** A page with one table: a heading row, two models, a row whose
    link has no target and a row without a link. *)
Definition deere_page : Page :=
  [[ [ {| anchor := None; cell_text := "Model" |};
       {| anchor := None; cell_text := "Power" |};
       {| anchor := None; cell_text := "Years" |} ];
     [ {| anchor := Some {| anchor_text := "4020";
                            href := Some "/farm-tractors/000/0/1/9-john-deere-4020.html" |};
          cell_text := "4020" |};
       {| anchor := None; cell_text := "95 hp (70.8 kW)" |};
       {| anchor := None; cell_text := "1964 - 1972" |} ];
     [ {| anchor := Some {| anchor_text := "4440";
                            href := Some "/farm-tractors/000/0/2/5-john-deere-4440.html" |};
          cell_text := "4440" |};
       {| anchor := None; cell_text := "130 HP" |};
       {| anchor := None; cell_text := "1978 - 1982" |} ];
     [ {| anchor := Some {| anchor_text := "8R"; href := None |};
          cell_text := "8R" |};
       {| anchor := None; cell_text := "230 hp" |};
       {| anchor := None; cell_text := "2020 -" |} ];
     [ {| anchor := None; cell_text := "Totals" |} ] ]].

End TractorLib.

(** ** [clean_horsepower] of [merge_data.py] *)

Module MergeData.

Import PyText.

(** [clean_horsepower(hp)] for [hp] a [str] or a missing value, the
    values the [horsepower] column holds.  [None] as argument is the
    missing value, for which [pd.isna] holds; [None] as result is
    Python's [None], returned also when [float] raises. *)
Definition clean_horsepower (hp : option string)
  : option PrimFloat.float :=
  match hp with
  | None => None
  | Some text =>
      match search_decimal text with
      | Some group1 => float group1
      | None => float_without_digits text
      end
  end.

End MergeData.

(** * Theorems *)

(** ** The identity pool *)

Module PoolFacts.

Import ProxyRotator PoolScenarios.

(** [update_proxies] called on its own, with the lock free, returns. *)
Lemma update_proxies_returns (net : Net) (s : t) :
  lock s = false ->
  exists s', update_proxies net s = Returns tt s' /\ lock s' = false /\
             current_index s' = 0 /\ last_update s' = now_refreshed net.
Proof.
  intros Hfree. unfold update_proxies, with_lock. rewrite Hfree. simpl.
  eexists. repeat split.
Qed.

(** [update_proxies] called while the lock is held does not. *)
Lemma update_proxies_blocks_when_held (net : Net) (s : t) :
  lock s = true -> update_proxies net s = Blocks s.
Proof.
  intros Hheld. unfold update_proxies, with_lock. now rewrite Hheld.
Qed.

(** A refresh asked for by [get_proxy] never completes: [get_proxy]
    holds the lock that [update_proxies] waits for. *)
Lemma get_proxy_refresh_blocks (net : Net) (s : t) :
  lock s = false -> needs_refresh net s = true ->
  get_proxy net s = Blocks (set_lock true s).
Proof.
  intros Hfree Hrefresh. unfold get_proxy, with_lock at 1. rewrite Hfree.
  assert (Hsame : needs_refresh net (set_lock true s) = true) by exact Hrefresh.
  rewrite Hsame. now rewrite update_proxies_blocks_when_held.
Qed.

(** Without a refresh the call returns the entry at the index and
    advances the index by one, modulo the length. *)
Lemma get_proxy_fresh (net : Net) (s : t) (proxy : string) :
  lock s = false -> needs_refresh net s = false ->
  nth_error (proxies s) (current_index s) = Some proxy ->
  get_proxy net s =
    Returns (Some proxy)
      {| proxies := proxies s;
         current_index := (current_index s + 1) mod List.length (proxies s);
         lock := false; last_update := last_update s;
         update_interval := update_interval s |}.
Proof.
  intros Hfree Hfresh Hnth. unfold get_proxy, with_lock. rewrite Hfree.
  assert (Hsame : needs_refresh net (set_lock true s) = false) by exact Hfresh.
  rewrite Hsame. simpl.
  destruct (proxies s) as [|p ps] eqn:Hps.
  - destruct (current_index s); discriminate.
  - rewrite Hnth. reflexivity.
Qed.

(** [get_proxy] never returns [None]: an empty pool always asks for a
    refresh, and the refresh blocks. *)
Lemma get_proxy_never_none (net : Net) (s s' : t) :
  lock s = false -> get_proxy net s <> Returns None s'.
Proof.
  intros Hfree. destruct (needs_refresh net s) eqn:Hrefresh.
  - rewrite get_proxy_refresh_blocks by assumption. discriminate.
  - unfold get_proxy, with_lock. rewrite Hfree.
    assert (Hsame : needs_refresh net (set_lock true s) = false) by exact Hrefresh.
    rewrite Hsame. simpl.
    unfold needs_refresh in Hrefresh.
    destruct (proxies s) as [|p ps]; [discriminate|].
    destruct (nth_error (p :: ps) (current_index s)); discriminate.
Qed.

(** C7, at the failing input.  The first [get_proxy] of a new
    [ProxyRotator] finds the pool empty, calls [update_proxies] while
    holding [self.lock], and [update_proxies] waits for that same lock:
    whatever the network answers, the call does not return. *)
Theorem get_proxy_on_new_pool_blocks (net : Net) :
  get_proxy net __init__ = Blocks (set_lock true __init__).
Proof.
  apply get_proxy_refresh_blocks; reflexivity.
Qed.

(** C8, at the failing input.  With the listing source unreachable the
    refresh would leave the pool empty, but [get_proxy] does not get as
    far as returning [None]: it blocks inside the refresh, and so does
    [RetrySession.get] when it has a rotator. *)
Theorem get_proxy_unreachable_source_blocks :
  get_proxy unreachable __init__ = Blocks (set_lock true __init__) /\
  RetrySession.get unreachable (Some __init__)
    = RetrySession.Blocked (Some (set_lock true __init__)) /\
  (exists s, update_proxies unreachable __init__ = Returns tt s /\
             proxies s = []).
Proof.
  split; [|split].
  - reflexivity.
  - reflexivity.
  - eexists. split; reflexivity.
Qed.

(** The pool [repeated_entry] is what a refresh stores when the
    listing mixes line ends: the set holds a line with its CR and the
    same line without, and the two are stripped to one identity only
    after the set has told them apart. *)
Lemma update_proxies_stores_repeated_entry :
  update_proxies mixed_line_ends __init__ = Returns tt repeated_entry.
Proof. reflexivity. Qed.

(** C9, at the failing input.  The listing names the identity
    10.0.0.1:80 twice, once on a line ended by CR LF and once on a
    line ended by LF.  [update_proxies] puts the lines into a set and
    strips them only afterwards, so the list it validates and stores
    holds that identity twice, next to a second identity; ten seconds
    later two consecutive calls of [get_proxy] both return
    10.0.0.1:80. *)
Theorem mixed_line_ends_repeat_identity :
  update_proxies mixed_line_ends __init__ = Returns tt repeated_entry /\
  two_identities repeated_entry /\
  needs_refresh soon_after repeated_entry = false /\
  exists s1 s2,
    get_proxy soon_after repeated_entry = Returns (Some "10.0.0.1:80") s1 /\
    get_proxy soon_after s1 = Returns (Some "10.0.0.1:80") s2.
Proof.
  split; [reflexivity|]. split; [|split; [reflexivity|]].
  - unfold two_identities. vm_compute. lia.
  - do 2 eexists. split; reflexivity.
Qed.

Lemma nth_error_NoDup_neq (l : list string) (i j : nat) (a b : string) :
  NoDup l -> nth_error l i = Some a -> nth_error l j = Some b ->
  i <> j -> a <> b.
Proof.
  intros Hnd Hi Hj Hij Hab. subst b.
  apply Hij. apply (proj1 (NoDup_nth_error l) Hnd).
  - apply nth_error_Some. congruence.
  - congruence.
Qed.

(** The rotation itself is round-robin: when the entries of the pool
    are pairwise different, there are at least two of them, the index
    is within the list and neither call falls due for a refresh, two
    consecutive calls return the entry at the index and the entry
    after it, and the two differ. *)
Lemma consecutive_proxies_differ (net1 net2 : Net) (s : t) :
  lock s = false ->
  NoDup (proxies s) ->
  2 <= List.length (proxies s) ->
  current_index s < List.length (proxies s) ->
  needs_refresh net1 s = false ->
  needs_refresh net2 s = false ->
  exists p1 p2 s1 s2,
    get_proxy net1 s = Returns (Some p1) s1 /\
    get_proxy net2 s1 = Returns (Some p2) s2 /\
    nth_error (proxies s) (current_index s) = Some p1 /\
    nth_error (proxies s)
      ((current_index s + 1) mod List.length (proxies s)) = Some p2 /\
    p1 <> p2.
Proof.
  intros Hfree Hnd Hlen Hidx Hq1 Hq2.
  set (n := List.length (proxies s)) in *.
  assert (Hnext : (current_index s + 1) mod n < n)
    by (apply Nat.mod_upper_bound; lia).
  destruct (nth_error (proxies s) (current_index s)) as [p1|] eqn:H1;
    [|apply nth_error_None in H1; fold n in H1; lia].
  destruct (nth_error (proxies s) ((current_index s + 1) mod n)) as [p2|] eqn:H2;
    [|apply nth_error_None in H2; fold n in H2; lia].
  exists p1, p2. do 2 eexists.
  split; [apply get_proxy_fresh; auto|].
  split; [apply get_proxy_fresh; simpl; auto|].
  repeat split.
  eapply nth_error_NoDup_neq; eauto.
  intro Heq. fold n in Heq.
  destruct (Nat.eq_dec (current_index s + 1) n) as [E|E].
  - rewrite E, Nat.Div0.mod_same in Heq. lia.
  - rewrite Nat.mod_small in Heq by lia. lia.
Qed.

End PoolFacts.

(** ** The Python helpers on small inputs *)

Module PyFacts.

Example strip_line : Py.strip (String.append " 10.0.0.1:80" (String Py.CR "")) = "10.0.0.1:80".
Proof. reflexivity. Qed.

Example split_lines :
  Py.split Py.LF (String.append "a" (String Py.LF (String.append "" (String Py.LF "b"))))
  = ["a"; ""; "b"].
Proof. reflexivity. Qed.

Example range_of_batches : Py.range 1 (4 + 1) 2 = [1; 3]%Z.
Proof. reflexivity. Qed.

Example range_of_odd_batches : Py.range 1 (5 + 1) 2 = [1; 3; 5]%Z.
Proof. reflexivity. Qed.

Example range_of_pages : Py.range1 3 (4 + 1) = [3; 4]%Z.
Proof. reflexivity. Qed.

Example range_backwards : Py.range 5 (4 + 1) 2 = [].
Proof. reflexivity. Qed.

End PyFacts.

(** ** Traces *)

Module TraceFacts.

Import Trace.

Lemma opened_app (a b : list event) : opened (a ++ b) = opened a ++ opened b.
Proof. apply flat_map_app. Qed.

Lemma quitted_app (a b : list event) : quitted (a ++ b) = quitted a ++ quitted b.
Proof. apply flat_map_app. Qed.

Lemma visited_app (a b : list event) : visited (a ++ b) = visited a ++ visited b.
Proof. apply flat_map_app. Qed.

Lemma attempts_app (a b : list event) : attempts (a ++ b) = attempts a ++ attempts b.
Proof. apply flat_map_app. Qed.

Lemma caught_app (a b : list event) : caught (a ++ b) = caught a ++ caught b.
Proof. apply flat_map_app. Qed.

Lemma submitted_app (a b : list event) :
  submitted (a ++ b) = submitted a ++ submitted b.
Proof. apply flat_map_app. Qed.

Lemma flushed_app (a b : list event) : flushed (a ++ b) = flushed a ++ flushed b.
Proof. apply flat_map_app. Qed.

Lemma pace_after_app (p : pace) (a b : list event) :
  pace_after p (a ++ b) = pace_after (pace_after p a) b.
Proof. apply fold_left_app. Qed.

Lemma trace_log (e : event) (w : World) : trace (log e w) = trace w ++ [e].
Proof. reflexivity. Qed.

Lemma trace_open_session (w : World) :
  trace (snd (open_session w)) = trace w ++ [Open (next_session w)].
Proof. reflexivity. Qed.

End TraceFacts.

(** ** Loops *)

Module LoopFacts.

(** A loop whose body always completes is a fold. *)
Lemma for_each_fold {S A : Type} (body : A -> M S unit) (f : A -> S -> S) :
  (forall x s, body x s = (Val tt, f x s)) ->
  forall xs s,
    for_each xs body s = (Val tt, fold_left (fun s x => f x s) xs s).
Proof.
  intros Hbody. induction xs as [|x xs IH]; intros s; [reflexivity|].
  cbn [for_each fold_left]. unfold bind. rewrite Hbody. apply IH.
Qed.

(** A loop whose body may raise: [P] holds between iterations, indexed
    by the elements already handled, and [Q] where the loop is left by
    an exception. *)
Lemma for_each_rule {S A : Type} (body : A -> M S unit)
      (P : list A -> S -> Prop) (Q : S -> Prop) :
  forall xs done s,
    (forall before x s,
        (exists rest, done ++ xs = before ++ x :: rest) ->
        P before s ->
        match body x s with
        | (Val _, s') => P (before ++ [x]) s'
        | (Exc, s') => Q s'
        end) ->
    P done s ->
    match for_each xs body s with
    | (Val _, s') => P (done ++ xs) s'
    | (Exc, s') => Q s'
    end.
Proof.
  induction xs as [|x xs IH]; intros done s Hbody HP.
  - cbn. now rewrite app_nil_r.
  - cbn [for_each]. unfold bind.
    pose proof (Hbody done x s (ex_intro _ xs eq_refl) HP) as Hx.
    destruct (body x s) as [[[]|] s1]; [|exact Hx].
    replace (done ++ x :: xs) with ((done ++ [x]) ++ xs)
      by (now rewrite <- app_assoc).
    apply IH; [|exact Hx].
    intros before y s2 (rest & Hsplit). apply Hbody.
    exists rest. rewrite <- Hsplit. now rewrite <- app_assoc.
Qed.

End LoopFacts.

(** ** The page fetch job *)

Module JobFacts.

Import PageScraper Trace TraceFacts JobShape.
Local Open Scope py_scope.

Ltac unfold_job :=
  unfold iteration, try_finally, try_except, try_block, except_block,
    finally_block, quit_quietly, _random_sleep, setup_driver,
    has_current_url, on_world, set_driver, modify, gets, bind, ret, raise.

Ltac ask_oracle :=
  repeat match goal with
    | |- context [match setup_driver_outcome ?e ?p ?k with _ => _ end] =>
        destruct (setup_driver_outcome e p k); cbn [driver world]
    | |- context [match page_outcome_of ?e ?p ?k with _ => _ end] =>
        destruct (page_outcome_of e p k) as [ | | | [|? ?]]; cbn [driver world]
    | |- context [if current_url_raises ?e ?p ?k then _ else _] =>
        destruct (current_url_raises e p k); cbn [driver world]
    | |- context [if ?a <? ?b then _ else _] =>
        let E := fresh "Hbudget" in destruct (a <? b) eqn:E; cbn [driver world]
    end.

Ltac read_trace :=
  cbn [trace log count_visit count_setup open_session snd next_session
       driver world held];
  rewrite <- ?app_assoc; cbn [app].

Lemma scrape_page_loop_step (env : Env) (fuel : nat) (page : Z) (rc : nat)
      (j : Job) :
  scrape_page_loop env (S fuel) page rc j =
  if rc <? max_retries then
    match iteration env page rc j with
    | (Val (Return rs), j1) => (Val (PyList rs), j1)
    | (Val (Continue rc1), j1) => scrape_page_loop env fuel page rc1 j1
    | (Exc, j1) => (Exc, j1)
    end
  else (Val PyNone, j).
Proof.
  cbn [scrape_page_loop]. destruct (rc <? max_retries); [|reflexivity].
  unfold bind. destruct (iteration env page rc j) as [[[rs | rc1] | ] j1];
    reflexivity.
Qed.

(** One iteration never raises, whatever the oracle answers, and does
    what [iteration_did] lists. *)
Lemma iteration_spec (env : Env) (page : Z) (rc : nat) (j : Job) :
  exists c j' evs,
    iteration env page rc j = (Val c, j') /\ iteration_did page rc j c j' evs.
Proof.
  destruct j as [d w]. unfold_job. cbn [driver world].
  destruct d as [sid|]; cbn [driver world]; ask_oracle.
  all: do 3 eexists; split; [reflexivity|].
  all: split; [ reflexivity
              | read_trace; reflexivity
              | reflexivity
              | cbn; auto
              | cbn; lia
              | reflexivity
              | cbn; auto
              | intros p [-> | ->]; reflexivity
              | cbn ].
  all: try (apply Nat.ltb_lt in Hbudget; auto).
  all: try (apply Nat.ltb_ge in Hbudget; auto).
  all: left; reflexivity.
Qed.

Lemma seq_snoc_shift (a n : nat) : [a] ++ seq (a + 1) n = seq a (S n).
Proof. simpl. now rewrite Nat.add_1_r. Qed.

Lemma incl_seq_lt (l : list nat) (a n x : nat) :
  incl l (seq a n) -> In x l -> a <= x < a + n.
Proof. intros Hincl Hin. apply in_seq. now apply Hincl. Qed.

(** The loop of [scrape_page], entered with [retry_count] below
    [max_retries], ends with a [return] of a list before the fuel runs
    out, and does what [job_did] lists. *)
Lemma scrape_page_loop_spec (env : Env) (page : Z) :
  forall fuel rc j,
    rc < max_retries -> max_retries - rc <= fuel ->
    (forall sid, driver j = Some sid -> sid < next_session (world j)) ->
    exists rs j' evs,
      scrape_page_loop env fuel page rc j = (Val (PyList rs), j') /\
      job_did rc j j' rs evs.
Proof.
  induction fuel as [|fuel IH]; intros rc j Hrc Hfuel Hheld; [lia|].
  cbn [scrape_page_loop]. apply Nat.ltb_lt in Hrc as Hrcb. rewrite Hrcb.
  destruct (iteration_spec env page rc j) as (c & j1 & evs1 & Hit & Hdid).
  unfold bind at 1. rewrite Hit. destruct Hdid
    as [Hrel Htr Hatt Hopen Hcount Hquit Hvisit Hpace Hdecide].
  assert (Hfew : List.length (opened evs1) <= 1)
    by (destruct Hopen as [-> | [_ ->]]; simpl; lia).
  assert (Hone : NoDup (held (driver j) ++ opened evs1)).
  { destruct Hopen as [-> | [-> ->]]; simpl.
    - destruct (driver j); simpl; repeat constructor; simpl; tauto.
    - repeat constructor; simpl; tauto. }
  assert (Hseq1 : opened evs1 = seq (next_session (world j))
                                    (List.length (opened evs1)))
    by (destruct Hopen as [-> | [_ ->]]; reflexivity).
  assert (Hvis1 : NoDup (visited evs1) /\
                  incl (visited evs1) (held (driver j) ++ opened evs1)).
  { destruct Hvisit as [-> | ->].
    - split; [constructor | intros x []].
    - split; [assumption | apply incl_refl]. }
  destruct c as [rs | rc'].
  - (* the iteration returned *)
    exists rs, j1, evs1. split; [reflexivity|].
    split; auto.
    + exists 1. rewrite Hatt. simpl. repeat split; lia.
    + destruct Hdecide as [-> | (-> & _ & ->)]; simpl; [tauto | auto].
  - (* the iteration asked for another one *)
    destruct Hdecide as (-> & Hlt & Hcaught).
    destruct (IH (rc + 1) j1) as (rs & j2 & evs2 & Hloop & Hjob).
    + exact Hlt.
    + lia.
    + rewrite Hrel. discriminate.
    + destruct Hjob as [Hrel2 Htr2 (n & Hatt2 & Hn1 & Hn2) Hseq2 Hcount2
                         Hquit2 (Hnd2 & Hincl2) Hpace2 Hex2].
      rewrite Hrel in Hquit2, Hincl2. simpl in Hquit2, Hincl2.
      exists rs, j2, (evs1 ++ evs2). split; [exact Hloop|].
      split.
      * exact Hrel2.
      * rewrite Htr2, Htr. now rewrite app_assoc.
      * exists (S n). rewrite attempts_app, Hatt, Hatt2.
        rewrite seq_snoc_shift. repeat split; lia.
      * rewrite opened_app, length_app, seq_app, <- Hseq1.
        rewrite Hcount in Hseq2. now rewrite <- Hseq2.
      * rewrite Hcount2, Hcount, opened_app, length_app. lia.
      * rewrite quitted_app, Hquit, Hquit2, opened_app. now rewrite app_assoc.
      * rewrite visited_app, opened_app. split.
        -- apply NoDup_app; [tauto | exact Hnd2 |].
           intros x Hx1 Hx2.
           apply Hincl2 in Hx2. rewrite Hseq2 in Hx2. apply in_seq in Hx2.
           apply (proj2 Hvis1) in Hx1. apply in_app_or in Hx1.
           destruct Hx1 as [Hx1 | Hx1].
           ++ destruct (driver j) as [sid|] eqn:Hd; [|contradiction].
              destruct Hx1 as [<- | []]. specialize (Hheld sid eq_refl). lia.
           ++ rewrite Hseq1 in Hx1. apply in_seq in Hx1. lia.
        -- intros x Hx. apply in_app_or in Hx. rewrite app_assoc.
           apply in_or_app. destruct Hx as [Hx | Hx].
           ++ left. now apply (proj2 Hvis1).
           ++ right. now apply Hincl2.
      * intros p Hp. rewrite pace_after_app, (Hpace p Hp).
        apply Hpace2. now right.
      * rewrite caught_app, Hcaught. intros Hin. apply in_app_or in Hin.
        destruct Hin as [[Heq | []] | Hin]; [lia | auto].
Qed.

(** A result reached with some fuel is reached with any larger fuel. *)
Lemma scrape_page_loop_more_fuel (env : Env) (page : Z) (extra : nat) :
  forall fuel rc j rs j',
    scrape_page_loop env fuel page rc j = (Val (PyList rs), j') ->
    scrape_page_loop env (fuel + extra) page rc j = (Val (PyList rs), j').
Proof.
  induction fuel as [|fuel IH]; intros rc j rs j' Hrun.
  - discriminate.
  - cbn [scrape_page_loop Nat.add] in *.
    destruct (rc <? max_retries); [|discriminate].
    unfold bind in *.
    destruct (iteration env page rc j) as [[[rs1 | rc1] | ] j1];
      [exact Hrun | now apply IH | exact Hrun].
Qed.

(** [scrape_page] gives the loop more fuel than it can use: the
    result is a list and any larger fuel gives the same. *)
Lemma scrape_page_enough_fuel (env : Env) (page : Z) (j : Job) (extra : nat) :
  (forall sid, driver j = Some sid -> sid < next_session (world j)) ->
  exists rs j',
    scrape_page env page j = (Val (PyList rs), j') /\
    scrape_page_loop env (S max_retries + extra) page 0 j = (Val (PyList rs), j').
Proof.
  intros Hheld.
  destruct (scrape_page_loop_spec env page (S max_retries) 0 j)
    as (rs & j1 & evs & Hrun & _); [unfold max_retries; lia | lia | auto |].
  exists rs, j1. split; [exact Hrun|].
  now apply scrape_page_loop_more_fuel.
Qed.

(** The constructor either raises, with or without a session left
    behind, or hands over an object that holds a new session. *)
Lemma init_spec (env : Env) (page : Z) (w : World) :
  match setup_driver_outcome env page (setups w page) with
  | ChromeStarted | FallbackStarted =>
      exists j, PageScraper.__init__ env page w = (Val tt, j) /\
                driver j = Some (next_session w) /\
                next_session (world j) = S (next_session w) /\
                trace (world j) = trace w ++ [Open (next_session w)]
  | StealthFailed =>
      exists j, PageScraper.__init__ env page w = (Exc, j) /\
                trace (world j) = trace w ++ [Open (next_session w)]
  | ChromeFailed =>
      exists j, PageScraper.__init__ env page w = (Exc, j) /\
                trace (world j) = trace w
  end.
Proof.
  unfold PageScraper.__init__. unfold_job. cbn [driver world].
  destruct (setup_driver_outcome env page (setups w page));
    eexists; repeat split.
Qed.

Lemma init_returned (env : Env) (page : Z) (w : World) (j : Job) :
  PageScraper.__init__ env page w = (Val tt, j) ->
  driver j = Some (next_session w) /\
  next_session (world j) = S (next_session w) /\
  trace (world j) = trace w ++ [Open (next_session w)].
Proof.
  intros Hnew. pose proof (init_spec env page w) as Hspec.
  destruct (setup_driver_outcome env page (setups w page));
    destruct Hspec as (j0 & Hnew0 & Hrest); rewrite Hnew in Hnew0;
    inversion Hnew0; subst; tauto || discriminate.
Qed.

(** A constructor whose [setup_driver] creates the session and then
    fails on a stealth command: [setup_driver] logs and re-raises,
    [__init__] has no handler, and [_scrape_single_page] raises before
    [scrape_page] and its [finally] are ever entered.  In the events
    of the job one session was opened and [quit] was called on
    none. *)
Lemma stealth_failure_in_constructor (env : Env) (page : Z) (w : World) :
  setup_driver_outcome env page (setups w page) = StealthFailed ->
  exists w' evs,
    MachineryPeteScraper._scrape_single_page env page w = (Exc, w') /\
    trace w' = trace w ++ evs /\
    opened evs = [next_session w] /\ quitted evs = [].
Proof.
  intros Hout. unfold MachineryPeteScraper._scrape_single_page.
  pose proof (init_spec env page w) as Hnew. rewrite Hout in Hnew.
  destruct Hnew as (j & -> & Htr).
  exists (world j), [Open (next_session w)]. repeat split. exact Htr.
Qed.

(** C5, at the failing input.  The job of page 5 in a new world,
    where the constructor's [webdriver.Chrome] returns a session and
    [execute_cdp_cmd] then raises.  The job ends by raising to the
    orchestrator; its whole trace is the opening of session 0, so one
    session was opened and none was closed: the session opened by the
    constructor is never quit. *)
Theorem constructor_failure_leaves_session :
  exists w',
    MachineryPeteScraper._scrape_single_page
      CrawlScenarios.stealth_fails_first 5 new_world = (Exc, w') /\
    trace w' = [Open 0] /\
    opened (trace w') = [0] /\
    quitted (trace w') = [] /\
    List.length (opened (trace w')) <> List.length (quitted (trace w')).
Proof.
  eexists. split; [vm_compute; reflexivity|].
  repeat split. cbn. discriminate.
Qed.

Lemma count_occ_NoDup_In (l : list nat) (x : nat) :
  NoDup l -> In x l -> count_occ Nat.eq_dec l x = 1.
Proof.
  intros Hnd Hin. apply (proj1 (NoDup_count_occ' Nat.eq_dec l) Hnd x Hin).
Qed.

(** Once the constructor has returned, the sessions are balanced:
    [scrape_page] returns, and in the events of the job, constructor
    included, as many sessions were closed as were created, [quit]
    was called exactly once on every session created and on no other,
    no session served two attempts, and the object holds no session
    at the end.  The oracle is arbitrary, so this covers every way an
    attempt can end. *)
Lemma sessions_closed_after_construction (env : Env) (page : Z) (w : World)
        (j : Job) :
  PageScraper.__init__ env page w = (Val tt, j) ->
  exists rs j' evs,
    scrape_page env page j = (Val (PyList rs), j') /\
    trace (world j') = trace w ++ evs /\
    List.length (opened evs) = List.length (quitted evs) /\
    (forall sid, In sid (opened evs) ->
                 count_occ Nat.eq_dec (quitted evs) sid = 1) /\
    (forall sid, In sid (quitted evs) -> In sid (opened evs)) /\
    NoDup (visited evs) /\
    incl (visited evs) (opened evs) /\
    driver j' = None.
Proof.
  intros Hnew. apply init_returned in Hnew as (Hd & Hnext & Htr).
  destruct (scrape_page_loop_spec env page (S max_retries) 0 j)
    as (rs & j1 & evs & Hrun & Hdid).
  - unfold max_retries. lia.
  - lia.
  - intros sid Hsid. rewrite Hd in Hsid. inversion Hsid. lia.
  - destruct Hdid as [Hrel Htr1 _ Hseq Hcount Hquit (Hnd & Hincl) _ _].
    rewrite Hd in Hquit, Hincl. cbn [held] in Hquit, Hincl.
    exists rs, j1, ([Open (next_session w)] ++ evs).
    assert (Hsame : quitted ([Open (next_session w)] ++ evs) =
                    opened ([Open (next_session w)] ++ evs)).
    { rewrite quitted_app, opened_app. exact Hquit. }
    assert (Hall : NoDup (opened ([Open (next_session w)] ++ evs))).
    { rewrite opened_app. cbn [opened flat_map app].
      rewrite Hseq, Hnext. constructor.
      - rewrite in_seq. lia.
      - apply seq_NoDup. }
    split; [exact Hrun|].
    split; [rewrite Htr1, Htr; now rewrite <- app_assoc|].
    rewrite Hsame.
    split; [reflexivity|].
    split; [intros sid Hin; now apply count_occ_NoDup_In|].
    split; [auto|].
    split; [rewrite visited_app; exact Hnd|].
    split; [rewrite visited_app, opened_app; exact Hincl | exact Hrel].
Qed.

Lemma job_only_refl (page : Z) (w : World) : job_only page w w.
Proof.
  repeat split; auto. exists []. rewrite app_nil_r. repeat split; auto.
Qed.

Lemma job_only_trans (page : Z) (w1 w2 w3 : World) :
  job_only page w1 w2 -> job_only page w2 w3 -> job_only page w1 w3.
Proof.
  intros (Hc1 & Hw1 & Hj1 & Hv1 & evs1 & Ht1 & Hf1 & Hs1 & Hn1)
         (Hc2 & Hw2 & Hj2 & Hv2 & evs2 & Ht2 & Hf2 & Hs2 & Hn2).
  split; [|split; [|split; [|split]]]; try congruence.
  - intros q Hq. destruct (Hc1 q Hq), (Hc2 q Hq). split; congruence.
  - exists (evs1 ++ evs2). rewrite Ht2, Ht1, app_assoc.
    rewrite flushed_app, submitted_app, Hf1, Hf2, Hs1, Hs2.
    repeat split; auto. intros Hin. apply in_app_or in Hin. tauto.
Qed.

Lemma bump_other (f : Z -> nat) (page q : Z) : q <> page -> bump f page q = f q.
Proof. intros Hq. unfold bump. apply Z.eqb_neq in Hq. now rewrite Hq. Qed.

Lemma bump_same (f : Z -> nat) (page : Z) : bump f page page = S (f page).
Proof. unfold bump. now rewrite Z.eqb_refl. Qed.

Ltac not_fault :=
  let H := fresh in
  intro H; cbn [In] in H;
  repeat match goal with
    | H : _ \/ _ |- _ => destruct H
    | H : _ = Fault |- _ => discriminate H
    | H : False |- _ => destruct H
    end.

Lemma iteration_job_only (env : Env) (page : Z) (rc : nat) (j : Job) :
  job_only page (world j) (world (snd (iteration env page rc j))).
Proof.
  destruct j as [d w]. unfold_job. cbn [driver world].
  destruct d as [sid|]; cbn [driver world]; ask_oracle.
  all: cbn [snd world].
  all: split; [intros q Hq; cbn [setups visits log count_visit count_setup
                                 open_session snd];
               rewrite ?(bump_other _ _ _ Hq); split; reflexivity|].
  all: split; [reflexivity|]; split; [reflexivity|]; split; [reflexivity|].
  all: eexists; split; [read_trace; reflexivity|].
  all: split; [reflexivity|]; split; [reflexivity|]; not_fault.
Qed.

Lemma scrape_page_loop_job_only (env : Env) (page : Z) :
  forall fuel rc j,
    job_only page (world j) (world (snd (scrape_page_loop env fuel page rc j))).
Proof.
  induction fuel as [|fuel IH]; intros rc j.
  - apply job_only_refl.
  - cbn [scrape_page_loop]. destruct (rc <? max_retries);
      [|apply job_only_refl].
    unfold bind at 1.
    pose proof (iteration_job_only env page rc j) as Hit.
    destruct (iteration env page rc j) as [[[rs | rc1] | ] j1];
      cbn [snd] in *; auto.
    eapply job_only_trans; [exact Hit | apply IH].
Qed.

Lemma init_job_only (env : Env) (page : Z) (w : World) :
  job_only page w (world (snd (PageScraper.__init__ env page w))).
Proof.
  unfold PageScraper.__init__. unfold_job. cbn [driver world].
  destruct (setup_driver_outcome env page (setups w page)); cbn [snd world].
  all: split; [intros q Hq; cbn [setups visits log count_visit count_setup
                                 open_session snd];
               rewrite ?(bump_other _ _ _ Hq); split; reflexivity|].
  all: split; [reflexivity|]; split; [reflexivity|]; split; [reflexivity|].
  1-3: eexists; split; [read_trace; reflexivity|].
  1-3: split; [reflexivity|]; split; [reflexivity|]; not_fault.
  exists []. cbn. rewrite app_nil_r. repeat split; auto.
Qed.

(** Alike states stay alike through an iteration and decide alike. *)
Lemma iteration_alike (env : Env) (page : Z) (rc : nat) (j1 j2 : Job) :
  alike page j1 j2 ->
  fst (iteration env page rc j1) = fst (iteration env page rc j2) /\
  alike page (snd (iteration env page rc j1)) (snd (iteration env page rc j2)).
Proof.
  destruct j1 as [d1 w1], j2 as [d2 w2].
  intros ((Hd12 & Hd21) & Hs & Hv). cbn [driver world] in *.
  unfold_job. cbn [driver world].
  destruct d1 as [sid1|], d2 as [sid2|];
    try (specialize (Hd12 eq_refl); discriminate);
    try (specialize (Hd21 eq_refl); discriminate).
  all: repeat (cbn [driver world setups visits log count_visit count_setup
                    open_session snd next_session];
               rewrite ?bump_same; rewrite ?Hs, ?Hv;
               match goal with
               | |- context [match setup_driver_outcome ?e ?p ?k with _ => _ end] =>
                   destruct (setup_driver_outcome e p k)
               | |- context [match page_outcome_of ?e ?p ?k with _ => _ end] =>
                   destruct (page_outcome_of e p k) as [ | | | [|? ?]]
               | |- context [if current_url_raises ?e ?p ?k then _ else _] =>
        destruct (current_url_raises e p k); cbn [driver world]
    | |- context [if ?a <? ?b then _ else _] =>
                   destruct (a <? b)
               end).
  all: cbn [fst snd driver world]; split; [reflexivity|].
  all: split; [tauto|]; split;
    cbn [setups visits log count_visit count_setup open_session snd world];
    rewrite ?bump_same; congruence.
Qed.

Lemma scrape_page_loop_alike (env : Env) (page : Z) :
  forall fuel rc j1 j2,
    alike page j1 j2 ->
    fst (scrape_page_loop env fuel page rc j1) =
    fst (scrape_page_loop env fuel page rc j2) /\
    alike page (snd (scrape_page_loop env fuel page rc j1))
               (snd (scrape_page_loop env fuel page rc j2)).
Proof.
  induction fuel as [|fuel IH]; intros rc j1 j2 Halike.
  - split; [reflexivity | exact Halike].
  - rewrite !scrape_page_loop_step. destruct (rc <? max_retries);
      [|split; [reflexivity | exact Halike]].
    destruct (iteration_alike env page rc j1 j2 Halike) as (Hfst & Hsnd).
    destruct (iteration env page rc j1) as [r1 k1],
             (iteration env page rc j2) as [r2 k2].
    cbn [fst snd] in Hfst, Hsnd. subst r2.
    destruct r1 as [[rs | rc1] | ]; cbn [fst snd]; auto.
Qed.

(** The job of a page changes nothing that another page's job or the
    orchestrator's bookkeeping looks at. *)
Lemma job_frame (env : Env) (page : Z) (w : World) :
  job_only page w
    (snd (MachineryPeteScraper._scrape_single_page env page w)).
Proof.
  unfold MachineryPeteScraper._scrape_single_page.
  pose proof (init_job_only env page w) as Hnew.
  destruct (PageScraper.__init__ env page w) as [[[]|] j]; cbn [snd] in *;
    [|exact Hnew].
  pose proof (scrape_page_loop_job_only env page (S max_retries) 0 j) as Hrun.
  unfold scrape_page.
  destruct (scrape_page_loop env (S max_retries) page 0 j) as [r j'].
  cbn [snd] in *. eapply job_only_trans; eassumption.
Qed.

(** What the job of a page returns, and what it leaves for the next
    job of that page, depends on the world only through the two
    counters of that page. *)
Lemma job_local (env : Env) (page : Z) (w1 w2 : World) :
  same_at page w1 w2 ->
  fst (MachineryPeteScraper._scrape_single_page env page w1) =
  fst (MachineryPeteScraper._scrape_single_page env page w2) /\
  same_at page (snd (MachineryPeteScraper._scrape_single_page env page w1))
               (snd (MachineryPeteScraper._scrape_single_page env page w2)).
Proof.
  intros (Hs & Hv). unfold MachineryPeteScraper._scrape_single_page.
  assert (Hnew : fst (PageScraper.__init__ env page w1) =
                 fst (PageScraper.__init__ env page w2) /\
                 alike page (snd (PageScraper.__init__ env page w1))
                            (snd (PageScraper.__init__ env page w2))).
  { unfold PageScraper.__init__. unfold_job. cbn [driver world]. rewrite Hs.
    destruct (setup_driver_outcome env page (setups w2 page));
      cbn [fst snd]; (split; [reflexivity|]);
      (split; [cbn [driver]; split; intros H; (discriminate H || reflexivity)|]);
      split; cbn [driver world setups visits log count_visit count_setup
                  open_session snd]; rewrite ?bump_same; congruence. }
  destruct Hnew as (Hfst & Hsnd).
  destruct (PageScraper.__init__ env page w1) as [r1 j1],
           (PageScraper.__init__ env page w2) as [r2 j2].
  cbn [fst snd] in Hfst, Hsnd. subst r2.
  destruct r1 as [[]|]; cbn [fst snd]; [|split; [reflexivity | apply Hsnd]].
  destruct (scrape_page_loop_alike env page (S max_retries) 0 j1 j2 Hsnd)
    as (Hfst & Hsnd').
  unfold scrape_page.
  destruct (scrape_page_loop env (S max_retries) page 0 j1) as [r1 k1],
           (scrape_page_loop env (S max_retries) page 0 j2) as [r2 k2].
  cbn [fst snd] in *. split; [exact Hfst | apply Hsnd'].
Qed.

End JobFacts.

(** ** The orchestrator, one statement at a time *)

Module CrawlSteps.

Import Trace TraceFacts JobShape JobFacts CrawlShape.
Import MachineryPeteScraper.
Local Open Scope py_scope.

Lemma collect_future_spec (env : Env) (page : Z) (c : Crawl) :
  collect_future env page c =
  (Val tt,
   {| all_results := all_results c ++ job_records env (world c) page;
      failed_pages := failed_pages c ++
                      (if fails env (world c) page then [page] else []);
      results := results c;
      world := job_world env (world c) page |}).
Proof.
  unfold collect_future, try_except, bind, run_job, extend, append_failed,
    modify, fails, job_records, job_world.
  destruct (_scrape_single_page env page (world c))
    as [[[[|r rs] | ] | ] w']; cbn; rewrite ?app_nil_r; reflexivity.
Qed.

Lemma retry_page_spec (env : Env) (page : Z) (c : Crawl) :
  retry_page env page c =
  (Val tt,
   {| all_results := all_results c ++
                     job_records env (log (Sleep 3 5) (world c)) page;
      failed_pages := failed_pages c;
      results := results c;
      world := job_world env (log (Sleep 3 5) (world c)) page |}).
Proof.
  unfold retry_page, try_except, bind, run_job, extend, on_world,
    modify, ret, job_records, job_world. cbn [world all_results
    failed_pages results].
  destruct (_scrape_single_page env page (log (Sleep 3 5) (world c)))
    as [[[[|r rs] | ] | ] w']; cbn; rewrite ?app_nil_r; reflexivity.
Qed.

Lemma run_unobserved_spec (env : Env) (page : Z) (c : Crawl) :
  run_unobserved env page c =
  (Val tt,
   {| all_results := all_results c; failed_pages := failed_pages c;
      results := results c; world := job_world env (world c) page |}).
Proof.
  unfold run_unobserved, try_except, bind, run_job, ret, job_world.
  destruct (_scrape_single_page env page (world c)) as [[r | ] w'];
    reflexivity.
Qed.

Lemma save_if_any_spec (env : Env) (c : Crawl) :
  save_if_any env c =
  (Val tt,
   match all_results c with
   | [] => c
   | rs => {| all_results := rs; failed_pages := failed_pages c;
              results := SameAsAllResults;
              world := write_files env rs (world c) |}
   end).
Proof.
  unfold save_if_any, save_results, share_results, on_world, bind, gets,
    modify, ret, self_results.
  destruct (all_results c) as [|r rs] eqn:Hall; [reflexivity|].
  cbn. rewrite Hall. reflexivity.
Qed.

End CrawlSteps.

(** ** What every run keeps true of its flushes *)

Module FlushFacts.

Import Trace TraceFacts JobShape JobFacts CrawlShape CrawlSteps LoopFacts.
Import MachineryPeteScraper.
Local Open Scope py_scope.

Lemma job_only_calm (page : Z) (w w' : World) :
  job_only page w w' -> calm_since w w'.
Proof.
  intros (_ & Hw & Hj & Hc & evs & Ht & Hf & _ & Hn).
  repeat split; auto. exists evs. auto.
Qed.

Lemma calm_refl (w : World) : calm_since w w.
Proof.
  repeat split; auto. exists []. rewrite app_nil_r. repeat split; auto.
Qed.

Lemma calm_trans (w1 w2 w3 : World) :
  calm_since w1 w2 -> calm_since w2 w3 -> calm_since w1 w3.
Proof.
  intros (Hw1 & Hj1 & Hc1 & evs1 & Ht1 & Hf1 & Hn1)
         (Hw2 & Hj2 & Hc2 & evs2 & Ht2 & Hf2 & Hn2).
  split; [|split; [|split]]; try congruence.
  exists (evs1 ++ evs2). rewrite Ht2, Ht1, app_assoc, flushed_app, Hf1, Hf2.
  repeat split; auto. intros Hin. apply in_app_or in Hin. tauto.
Qed.

Lemma calm_sleep (lo hi : nat) (w : World) : calm_since w (log (Sleep lo hi) w).
Proof.
  repeat split; auto. exists [Sleep lo hi]. repeat split; auto.
  intros [H | []]. discriminate.
Qed.

Lemma calm_submit (page : Z) (w : World) : calm_since w (log (Submit page) w).
Proof.
  repeat split; auto. exists [Submit page]. repeat split; auto.
  intros [H | []]. discriminate.
Qed.

Lemma calm_job (env : Env) (page : Z) (w : World) :
  calm_since w (job_world env w page).
Proof. eapply job_only_calm. apply job_frame. Qed.

Lemma flushes_fit_more (acc more : list ListingData)
      (fl : list (list ListingData)) :
  flushes_fit acc fl -> flushes_fit (acc ++ more) fl.
Proof.
  intros (Hgrows & Hall). split; [exact Hgrows|].
  eapply Forall_impl; [|exact Hall].
  intros rs (Hne & rest & ->). split; [exact Hne|].
  exists (rest ++ more). now rewrite app_assoc.
Qed.

Lemma grows_snoc (acc : list ListingData) (fl : list (list ListingData)) :
  grows fl ->
  Forall (fun rs => rs <> [] /\ exists more, acc = rs ++ more) fl ->
  grows (fl ++ [acc]).
Proof.
  induction fl as [|a fl IH]; intros Hgrows Hall; [exact I|].
  inversion Hall as [|? ? (_ & Ha) Hrest]; subst.
  destruct fl as [|b fl].
  - cbn. split; [exact Ha | exact I].
  - cbn [app grows] in *. destruct Hgrows as (Hab & Hgrows).
    split; [exact Hab|]. apply IH; assumption.
Qed.

(** A step that gathers [more] records and leaves the files alone
    keeps a crawl tidy; it keeps it settled when it gathers nothing. *)
Lemma crawl_inv_step (b : bool) (base : World) (c c' : Crawl)
      (more : list ListingData) :
  crawl_inv b base c ->
  calm_since (world c) (world c') ->
  all_results c' = all_results c ++ more ->
  (b = true -> more = []) ->
  crawl_inv b base c'.
Proof.
  intros (evs & Ht & Hn & Hfit & Hsync & Hfiles)
         (Hw & Hj & Hc & evs' & Ht' & Hf' & Hn') Hall Hmore.
  exists (evs ++ evs'). rewrite Ht', Ht, app_assoc, flushed_app, Hf', app_nil_r.
  split; [reflexivity|]. split; [|split; [|split]].
  - intros Hin. apply in_app_or in Hin. tauto.
  - rewrite Hall. now apply flushes_fit_more.
  - intros Hb. rewrite Hall, (Hmore Hb), app_nil_r. auto.
  - intros Hnone. rewrite Hw, Hj, Hc. auto.
Qed.

Lemma settled_tidy (base : World) (c : Crawl) : settled base c -> tidy base c.
Proof.
  intros (evs & Ht & Hn & Hfit & _ & Hfiles). exists evs.
  split; [exact Ht|]. split; [exact Hn|]. split; [exact Hfit|].
  split; [discriminate | exact Hfiles].
Qed.

Lemma trace_write_files (env : Env) (rs : list ListingData) (w : World) :
  trace (write_files env rs w) = trace w ++ [Flush rs].
Proof.
  unfold write_files. destruct (write_outcome_of env (writes w)); reflexivity.
Qed.

(** A flush whose writes succeed replaces both files by the whole
    list it was handed; one that cannot open the first file leaves
    both as they were. *)
Lemma write_files_outcome (env : Env) (rs : list ListingData) (w : World) :
  match write_outcome_of env (writes w) with
  | Written =>
      json_file (write_files env rs w) = Whole rs /\
      csv_file (write_files env rs w) = Whole rs
  | JsonOpenFails =>
      json_file (write_files env rs w) = json_file w /\
      csv_file (write_files env rs w) = csv_file w
  | JsonDumpFails =>
      json_file (write_files env rs w) = Damaged /\
      csv_file (write_files env rs w) = csv_file w
  | CsvOpenFails =>
      json_file (write_files env rs w) = Whole rs /\
      csv_file (write_files env rs w) = csv_file w
  | CsvWriteFails =>
      json_file (write_files env rs w) = Whole rs /\
      csv_file (write_files env rs w) = Damaged
  end.
Proof.
  unfold write_files. destruct (write_outcome_of env (writes w));
    split; reflexivity.
Qed.

(** [save_if_any] settles a tidy crawl. *)
Lemma save_if_any_settles (env : Env) (base : World) (c : Crawl) :
  tidy base c -> settled base (snd (save_if_any env c)).
Proof.
  intros (evs & Ht & Hn & (Hgrows & Hall) & _ & Hfiles).
  rewrite save_if_any_spec. cbn [snd].
  destruct (all_results c) as [|r rs] eqn:Hacc.
  - exists evs. rewrite Hacc in *.
    split; [exact Ht|]. split; [exact Hn|].
    split; [split; assumption|]. split; [|exact Hfiles].
    intros _. destruct (flushed evs) as [|a fl]; [reflexivity|].
    inversion Hall as [|? ? (Hne & more & Hpre) _]; subst.
    destruct a; [congruence | discriminate].
  - exists (evs ++ [Flush (r :: rs)]). cbn [world all_results].
    rewrite trace_write_files, Ht, app_assoc, flushed_app.
    cbn [flushed flat_map app].
    split; [reflexivity|]. split; [|split; [|split]].
    + intros Hin. apply in_app_or in Hin. destruct Hin as [Hin | [Hin | []]];
        [tauto | discriminate].
    + split; [now apply grows_snoc|].
      apply Forall_app. split; [exact Hall|].
      constructor; [|constructor]. split; [discriminate|].
      exists []. now rewrite app_nil_r.
    + intros _. exists (flushed evs). reflexivity.
    + intros Hnone. destruct (flushed evs); discriminate.
Qed.

Lemma aborted_step (base : World) (c c' : Crawl) :
  aborted base c ->
  calm_since (world c) (world c') ->
  all_results c' = all_results c ->
  aborted base c'.
Proof.
  intros (before & after & Ht & Hn & Hf & Hfit & Hsync & Hfiles)
         (Hw & Hj & Hc & evs' & Ht' & Hf' & _) Hall.
  exists before, (after ++ evs'). rewrite Ht', Ht, Hall, flushed_app, Hf, Hf'.
  rewrite <- !app_assoc. cbn [app].
  split; [reflexivity|]. split; [exact Hn|]. split; [reflexivity|].
  split; [exact Hfit|]. split; [exact Hsync|].
  intros Hnone. rewrite Hw, Hj, Hc. now apply Hfiles.
Qed.

Lemma settled_fault (base : World) (c c' : Crawl) :
  settled base c ->
  world c' = log Fault (world c) ->
  all_results c' = all_results c ->
  aborted base c'.
Proof.
  intros (evs & Ht & Hn & Hfit & Hsync & Hfiles) Hw Hall.
  exists evs, []. rewrite Hw, Hall, trace_log, Ht, <- app_assoc.
  split; [reflexivity|]. split; [exact Hn|]. split; [reflexivity|].
  split; [exact Hfit|]. split; [now apply Hsync|].
  exact Hfiles.
Qed.

Lemma collect_future_tidy (env : Env) (base : World) (page : Z) (c : Crawl) :
  tidy base c -> tidy base (snd (collect_future env page c)).
Proof.
  intros Htidy. rewrite collect_future_spec. cbn [snd].
  eapply (crawl_inv_step false base c _ (job_records env (world c) page));
    [exact Htidy | apply calm_job | reflexivity | discriminate].
Qed.

Lemma retry_page_tidy (env : Env) (base : World) (page : Z) (c : Crawl) :
  tidy base c -> tidy base (snd (retry_page env page c)).
Proof.
  intros Htidy. rewrite retry_page_spec. cbn [snd].
  eapply (crawl_inv_step false base c _
            (job_records env (log (Sleep 3 5) (world c)) page));
    [exact Htidy | | reflexivity | discriminate].
  cbn [world]. eapply calm_trans; [apply calm_sleep | apply calm_job].
Qed.

(** Collecting the futures of a batch never raises and keeps the
    crawl tidy. *)
Lemma collect_loop_tidy (env : Env) (base : World) (pages : list Z)
      (c : Crawl) :
  tidy base c ->
  exists c', for_each pages (collect_future env) c = (Val tt, c') /\
             tidy base c'.
Proof.
  revert c. induction pages as [|page pages IH]; intros c Htidy.
  - exists c. split; [reflexivity | exact Htidy].
  - cbn [for_each]. unfold bind.
    pose proof (collect_future_tidy env base page c Htidy) as Hstep.
    rewrite collect_future_spec in *. cbn [snd] in Hstep. now apply IH.
Qed.

Lemma retry_loop_tidy (env : Env) (base : World) (pages : list Z)
      (c : Crawl) :
  tidy base c ->
  exists c', for_each pages (retry_page env) c = (Val tt, c') /\
             tidy base c'.
Proof.
  revert c. induction pages as [|page pages IH]; intros c Htidy.
  - exists c. split; [reflexivity | exact Htidy].
  - cbn [for_each]. unfold bind.
    pose proof (retry_page_tidy env base page c Htidy) as Hstep.
    rewrite retry_page_spec in *. cbn [snd] in Hstep. now apply IH.
Qed.

Lemma unobserved_loop_aborted (env : Env) (base : World) (pages : list Z)
      (c : Crawl) :
  aborted base c ->
  exists c', for_each pages (run_unobserved env) c = (Val tt, c') /\
             aborted base c'.
Proof.
  revert c. induction pages as [|page pages IH]; intros c Hab.
  - exists c. split; [reflexivity | exact Hab].
  - cbn [for_each]. unfold bind. rewrite run_unobserved_spec. apply IH.
    eapply aborted_step; [exact Hab | apply calm_job | reflexivity].
Qed.

(** Submitting the jobs of a batch either completes, leaving a settled
    crawl settled, or raises at the first refused submit. *)
Lemma submit_all_settled (env : Env) (base : World) (pages : list Z) :
  forall submitted c,
    settled base c ->
    match submit_all env pages submitted c with
    | (Val _, c') => settled base c'
    | (Exc, c') => aborted base c'
    end.
Proof.
  induction pages as [|page pages IH]; intros submitted c Hset.
  - exact Hset.
  - cbn [submit_all]. destruct (submit_raises env page).
    + unfold bind at 1. unfold on_world at 1, modify at 1.
      unfold bind at 1.
      edestruct (unobserved_loop_aborted env base submitted) as (c' & -> & Hab);
        [|exact Hab].
      eapply settled_fault; [exact Hset | reflexivity | reflexivity].
    + unfold bind at 1. unfold on_world at 1, modify at 1. apply IH.
      eapply (crawl_inv_step true base c _ []);
        [exact Hset | apply calm_submit | cbn; now rewrite app_nil_r | auto].
Qed.

Lemma run_batch_settled (env : Env) (base : World) (batch_start batch_end : Z)
      (c : Crawl) :
  settled base c ->
  match run_batch env batch_start batch_end c with
  | (Val _, c') => tidy base c'
  | (Exc, c') => aborted base c'
  end.
Proof.
  intros Hset. unfold run_batch, bind.
  pose proof (submit_all_settled env base
                (Py.range1 batch_start (batch_end + 1)) [] c Hset) as Hsub.
  destruct (submit_all env (Py.range1 batch_start (batch_end + 1)) [] c)
    as [[[]|] c1]; [|exact Hsub].
  edestruct (collect_loop_tidy env base) as (c2 & -> & Htidy);
    [apply settled_tidy; exact Hsub | exact Htidy].
Qed.

Lemma main_pass_settled (env : Env) (base : World)
      (batch_size start_page end_page : Z) (c : Crawl) :
  settled base c ->
  match main_pass env batch_size start_page end_page c with
  | (Val _, c') => settled base c'
  | (Exc, c') => aborted base c'
  end.
Proof.
  intros Hset. unfold main_pass.
  apply (for_each_rule _ (fun _ c => settled base c) (aborted base) _ []);
    [|exact Hset].
  intros _ batch_start s _ Hs. unfold bind at 1.
  pose proof (run_batch_settled env base batch_start
                (Z.min (batch_start + batch_size - 1) end_page) s Hs) as Hb.
  destruct (run_batch env batch_start
              (Z.min (batch_start + batch_size - 1) end_page) s)
    as [[[]|] c1]; [|exact Hb].
  unfold bind at 1. pose proof (save_if_any_settles env base c1 Hb) as Hsave.
  rewrite save_if_any_spec in *. cbn [snd] in Hsave.
  unfold on_world, modify.
  eapply (crawl_inv_step true base _ _ []);
    [exact Hsave | apply calm_sleep | cbn; now rewrite app_nil_r | auto].
Qed.

Lemma retry_pass_tidy (env : Env) (base : World) (c : Crawl) :
  tidy base c ->
  exists c', retry_pass env c = (Val tt, c') /\ tidy base c'.
Proof.
  intros Htidy. unfold retry_pass, bind, gets.
  destruct (failed_pages c) as [|page pages] eqn:Hfailed.
  - exists c. split; [reflexivity | exact Htidy].
  - now apply retry_loop_tidy.
Qed.

(** Every run of [scrape_pages], whatever its batch size: it either
    returns with the crawl settled or re-raises with the crawl as
    [aborted] describes. *)
Lemma scrape_pages_with_ends (env : Env) (batch_size start_page end_page : Z)
      (c : Crawl) :
  match scrape_pages_with env batch_size start_page end_page c with
  | (Val _, c') => settled (world c) c'
  | (Exc, c') => aborted (world c) c'
  end.
Proof.
  unfold scrape_pages_with, try_except, raise.
  unfold bind at 1. unfold fresh_locals at 1, modify at 1.
  set (c0 := {| all_results := []; failed_pages := [];
                results := Own (self_results c); world := world c |}).
  assert (Hset : settled (world c) c0).
  { exists []. cbn. rewrite app_nil_r.
    split; [reflexivity|]. split; [tauto|].
    split; [split; [exact I | constructor]|]. split; auto. }
  unfold bind at 1.
  pose proof (main_pass_settled env (world c) batch_size start_page end_page
                c0 Hset) as Hmain.
  destruct (main_pass env batch_size start_page end_page c0)
    as [[[]|] c1]; [|exact Hmain].
  unfold bind at 1.
  edestruct (retry_pass_tidy env (world c) c1) as (c2 & -> & Htidy);
    [apply settled_tidy; exact Hmain|].
  pose proof (save_if_any_settles env (world c) c2 Htidy) as Hsave.
  rewrite save_if_any_spec in *. exact Hsave.
Qed.

End FlushFacts.

(** ** Page ranges *)

Module RangeFacts.

Import CrawlShape.
Local Open Scope Z_scope.

Lemma range_empty (a stop step : Z) :
  1 <= step -> stop <= a -> Py.range a stop step = [].
Proof.
  intros Hstep Hle. unfold Py.range.
  assert (Hq : (stop - a + step - 1) / step <= 0).
  { destruct (Z.eq_dec stop a) as [-> | Hne].
    - replace (a - a + step - 1) with (step - 1) by lia.
      rewrite Z.div_small; lia.
    - apply Z.lt_succ_r. apply Z.div_lt_upper_bound; lia. }
  replace (Z.to_nat ((stop - a + step - 1) / step)) with 0%nat by lia.
  reflexivity.
Qed.

Lemma range_cons (a stop step : Z) :
  1 <= step -> a < stop ->
  Py.range a stop step = a :: Py.range (a + step) stop step.
Proof.
  intros Hstep Hlt. unfold Py.range.
  replace (stop - a + step - 1) with ((stop - (a + step) + step - 1) + 1 * step)
    by lia.
  rewrite Z.div_add by lia.
  set (q := (stop - (a + step) + step - 1) / step).
  assert (Hq : 0 <= q).
  { apply Z.div_pos; lia. }
  replace (Z.to_nat (q + 1)) with (S (Z.to_nat q)) by lia.
  cbn [seq map]. f_equal; [lia|].
  rewrite <- seq_shift, map_map. apply map_ext. intros k. lia.
Qed.

Lemma range1_empty (a b : Z) : b <= a -> Py.range1 a b = [].
Proof. intros Hle. apply range_empty; lia. Qed.

Lemma range1_cons (a b : Z) :
  a < b -> Py.range1 a b = a :: Py.range1 (a + 1) b.
Proof. intros Hlt. apply range_cons; lia. Qed.

Lemma range1_app (a b c : Z) :
  a <= b <= c -> Py.range1 a c = Py.range1 a b ++ Py.range1 b c.
Proof.
  intros Hab. remember (Z.to_nat (b - a)) as n eqn:Hn.
  revert a Hab Hn. induction n as [|n IH]; intros a Hab Hn.
  - replace b with a by lia. now rewrite (range1_empty a a) by lia.
  - rewrite (range1_cons a c), (range1_cons a b) by lia.
    cbn [app]. f_equal. apply IH; lia.
Qed.

Lemma in_range1 (a b x : Z) : In x (Py.range1 a b) <-> a <= x < b.
Proof.
  remember (Z.to_nat (b - a)) as n eqn:Hn.
  revert a Hn. induction n as [|n IH]; intros a Hn.
  - rewrite range1_empty by lia. cbn. lia.
  - rewrite range1_cons by lia. cbn [In]. rewrite IH by lia. lia.
Qed.

Lemma range1_NoDup (a b : Z) : NoDup (Py.range1 a b).
Proof.
  remember (Z.to_nat (b - a)) as n eqn:Hn.
  revert a Hn. induction n as [|n IH]; intros a Hn.
  - rewrite range1_empty by lia. constructor.
  - rewrite range1_cons by lia. constructor; [|apply IH; lia].
    rewrite in_range1. lia.
Qed.

(** The batches, one after the other, are the page range. *)
Lemma batches_cover (batch_size start_page end_page : Z) :
  1 <= batch_size ->
  flat_map (batch_pages batch_size end_page)
           (Py.range start_page (end_page + 1) batch_size)
  = Py.range1 start_page (end_page + 1).
Proof.
  intros Hsize.
  remember (Z.to_nat (end_page + 1 - start_page)) as n eqn:Hn.
  revert start_page Hn.
  induction n as [n IH] using (well_founded_induction Wf_nat.lt_wf).
  intros a Hn.
  destruct (Z_lt_le_dec a (end_page + 1)) as [Hlt | Hle].
  - rewrite range_cons by lia. cbn [flat_map].
    rewrite (IH (Z.to_nat (end_page + 1 - (a + batch_size))))
      by lia.
    unfold batch_pages.
    destruct (Z_le_gt_dec (a + batch_size) (end_page + 1)) as [Hfull | Hcut].
    + rewrite Z.min_l by lia.
      replace (a + batch_size - 1 + 1) with (a + batch_size) by lia.
      symmetry. apply range1_app. lia.
    + rewrite Z.min_r by lia.
      rewrite (range1_empty (a + batch_size)) by lia.
      now rewrite app_nil_r.
  - rewrite range_empty, range1_empty by lia. reflexivity.
Qed.

End RangeFacts.

(** ** What a run without faults gathers *)

Module GatherFacts.

Import Trace TraceFacts JobShape JobFacts CrawlShape CrawlSteps LoopFacts.
Import RangeFacts.
Import MachineryPeteScraper.
Local Open Scope py_scope.

Lemma same_at_refl (p : Z) (w : World) : same_at p w w.
Proof. split; reflexivity. Qed.

Lemma same_at_trans (p : Z) (w1 w2 w3 : World) :
  same_at p w1 w2 -> same_at p w2 w3 -> same_at p w1 w3.
Proof. intros (H1 & H2) (H3 & H4). split; congruence. Qed.

Lemma job_records_local (env : Env) (p : Z) (w1 w2 : World) :
  same_at p w1 w2 ->
  job_records env w1 p = job_records env w2 p /\
  fails env w1 p = fails env w2 p /\
  same_at p (job_world env w1 p) (job_world env w2 p).
Proof.
  intros Hsame. destruct (job_local env p w1 w2 Hsame) as (Hfst & Hsnd).
  unfold fails, job_records, job_world. rewrite Hfst. auto.
Qed.

Lemma job_world_other (env : Env) (p q : Z) (w : World) :
  q <> p -> same_at q (job_world env w p) w.
Proof.
  intros Hq. destruct (job_frame env p w) as (Hc & _). exact (Hc q Hq).
Qed.

Lemma job_world_no_submit (env : Env) (p : Z) (w : World) :
  exists evs, trace (job_world env w p) = trace w ++ evs /\ submitted evs = [].
Proof.
  destruct (job_frame env p w) as (_ & _ & _ & _ & evs & Ht & _ & Hs & _).
  exists evs. auto.
Qed.

(** Collecting the future of a page that did not run yet. *)
Lemma gathered_collect (env : Env) (w0 : World) (ran sub : list Z) (p : Z)
      (c : Crawl) :
  gathered env w0 ran sub c -> ~ In p ran ->
  gathered env w0 (ran ++ [p]) sub (snd (collect_future env p c)).
Proof.
  intros (Hall & Hfailed & Hfresh & Hdone & evs & Ht & Hs) Hp.
  rewrite collect_future_spec. cbn [snd].
  destruct (job_records_local env p (world c) w0 (Hfresh p Hp))
    as (Hrec & Hfails & Hworld).
  split; [|split; [|split; [|split]]];
    cbn [all_results failed_pages world].
  - rewrite flat_map_app, Hall, Hrec. cbn. now rewrite app_nil_r.
  - rewrite filter_app, Hfailed, Hfails. cbn.
    destruct (fails env w0 p); reflexivity.
  - intros q Hq. assert (q <> p /\ ~ In q ran) as (Hqp & Hqran).
    { split; intro; apply Hq; apply in_or_app; [right; left|left]; auto. }
    eapply same_at_trans; [now apply job_world_other | now apply Hfresh].
  - intros q Hq. apply in_app_or in Hq. destruct Hq as [Hq | [<- | []]].
    + assert (q <> p) by congruence.
      eapply same_at_trans; [now apply job_world_other | now apply Hdone].
    + exact Hworld.
  - destruct (job_world_no_submit env p (world c)) as (evs' & Ht' & Hs').
    exists (evs ++ evs'). rewrite Ht', Ht, app_assoc, submitted_app, Hs, Hs'.
    now rewrite app_nil_r.
Qed.

(** A step that runs no job. *)
Lemma gathered_neutral (env : Env) (w0 : World) (ran sub sub' : list Z)
      (c c' : Crawl) :
  gathered env w0 ran sub c ->
  (forall q, same_at q (world c') (world c)) ->
  (exists evs, trace (world c') = trace (world c) ++ evs /\
               submitted evs = sub') ->
  all_results c' = all_results c ->
  failed_pages c' = failed_pages c ->
  gathered env w0 ran (sub ++ sub') c'.
Proof.
  intros (Hall & Hfailed & Hfresh & Hdone & evs & Ht & Hs) Hsame
         (evs' & Ht' & Hs') Hall' Hfailed'.
  split; [congruence|]. split; [congruence|]. split; [|split].
  - intros q Hq. eapply same_at_trans; [apply Hsame | now apply Hfresh].
  - intros q Hq. eapply same_at_trans; [apply Hsame | now apply Hdone].
  - exists (evs ++ evs'). rewrite Ht', Ht, app_assoc, submitted_app, Hs, Hs'.
    auto.
Qed.

Lemma collect_loop_gathers (env : Env) (w0 : World) (sub : list Z) :
  forall pages ran c,
    NoDup pages -> (forall p, In p pages -> ~ In p ran) ->
    gathered env w0 ran sub c ->
    exists c', for_each pages (collect_future env) c = (Val tt, c') /\
               gathered env w0 (ran ++ pages) sub c'.
Proof.
  induction pages as [|p pages IH]; intros ran c Hnd Hnew Hg.
  - exists c. rewrite app_nil_r. split; [reflexivity | exact Hg].
  - inversion Hnd as [|? ? Hp Hnd']; subst.
    cbn [for_each]. unfold bind.
    pose proof (gathered_collect env w0 ran sub p c Hg
                  (Hnew p (or_introl eq_refl))) as Hstep.
    rewrite collect_future_spec in *. cbn [snd] in Hstep.
    replace (ran ++ p :: pages) with ((ran ++ [p]) ++ pages)
      by (now rewrite <- app_assoc).
    apply IH; [exact Hnd' | | exact Hstep].
    intros q Hq Hin. apply in_app_or in Hin. destruct Hin as [Hin | [<- | []]].
    + apply (Hnew q (or_intror Hq) Hin).
    + exact (Hp Hq).
Qed.

Lemma submit_all_accepts (env : Env) (w0 : World) (ran : list Z) :
  (forall page, submit_raises env page = false) ->
  forall pages submitted sub c,
    gathered env w0 ran sub c ->
    exists c', submit_all env pages submitted c = (Val tt, c') /\
               gathered env w0 ran (sub ++ pages) c'.
Proof.
  intros Hok. induction pages as [|p pages IH]; intros submitted sub c Hg.
  - exists c. rewrite app_nil_r. split; [reflexivity | exact Hg].
  - cbn [submit_all]. rewrite Hok.
    unfold bind at 1. unfold on_world at 1, modify at 1.
    replace (sub ++ p :: pages) with ((sub ++ [p]) ++ pages)
      by (now rewrite <- app_assoc).
    apply IH. eapply gathered_neutral; [exact Hg | | | reflexivity..].
    + intros q. split; reflexivity.
    + exists [Submit p]. split; reflexivity.
Qed.

Lemma NoDup_app_disjoint {A : Type} (l1 l2 : list A) :
  NoDup (l1 ++ l2) -> forall a, In a l2 -> ~ In a l1.
Proof.
  induction l1 as [|x l1 IH]; intros Hnd a Ha2 Ha1; [destruct Ha1|].
  cbn [app] in Hnd. inversion Hnd as [|? ? Hx Hnd']; subst.
  destruct Ha1 as [<- | Ha1].
  - apply Hx. apply in_or_app. now right.
  - exact (IH Hnd' a Ha2 Ha1).
Qed.

Lemma in_flat_map_perm {A B : Type} (f g : A -> list B) (l : list A) (b : B) :
  (forall a, Permutation (f a) (g a)) ->
  In b (flat_map f l) -> In b (flat_map g l).
Proof.
  intros Hfg Hin. apply in_flat_map in Hin as (a & Ha & Hb).
  apply in_flat_map. exists a. split; [exact Ha|].
  eapply Permutation_in; [apply Hfg | exact Hb].
Qed.

Lemma flat_map_perm {A B : Type} (f g : A -> list B) (l : list A) :
  (forall a, Permutation (f a) (g a)) ->
  Permutation (flat_map f l) (flat_map g l).
Proof.
  intros Hfg. induction l as [|a l IH]; [constructor|].
  cbn [flat_map]. now apply Permutation_app.
Qed.

Lemma write_files_same_at (env : Env) (rs : list ListingData) (w : World)
      (q : Z) :
  same_at q (write_files env rs w) w.
Proof.
  unfold write_files. destruct (write_outcome_of env (writes w));
    split; reflexivity.
Qed.

Lemma save_if_any_gathered (env : Env) (w0 : World) (ran sub : list Z)
      (c : Crawl) :
  gathered env w0 ran sub c ->
  gathered env w0 ran sub (snd (save_if_any env c)).
Proof.
  intros Hg. rewrite save_if_any_spec. cbn [snd].
  destruct (all_results c) as [|r rs] eqn:Hall; [exact Hg|].
  rewrite <- (app_nil_r sub).
  eapply gathered_neutral; [exact Hg | | | now rewrite Hall | reflexivity].
  - intros q. apply write_files_same_at.
  - exists [Flush (r :: rs)]. cbn [world].
    rewrite FlushFacts.trace_write_files. split; reflexivity.
Qed.

(** One batch of a cooperative run: submit, collect, flush, sleep. *)
Lemma batch_gathers (env : Env) (w0 : World) (batch_size end_page : Z)
      (ran sub : list Z) (batch_start : Z) (c : Crawl) :
  cooperative env ->
  gathered env w0 ran sub c ->
  NoDup (sub ++ batch_pages batch_size end_page batch_start) ->
  (forall p, In p ran <-> In p sub) ->
  exists c',
    (run_batch env batch_start
       (Z.min (batch_start + batch_size - 1) end_page) ;;
     save_if_any env ;;
     on_world (log (Sleep 3 5))) c = (Val tt, c') /\
    gathered env w0
      (ran ++ completion_order env
                (batch_pages batch_size end_page batch_start))
      (sub ++ batch_pages batch_size end_page batch_start) c'.
Proof.
  intros (Hsub & Hord) Hg Hnd Hsame.
  set (pages := batch_pages batch_size end_page batch_start) in *.
  unfold run_batch. fold (batch_pages batch_size end_page batch_start).
  fold pages. unfold bind.
  destruct (submit_all_accepts env w0 ran Hsub pages [] sub c Hg)
    as (c1 & -> & Hc1).
  destruct (collect_loop_gathers env w0 (sub ++ pages)
              (completion_order env pages) ran c1)
    as (c2 & -> & Hc2).
  - eapply Permutation_NoDup; [symmetry; apply Hord|].
    now apply NoDup_app_remove_l in Hnd.
  - intros p Hp Hin. apply (Permutation_in _ (Hord _)) in Hp.
    apply Hsame in Hin. exact (NoDup_app_disjoint _ _ Hnd p Hp Hin).
  - exact Hc1.
  - pose proof (save_if_any_gathered env w0 _ _ c2 Hc2) as Hsave.
    rewrite save_if_any_spec in *. cbn [snd] in Hsave.
    unfold on_world, modify. eexists. split; [reflexivity|].
    rewrite <- (app_nil_r (sub ++ pages)).
    eapply gathered_neutral; [exact Hsave | | | reflexivity..].
    + intros q. split; reflexivity.
    + exists [Sleep 3 5]. split; reflexivity.
Qed.

(** The main pass of a cooperative run. *)
Lemma main_pass_gathers (env : Env) (w0 : World)
      (batch_size start_page end_page : Z) (c : Crawl) :
  (1 <= batch_size)%Z -> cooperative env ->
  gathered env w0 [] [] c ->
  exists c',
    main_pass env batch_size start_page end_page c = (Val tt, c') /\
    gathered env w0 (main_pass_order env batch_size start_page end_page)
             (Py.range1 start_page (end_page + 1)) c'.
Proof.
  intros Hsize Hcoop Hg.
  set (pages_of := batch_pages batch_size end_page).
  set (order_of := fun b => completion_order env (pages_of b)).
  set (batches := Py.range start_page (end_page + 1) batch_size).
  pose proof (batches_cover batch_size start_page end_page Hsize) as Hcover.
  fold pages_of batches in Hcover.
  pose proof (for_each_rule
                (fun batch_start =>
                   run_batch env batch_start
                     (Z.min (batch_start + batch_size - 1) end_page) ;;
                   save_if_any env ;;
                   on_world (log (Sleep 3 5)))
                (fun done c => gathered env w0 (flat_map order_of done)
                                        (flat_map pages_of done) c)
                (fun _ => False) batches [] c) as Hrule.
  cbn [app flat_map] in Hrule. unfold main_pass. fold batches.
  assert (Hbody : forall before b s,
             (exists rest, batches = before ++ b :: rest) ->
             gathered env w0 (flat_map order_of before)
                      (flat_map pages_of before) s ->
             match (run_batch env b (Z.min (b + batch_size - 1) end_page) ;;
                    save_if_any env ;; on_world (log (Sleep 3 5))) s with
             | (Val _, s') =>
                 gathered env w0 (flat_map order_of (before ++ [b]))
                          (flat_map pages_of (before ++ [b])) s'
             | (Exc, _) => False
             end).
  { intros before b s (rest & Hsplit) Hs.
    destruct (batch_gathers env w0 batch_size end_page
                (flat_map order_of before) (flat_map pages_of before) b s
                Hcoop Hs) as (s' & -> & Hs').
    - pose proof (range1_NoDup start_page (end_page + 1)) as Hall.
      rewrite <- Hcover, Hsplit, flat_map_app in Hall. cbn [flat_map] in Hall.
      rewrite app_assoc in Hall. now apply NoDup_app_remove_r in Hall.
    - intros p. split; apply in_flat_map_perm; intros a;
        [|symmetry]; apply (proj2 Hcoop).
    - rewrite !flat_map_app. cbn [flat_map]. rewrite !app_nil_r. exact Hs'. }
  specialize (Hrule Hbody Hg).
  destruct (for_each batches _ c) as [[[]|] c']; [|destruct Hrule].
  exists c'. split; [reflexivity|].
  unfold main_pass_order. fold pages_of order_of batches.
  rewrite <- Hcover. exact Hrule.
Qed.

Lemma main_pass_order_perm (env : Env) (batch_size start_page end_page : Z) :
  (1 <= batch_size)%Z -> cooperative env ->
  Permutation (main_pass_order env batch_size start_page end_page)
              (Py.range1 start_page (end_page + 1)).
Proof.
  intros Hsize (_ & Hord).
  rewrite <- (batches_cover batch_size start_page end_page Hsize).
  apply flat_map_perm. intros b. apply Hord.
Qed.

Lemma retry_page_retried (env : Env) (w0 : World) (ran again sub : list Z)
      (p : Z) (c : Crawl) :
  retried env w0 ran again sub c -> In p ran -> ~ In p again ->
  retried env w0 ran (again ++ [p]) sub (snd (retry_page env p c)).
Proof.
  intros (Hall & Hfailed & Hleft & evs & Ht & Hs) Hp Hnew.
  rewrite retry_page_spec. cbn [snd].
  assert (Hsame : same_at p (log (Sleep 3 5) (world c)) (job_world env w0 p))
    by (apply (Hleft p Hp Hnew)).
  destruct (job_records_local env p _ _ Hsame) as (Hrec & _ & _).
  split; [|split; [|split]]; cbn [all_results failed_pages world].
  - rewrite Hall, Hrec, flat_map_app. cbn [flat_map].
    unfold retry_records. now rewrite app_nil_r, app_assoc.
  - exact Hfailed.
  - intros q Hq Hnot. assert (q <> p /\ ~ In q again) as (Hqp & Hqa).
    { split; intro; apply Hnot; apply in_or_app; [right; left|left]; auto. }
    eapply same_at_trans; [now apply job_world_other|].
    apply (Hleft q Hq Hqa).
  - destruct (job_world_no_submit env p (log (Sleep 3 5) (world c)))
      as (evs' & Ht' & Hs').
    exists (evs ++ [Sleep 3 5] ++ evs').
    rewrite Ht', trace_log, Ht, <- !app_assoc, !submitted_app, Hs, Hs'.
    cbn [app submitted flat_map]. now rewrite app_nil_r.
Qed.

Lemma retry_loop_retried (env : Env) (w0 : World) (ran sub : list Z) :
  forall pages again c,
    NoDup pages -> incl pages ran -> (forall p, In p pages -> ~ In p again) ->
    retried env w0 ran again sub c ->
    exists c', for_each pages (retry_page env) c = (Val tt, c') /\
               retried env w0 ran (again ++ pages) sub c'.
Proof.
  induction pages as [|p pages IH]; intros again c Hnd Hincl Hnew Hr.
  - exists c. rewrite app_nil_r. split; [reflexivity | exact Hr].
  - inversion Hnd as [|? ? Hp Hnd']; subst.
    cbn [for_each]. unfold bind.
    pose proof (retry_page_retried env w0 ran again sub p c Hr
                  (Hincl p (or_introl eq_refl))
                  (Hnew p (or_introl eq_refl))) as Hstep.
    rewrite retry_page_spec in *. cbn [snd] in Hstep.
    replace (again ++ p :: pages) with ((again ++ [p]) ++ pages)
      by (now rewrite <- app_assoc).
    apply IH; [exact Hnd' | | | exact Hstep].
    + intros q Hq. apply Hincl. now right.
    + intros q Hq Hin. apply in_app_or in Hin.
      destruct Hin as [Hin | [<- | []]].
      * apply (Hnew q (or_intror Hq) Hin).
      * exact (Hp Hq).
Qed.

Lemma flat_map_filter {A B : Type} (keep : A -> bool) (f : A -> list B)
      (l : list A) :
  flat_map f (filter keep l) =
  flat_map (fun a => if keep a then f a else []) l.
Proof.
  induction l as [|a l IH]; [reflexivity|].
  cbn [filter flat_map]. destruct (keep a); cbn [flat_map app]; now rewrite IH.
Qed.

Lemma flat_map_both {A B : Type} (f g : A -> list B) (l : list A) :
  Permutation (flat_map f l ++ flat_map g l)
              (flat_map (fun a => f a ++ g a) l).
Proof.
  induction l as [|a l IH]; [constructor|].
  cbn [flat_map]. rewrite <- !app_assoc. apply Permutation_app_head.
  rewrite <- IH. rewrite !app_assoc. apply Permutation_app_tail.
  apply Permutation_app_comm.
Qed.

(** A cooperative run, start to end. *)
Lemma cooperative_run (env : Env) (batch_size start_page end_page : Z)
      (c : Crawl) :
  (1 <= batch_size)%Z -> cooperative env ->
  exists c' evs,
    scrape_pages_with env batch_size start_page end_page c = (Val tt, c') /\
    trace (world c') = trace (world c) ++ evs /\
    submitted evs = Py.range1 start_page (end_page + 1) /\
    failed_pages c' =
      filter (fails env (world c))
             (main_pass_order env batch_size start_page end_page) /\
    all_results c' =
      flat_map (job_records env (world c))
               (main_pass_order env batch_size start_page end_page) ++
      flat_map (retry_records env (world c))
               (filter (fails env (world c))
                       (main_pass_order env batch_size start_page end_page)).
Proof.
  intros Hsize Hcoop.
  set (w0 := world c).
  set (ran := main_pass_order env batch_size start_page end_page).
  unfold scrape_pages_with, try_except.
  unfold bind at 1. unfold fresh_locals at 1, modify at 1.
  set (c0 := {| all_results := []; failed_pages := [];
                results := Own (self_results c); world := world c |}).
  assert (Hg0 : gathered env w0 [] [] c0).
  { split; [reflexivity|]. split; [reflexivity|].
    split; [intros q _; split; reflexivity|].
    split; [intros p []|]. exists []. cbn. now rewrite app_nil_r. }
  destruct (main_pass_gathers env w0 batch_size start_page end_page c0
              Hsize Hcoop Hg0) as (c1 & Hmain & Hg1).
  unfold bind at 1. rewrite Hmain. fold ran in Hg1.
  destruct Hg1 as (Hall1 & Hfailed1 & _ & Hdone1 & Hevs1).
  assert (Hr1 : retried env w0 ran [] (Py.range1 start_page (end_page + 1)) c1).
  { split; [cbn; now rewrite app_nil_r|]. split; [exact Hfailed1|].
    split; [intros p Hp _; now apply Hdone1 | exact Hevs1]. }
  assert (Hnd : NoDup ran).
  { eapply Permutation_NoDup;
      [symmetry; apply main_pass_order_perm; assumption|].
    apply range1_NoDup. }
  destruct (retry_loop_retried env w0 ran (Py.range1 start_page (end_page + 1))
              (filter (fails env w0) ran) [] c1)
    as (c2 & Hretry & Hr2).
  { now apply NoDup_filter. }
  { intros p Hp. now apply filter_In in Hp. }
  { intros p _ []. }
  { exact Hr1. }
  assert (Hpass : retry_pass env c1 = (Val tt, c2)).
  { unfold retry_pass, bind, gets. rewrite Hfailed1.
    destruct (filter (fails env w0) ran) eqn:Hf; [|exact Hretry].
    cbn in Hretry. congruence. }
  unfold bind at 1. rewrite Hpass. rewrite save_if_any_spec.
  destruct Hr2 as (Hall2 & Hfailed2 & _ & evs & Ht & Hs).
  cbn [app] in Hall2.
  destruct (all_results c2) as [|r rs] eqn:Hacc.
  - exists c2, evs. rewrite Hacc. repeat split; assumption.
  - eexists. exists (evs ++ [Flush (r :: rs)]).
    split; [reflexivity|]. cbn [world all_results failed_pages].
    rewrite FlushFacts.trace_write_files, Ht, <- app_assoc, submitted_app, Hs.
    cbn. rewrite app_nil_r. repeat split; assumption.
Qed.

Lemma filter_perm {A : Type} (keep : A -> bool) (l l' : list A) :
  Permutation l l' -> Permutation (filter keep l) (filter keep l').
Proof.
  induction 1 as [|x l l' _ IH|x y l|l l1 l2 _ IH1 _ IH2]; cbn [filter].
  - constructor.
  - destruct (keep x); [now constructor | exact IH].
  - destruct (keep x), (keep y); try apply Permutation_refl. constructor.
  - etransitivity; eassumption.
Qed.

(** What a cooperative run gathers is, up to order, what its jobs
    return one by one, and the pages it marks are those whose
    main-pass job hands over no record. *)
Lemma cooperative_run_union (env : Env) (batch_size start_page end_page : Z)
      (c : Crawl) :
  (1 <= batch_size)%Z -> cooperative env ->
  exists c' evs,
    scrape_pages_with env batch_size start_page end_page c = (Val tt, c') /\
    trace (world c') = trace (world c) ++ evs /\
    submitted evs = Py.range1 start_page (end_page + 1) /\
    Permutation (failed_pages c')
      (filter (fails env (world c)) (Py.range1 start_page (end_page + 1))) /\
    Permutation (all_results c')
      (union_of_isolated_jobs env (world c) start_page end_page).
Proof.
  intros Hsize Hcoop.
  destruct (cooperative_run env batch_size start_page end_page c Hsize Hcoop)
    as (c' & evs & Hrun & Ht & Hs & Hfailed & Hall).
  pose proof (main_pass_order_perm env batch_size start_page end_page
                Hsize Hcoop) as Hperm.
  exists c', evs. split; [exact Hrun|]. split; [exact Ht|].
  split; [exact Hs|]. split.
  - rewrite Hfailed. now apply filter_perm.
  - rewrite Hall, flat_map_filter. unfold union_of_isolated_jobs.
    rewrite <- flat_map_both. apply Permutation_app.
    + now apply Permutation_flat_map.
    + now apply Permutation_flat_map.
Qed.

End GatherFacts.

(** ** The page fetch job seen by the orchestrator *)

Module JobClaims.

Import Trace TraceFacts JobShape JobFacts CrawlShape CrawlSteps.
Import CrawlScenarios.
Import MachineryPeteScraper.

(** C6 as stated fails: when Chrome cannot be started, the constructor
    of [PageScraper] raises and [_scrape_single_page] passes the
    exception on to the orchestrator. *)
Lemma job_raises_when_chrome_fails :
  _scrape_single_page no_chrome 5 new_world = (Exc, count_setup 5 new_world).
Proof. reflexivity. Qed.

(** C6, amended.  The job of a page raises to the orchestrator exactly
    when [setup_driver] raises inside the constructor, which runs
    before the retry loop.  Otherwise [scrape_page] returns a list: its
    attempts are numbered 1, 2, ... and there are at most three, a 2 to
    5 second sleep lies between one attempt and the next, and when the
    third attempt raises too the list is empty.  In both cases
    [collect_future] completes, and a job that raised or handed over no
    record gets its page appended to [failed_pages]. *)
Theorem job_raises_only_from_constructor (env : Env) (page_num : Z)
        (c : Crawl) :
  match setup_driver_outcome env page_num (setups (world c) page_num) with
  | ChromeStarted | FallbackStarted =>
      exists rs w' evs,
        _scrape_single_page env page_num (world c)
          = (Val (PageScraper.PyList rs), w') /\
        trace w' = trace (world c) ++ evs /\
        (exists n, attempts evs = seq 1 n /\
                   1 <= n /\ n <= PageScraper.max_retries) /\
        sleeps_between_attempts evs /\
        (In PageScraper.max_retries (caught evs) -> rs = [])
  | StealthFailed | ChromeFailed =>
      exists w', _scrape_single_page env page_num (world c) = (Exc, w')
  end /\
  exists c',
    collect_future env page_num c = (Val tt, c') /\
    all_results c' = all_results c ++ job_records env (world c) page_num /\
    (job_records env (world c) page_num = [] ->
     failed_pages c' = failed_pages c ++ [page_num]).
Proof.
  split.
  - pose proof (init_spec env page_num (world c)) as Hnew.
    unfold _scrape_single_page.
    destruct (setup_driver_outcome env page_num (setups (world c) page_num));
      destruct Hnew as (j & Hnew & Hrest); rewrite Hnew;
      try (eexists; reflexivity).
    all: destruct Hrest as (Hd & Hnext & Htr).
    all: destruct (scrape_page_loop_spec env page_num
                     (S PageScraper.max_retries) 0 j)
           as (rs & j' & evs & Hrun & Hdid);
      [ unfold PageScraper.max_retries; lia | lia
      | intros sid Hsid; rewrite Hd in Hsid; inversion Hsid; lia | ].
    all: unfold PageScraper.scrape_page; rewrite Hrun.
    all: destruct Hdid as [_ Htr' (n & Hatt & Hn1 & Hn2) _ _ _ _ Hpace Hex].
    all: exists rs, (PageScraper.world j'),
           ([Open (next_session (world c))] ++ evs).
    all: split; [reflexivity|].
    all: split; [rewrite Htr', Htr; now rewrite <- app_assoc|].
    all: split; [exists n; rewrite attempts_app; cbn; auto|].
    all: split; [unfold sleeps_between_attempts;
                 rewrite pace_after_app; cbn [pace_after fold_left pace_step];
                 fold (pace_after NotStarted evs);
                 rewrite (Hpace NotStarted (or_introl eq_refl)); discriminate|].
    all: rewrite caught_app; cbn [caught flat_map app]; exact Hex.
  - rewrite collect_future_spec. eexists. split; [reflexivity|].
    cbn [all_results failed_pages]. split; [reflexivity|].
    intros Hnone. unfold fails. now rewrite Hnone.
Qed.

End JobClaims.

(** ** Whole runs *)

Module RunClaims.

Import Trace TraceFacts JobShape JobFacts CrawlShape CrawlSteps.
Import FlushFacts RangeFacts GatherFacts CrawlScenarios.
Import MachineryPeteScraper.

Lemma grows_nth (fl : list (list ListingData)) :
  grows fl ->
  forall i a b,
    nth_error fl i = Some a -> nth_error fl (S i) = Some b ->
    exists more, b = a ++ more.
Proof.
  induction fl as [|x fl IH]; intros Hgrows i a b Ha Hb.
  - destruct i; discriminate.
  - destruct fl as [|y fl]; [destruct i; discriminate|].
    destruct Hgrows as (Hxy & Hgrows).
    destruct i as [|i].
    + cbn in Ha, Hb. inversion Ha; inversion Hb; subst. exact Hxy.
    + apply (IH Hgrows i a b); assumption.
Qed.

(** The flushes of a run, returned or re-raised, fit what it gathered. *)
Lemma run_flushes_fit (env : Env) (batch_size start_page end_page : Z)
      (c : Crawl) :
  exists r c' evs,
    scrape_pages_with env batch_size start_page end_page c = (r, c') /\
    trace (world c') = trace (world c) ++ evs /\
    flushes_fit (all_results c') (flushed evs) /\
    (flushed evs = [] ->
     json_file (world c') = json_file (world c) /\
     csv_file (world c') = csv_file (world c) /\
     writes (world c') = writes (world c)).
Proof.
  pose proof (scrape_pages_with_ends env batch_size start_page end_page c)
    as Hend.
  destruct (scrape_pages_with env batch_size start_page end_page c)
    as [[[]|] c'].
  - destruct Hend as (evs & Ht & _ & Hfit & _ & Hfiles).
    exists (Val tt), c', evs. auto.
  - destruct Hend as (before & after & Ht & _ & Hf & Hfit & _ & Hfiles).
    exists Exc, c', (before ++ Fault :: after).
    assert (Hfl : flushed (before ++ Fault :: after) = flushed before).
    { rewrite flushed_app. cbn [flushed flat_map app].
      fold (flushed after). rewrite Hf. now rewrite app_nil_r. }
    rewrite Hfl. auto.
Qed.

(** C3.  In every run, each flush hands [save_results] the list of the
    flush before it with zero or more records added at its end: every
    record flushed before is flushed again, the count never drops, and
    every flush is an initial part of what the run has gathered at its
    end.  The flushes are those after each batch and the final one. *)
Theorem flushes_only_grow (env : Env) (batch_size start_page end_page : Z)
        (c : Crawl) :
  exists r c' evs,
    scrape_pages_with env batch_size start_page end_page c = (r, c') /\
    trace (world c') = trace (world c) ++ evs /\
    (forall i before after,
        nth_error (flushed evs) i = Some before ->
        nth_error (flushed evs) (S i) = Some after ->
        (exists more, after = before ++ more) /\
        incl before after /\
        List.length before <= List.length after) /\
    (forall rs, In rs (flushed evs) ->
                exists more, all_results c' = rs ++ more).
Proof.
  destruct (run_flushes_fit env batch_size start_page end_page c)
    as (r & c' & evs & Hrun & Ht & (Hgrows & Hall) & _).
  exists r, c', evs. split; [exact Hrun|]. split; [exact Ht|]. split.
  - intros i a b Ha Hb.
    destruct (grows_nth _ Hgrows i a b Ha Hb) as (more & ->).
    split; [now exists more|]. split.
    + intros x Hx. apply in_or_app. now left.
    + rewrite length_app. lia.
  - intros rs Hin. rewrite Forall_forall in Hall.
    now destruct (Hall rs Hin).
Qed.

(** C10.  [save_results] called with [self.results] empty changes
    nothing.  In every run, no flush is made with an empty list; and
    when the run ends having gathered no record, it made no flush at
    all and the two output files are what they were before the run. *)
Theorem flush_needs_records (env : Env) (batch_size start_page end_page : Z)
        (c : Crawl) :
  (forall c0, self_results c0 = [] -> save_results env c0 = (Val tt, c0)) /\
  exists r c' evs,
    scrape_pages_with env batch_size start_page end_page c = (r, c') /\
    trace (world c') = trace (world c) ++ evs /\
    (forall rs, In rs (flushed evs) -> rs <> []) /\
    (all_results c' = [] ->
     flushed evs = [] /\
     json_file (world c') = json_file (world c) /\
     csv_file (world c') = csv_file (world c)).
Proof.
  split.
  - intros c0 Hnone. unfold save_results, bind, gets, ret.
    now rewrite Hnone.
  - destruct (run_flushes_fit env batch_size start_page end_page c)
      as (r & c' & evs & Hrun & Ht & (Hgrows & Hall) & Hfiles).
    exists r, c', evs. split; [exact Hrun|]. split; [exact Ht|].
    rewrite Forall_forall in Hall. split.
    + intros rs Hin. now destruct (Hall rs Hin).
    + intros Hnone.
      assert (Hfl : flushed evs = []).
      { destruct (flushed evs) as [|rs fl] eqn:Hfl; [reflexivity|].
        destruct (Hall rs (or_introl eq_refl)) as (Hne & more & Hpre).
        rewrite Hnone in Hpre. destruct rs; [congruence | discriminate]. }
      split; [exact Hfl|]. destruct (Hfiles Hfl) as (Hj & Hc & _). auto.
Qed.

(** A run in which every element wait times out: every page is
    marked, nothing is gathered, nothing is flushed, no file appears,
    and the run returns. *)
Example all_pages_time_out :
  exists c',
    scrape_pages all_time_out 1 4 (__init__ new_world) = (Val tt, c') /\
    all_results c' = [] /\
    failed_pages c' = [1; 2; 3; 4]%Z /\
    flushed (trace (world c')) = [] /\
    json_file (world c') = Absent /\
    csv_file (world c') = Absent.
Proof.
  eexists. split; [vm_compute; reflexivity|].
  vm_compute. repeat split.
Qed.

(** C4 as stated fails.  The executor refuses the job of page 3, so
    the loop of [scrape_pages] raises while six records are gathered
    that the failed first flush left in no file; the exception is
    re-raised with nothing after the fault in the trace: no flush is
    made on the way out, and no output file exists. *)
Lemma fatal_exit_makes_no_flush :
  exists c',
    scrape_pages refuses_page_three 1 4 (__init__ new_world) = (Exc, c') /\
    after_fault (trace (world c')) = Some [] /\
    List.length (flushed (trace (world c'))) = 1 /\
    List.length (all_results c') = 6 /\
    json_file (world c') = Absent /\
    csv_file (world c') = Absent.
Proof.
  eexists. split; [vm_compute; reflexivity|].
  vm_compute. repeat split.
Qed.

(** C4, amended.  [scrape_pages] re-raises the exception of its loop
    as it met it, with no flush on the way out: the events after the
    fault hold no flush.  What the files can hold is what the flushes
    before the fault wrote, and the last of them was handed
    everything gathered when the fault occurred (there was none when
    nothing was gathered).  A run that returns met no fault. *)
Theorem fatal_exit_reraises_without_flush (env : Env)
        (batch_size start_page end_page : Z) (c : Crawl) :
  exists r c',
    scrape_pages_with env batch_size start_page end_page c = (r, c') /\
    match r with
    | Exc =>
        exists before after,
          trace (world c') = trace (world c) ++ before ++ Fault :: after /\
          ~ In Fault before /\
          flushed after = [] /\
          flushed_up_to_date (all_results c') (flushed before)
    | Val _ =>
        exists evs,
          trace (world c') = trace (world c) ++ evs /\
          ~ In Fault evs /\
          flushed_up_to_date (all_results c') (flushed evs)
    end.
Proof.
  pose proof (scrape_pages_with_ends env batch_size start_page end_page c)
    as Hend.
  destruct (scrape_pages_with env batch_size start_page end_page c)
    as [[[]|] c'].
  - exists (Val tt), c'. split; [reflexivity|].
    destruct Hend as (evs & Ht & Hn & _ & Hsync & _).
    exists evs. auto.
  - exists Exc, c'. split; [reflexivity|].
    destruct Hend as (before & after & Ht & Hn & Hf & _ & Hsync & _).
    exists before, after. auto.
Qed.

(** C1.  For every batch size of at least 1 and every page range, in a
    run in which no submit is refused and every batch completes in
    some order of its pages: [scrape_pages] returns, the jobs submitted
    are those of the pages of the range, each once and in page order,
    and the records gathered are, up to order, the union of the records
    that the jobs return when each is run alone -- one job per page and
    one retry job per page whose first job handed over no record.  The
    main pass alone gathers, up to order, the records of the one job
    per page. *)
Theorem batching_preserves_job_results (env : Env)
        (batch_size start_page end_page : Z) (c : Crawl) :
  (1 <= batch_size)%Z -> cooperative env ->
  (exists c' evs,
      scrape_pages_with env batch_size start_page end_page c = (Val tt, c') /\
      trace (world c') = trace (world c) ++ evs /\
      submitted evs = Py.range1 start_page (end_page + 1) /\
      NoDup (submitted evs) /\
      Permutation (all_results c')
        (union_of_isolated_jobs env (world c) start_page end_page)) /\
  (exists c1,
      main_pass env batch_size start_page end_page (snd (fresh_locals c))
        = (Val tt, c1) /\
      Permutation (all_results c1)
        (union_of_isolated_main_jobs env (world c) start_page end_page)).
Proof.
  intros Hsize Hcoop. split.
  - destruct (cooperative_run_union env batch_size start_page end_page c
                Hsize Hcoop) as (c' & evs & Hrun & Ht & Hs & _ & Hall).
    exists c', evs. rewrite Hs. repeat split; auto. apply range1_NoDup.
  - destruct (main_pass_gathers env (world c) batch_size start_page end_page
                (snd (fresh_locals c)) Hsize Hcoop) as (c1 & Hmain & Hg).
    + split; [reflexivity|]. split; [reflexivity|].
      split; [intros q _; split; reflexivity|].
      split; [intros p []|]. exists []. cbn. now rewrite app_nil_r.
    + exists c1. split; [exact Hmain|].
      destruct Hg as (-> & _). unfold union_of_isolated_main_jobs.
      apply Permutation_flat_map.
      now apply main_pass_order_perm.
Qed.

Lemma calm_cooperative : cooperative calm.
Proof. split; [reflexivity | intros pages; apply Permutation_refl]. Qed.

Lemma batching_preserves_job_results_witness :
  (exists c' evs,
      scrape_pages_with calm 2 1 4 (__init__ new_world) = (Val tt, c') /\
      trace (world c') = trace (world (__init__ new_world)) ++ evs /\
      submitted evs = Py.range1 1 (4 + 1) /\
      NoDup (submitted evs) /\
      Permutation (all_results c')
        (union_of_isolated_jobs calm (world (__init__ new_world)) 1 4)) /\
  (exists c1,
      main_pass calm 2 1 4 (snd (fresh_locals (__init__ new_world)))
        = (Val tt, c1) /\
      Permutation (all_results c1)
        (union_of_isolated_main_jobs calm (world (__init__ new_world)) 1 4)).
Proof.
  apply (batching_preserves_job_results calm 2 1 4 (__init__ new_world)).
  - lia.
  - exact calm_cooperative.
Defined.

(** C2 as stated fails: with the futures completing in page order the
    run ends with 9 records, not 11, and with page 3 in [failed_pages]. *)
Lemma page_three_yields_nothing :
  exists c',
    scrape_pages (page_three_times_out (fun pages => pages)) 1 4
                 (__init__ new_world) = (Val tt, c') /\
    List.length (all_results c') = 9 /\
    List.length (all_results c') <> 11 /\
    failed_pages c' = [3%Z] /\
    failed_pages c' <> [].
Proof.
  eexists. split; [vm_compute; reflexivity|].
  vm_compute. repeat split; discriminate.
Qed.

(** C2, amended.  Range 1 to 4, whatever the order in which the
    futures of a batch complete.  When the element wait of page 3
    times out on the first two visits, each time-out ends a whole job
    with an empty list -- the job of the main pass and then the job of
    the retry pass -- so the third visit never takes place: the run
    ends with 3+3+3 = 9 records and [failed_pages] is [3], since no
    page is ever taken off that list.  When instead the first two
    visits of page 3 end with [driver.get] raising, the retry loop of
    the one job makes the third visit: the run ends with 3+3+2+3 = 11
    records and [failed_pages] is empty. *)
Theorem page_three_scenario (order : list Z -> list Z) :
  (forall pages, Permutation (order pages) pages) ->
  (exists c',
      scrape_pages (page_three_times_out order) 1 4 (__init__ new_world)
        = (Val tt, c') /\
      List.length (all_results c') = 9 /\
      failed_pages c' = [3%Z]) /\
  (exists c',
      scrape_pages (page_three_raises order) 1 4 (__init__ new_world)
        = (Val tt, c') /\
      List.length (all_results c') = 11 /\
      failed_pages c' = []).
Proof.
  intros Horder. split.
  - destruct (cooperative_run_union (page_three_times_out order) 2 1 4
                (__init__ new_world))
      as (c' & evs & Hrun & _ & _ & Hfailed & Hall);
      [lia | split; [reflexivity | exact Horder] |].
    exists c'. split; [exact Hrun|]. split.
    + rewrite (Permutation_length Hall). vm_compute. reflexivity.
    + assert (Hmarked :
                filter (fails (page_three_times_out order)
                              (world (__init__ new_world)))
                       (Py.range1 1 (4 + 1)) = [3%Z])
        by (vm_compute; reflexivity).
      rewrite Hmarked in Hfailed.
      now apply Permutation_sym, Permutation_length_1_inv in Hfailed.
  - destruct (cooperative_run_union (page_three_raises order) 2 1 4
                (__init__ new_world))
      as (c' & evs & Hrun & _ & _ & Hfailed & Hall);
      [lia | split; [reflexivity | exact Horder] |].
    exists c'. split; [exact Hrun|]. split.
    + rewrite (Permutation_length Hall). vm_compute. reflexivity.
    + assert (Hmarked :
                filter (fails (page_three_raises order)
                              (world (__init__ new_world)))
                       (Py.range1 1 (4 + 1)) = [])
        by (vm_compute; reflexivity).
      rewrite Hmarked in Hfailed.
      now apply Permutation_sym, Permutation_nil in Hfailed.
Qed.

Lemma page_three_scenario_witness :
  (exists c',
      scrape_pages (page_three_times_out (@rev Z)) 1 4 (__init__ new_world)
        = (Val tt, c') /\
      List.length (all_results c') = 9 /\
      failed_pages c' = [3%Z]) /\
  (exists c',
      scrape_pages (page_three_raises (@rev Z)) 1 4 (__init__ new_world)
        = (Val tt, c') /\
      List.length (all_results c') = 11 /\
      failed_pages c' = []).
Proof.
  apply (page_three_scenario (@rev Z)).
  intros pages. apply Permutation_sym, Permutation_rev.
Defined.

End RunClaims.

(** * Further properties *)

(** ** The identity pool *)

Module PoolExtras.

Import ProxyRotator PoolScenarios PoolUse PoolFacts.

Lemma validate_spec (probe : string -> bool) :
  forall cands acc,
    List.length acc < 10 ->
    List.length (validate probe cands acc) <= 10 /\
    forall p, In p (validate probe cands acc) ->
              In p acc \/
              (probe p = true /\ exists c, In c cands /\ p = Py.strip c).
Proof.
  induction cands as [|c cands IH]; intros acc Hacc.
  - cbn. split; [lia | auto].
  - cbn [validate]. destruct (probe (Py.strip c)) eqn:Hprobe.
    + destruct (10 <=? List.length (acc ++ [Py.strip c])) eqn:Hfull.
      * rewrite length_app in *. cbn [List.length] in *. split; [lia|].
        intros p Hp. apply in_app_or in Hp. destruct Hp as [Hp | [<- | []]].
        -- now left.
        -- right. split; [exact Hprobe|]. exists c. split; [now left | reflexivity].
      * apply Nat.leb_gt in Hfull.
        destruct (IH (acc ++ [Py.strip c]) Hfull) as (Hlen & Hin).
        split; [exact Hlen|]. intros p Hp.
        destruct (Hin p Hp) as [Hp' | (Hpr & c' & Hc' & ->)].
        -- apply in_app_or in Hp'. destruct Hp' as [Hp' | [<- | []]].
           ++ now left.
           ++ right. split; [exact Hprobe|]. exists c.
              split; [now left | reflexivity].
        -- right. split; [exact Hpr|]. exists c'. split; [now right | reflexivity].
    + destruct (IH acc Hacc) as (Hlen & Hin). split; [exact Hlen|].
      intros p Hp. destruct (Hin p Hp) as [Hp' | (Hpr & c' & Hc' & ->)].
      * now left.
      * right. split; [exact Hpr|]. exists c'. split; [now right | reflexivity].
Qed.

Lemma refresh_result (net : Net) (s : t) :
  lock s = false ->
  exists s',
    update_proxies net s = Returns tt s' /\
    List.length (proxies s') <= 10 /\
    (forall p, In p (proxies s') ->
               test_proxy net p = true /\
               exists c, In c (candidates net) /\ p = Py.strip c) /\
    current_index s' = 0 /\
    last_update s' = now_refreshed net /\
    lock s' = false.
Proof.
  intros Hfree. unfold update_proxies, with_lock. rewrite Hfree.
  eexists. split; [reflexivity|].
  cbn [proxies current_index last_update lock set_lock].
  destruct (validate_spec (test_proxy net) (candidates net) [])
    as (Hlen & Hin); [cbn; lia|].
  split; [exact Hlen|]. split; [|auto].
  intros p Hp. destruct (Hin p Hp) as [[] | H]. exact H.
Qed.



Lemma recent_fresh (net : Net) (s : t) :
  recent s net -> needs_refresh net s = false \/ proxies s = [].
Proof.
  intros Hq. unfold needs_refresh. destruct (proxies s); [now right|].
  left. exact Hq.
Qed.

(** X2.  From a pool whose index points into its list -- as a new
    pool and every refresh leave it -- [get_proxy] never raises
    [IndexError] and never returns [None]: either it blocks on a
    refresh, or it returns an entry of the pool, leaves the list and
    the time of the last refresh as they were and the index within the
    list, with the lock free again. *)
Theorem get_proxy_keeps_index_in_range (net : Net) (s : t) :
  lock s = false -> index_in_range s ->
  get_proxy net s = Blocks (set_lock true s) \/
  exists p s',
    get_proxy net s = Returns (Some p) s' /\
    In p (proxies s) /\
    proxies s' = proxies s /\
    last_update s' = last_update s /\
    lock s' = false /\
    index_in_range s'.
Proof.
  intros Hfree Hrange. destruct (needs_refresh net s) eqn:Hneed.
  - left. now apply get_proxy_refresh_blocks.
  - right. destruct Hrange as [Hnone | Hlt].
    + unfold needs_refresh in Hneed. rewrite Hnone in Hneed. discriminate.
    + destruct (nth_error (proxies s) (current_index s)) as [p|] eqn:Hnth;
        [|apply nth_error_None in Hnth; lia].
      exists p. eexists. split; [now apply get_proxy_fresh|].
      cbn [proxies last_update lock current_index]. split.
      * eapply nth_error_In. exact Hnth.
      * repeat split. right. cbn [proxies current_index].
        apply Nat.mod_upper_bound. lia.
Qed.

Lemma get_proxy_keeps_index_in_range_witness :
  get_proxy soon_after three_proxies = Blocks (set_lock true three_proxies) \/
  exists p s',
    get_proxy soon_after three_proxies = Returns (Some p) s' /\
    In p (proxies three_proxies) /\
    proxies s' = proxies three_proxies /\
    last_update s' = last_update three_proxies /\
    lock s' = false /\
    index_in_range s'.
Proof.
  apply (get_proxy_keeps_index_in_range soon_after three_proxies).
  - reflexivity.
  - right. cbn. lia.
Defined.

Lemma get_proxy_each_steps :
  forall nets s,
    lock s = false -> proxies s <> [] ->
    current_index s < List.length (proxies s) ->
    Forall (recent s) nets ->
    get_proxy_each nets s =
    (map (fun j => nth ((current_index s + j) mod List.length (proxies s))
                       (proxies s) "")
         (seq 0 (List.length nets)),
     {| proxies := proxies s;
        current_index :=
          (current_index s + List.length nets) mod List.length (proxies s);
        lock := false; last_update := last_update s;
        update_interval := update_interval s |}).
Proof.
  induction nets as [|net nets IH]; intros s Hfree Hne Hidx Hrecent.
  - cbn. rewrite Nat.add_0_r, Nat.mod_small by exact Hidx.
    destruct s; cbn in *. now rewrite Hfree.
  - inversion Hrecent as [|? ? Hnet Hrest]; subst.
    cbn [get_proxy_each].
    destruct (nth_error (proxies s) (current_index s)) as [p|] eqn:Hnth;
      [|apply nth_error_None in Hnth; lia].
    destruct (recent_fresh net s Hnet) as [Hfresh | Hempty];
      [|contradiction].
    rewrite (get_proxy_fresh net s p Hfree Hfresh Hnth).
    set (n := List.length (proxies s)) in *.
    rewrite IH; cbn [proxies current_index lock last_update update_interval].
    + fold n. cbn [List.length seq map]. f_equal.
      * f_equal.
        -- rewrite Nat.add_0_r, Nat.mod_small by exact Hidx.
           symmetry. now apply nth_error_nth.
        -- rewrite <- seq_shift, map_map. apply map_ext. intros j.
           f_equal. rewrite Nat.Div0.add_mod_idemp_l. f_equal. lia.
      * f_equal. rewrite Nat.Div0.add_mod_idemp_l. f_equal. lia.
    + reflexivity.
    + exact Hne.
    + apply Nat.mod_upper_bound. unfold n. destruct (proxies s); [congruence | cbn; lia].
    + exact Hrest.
Qed.

Lemma map_nth_seq (l : list string) :
  map (fun j => nth j l "") (seq 0 (List.length l)) = l.
Proof.
  induction l as [|x l IH]; [reflexivity|].
  cbn [List.length seq map nth]. f_equal.
  rewrite <- seq_shift, map_map. exact IH.
Qed.

Lemma rotation_by_index (l : list string) (i : nat) :
  i < List.length l ->
  map (fun j => nth ((i + j) mod List.length l) l "") (seq 0 (List.length l))
  = skipn i l ++ firstn i l.
Proof.
  intros Hi. set (n := List.length l).
  assert (Hseq : seq 0 n = seq 0 (n - i) ++ seq (0 + (n - i)) i)
    by (rewrite <- seq_app; f_equal; lia).
  rewrite Hseq, map_app. f_equal.
  - rewrite <- (map_nth_seq (skipn i l)) at 1.
    rewrite length_skipn. fold n. apply map_ext_in.
    intros j Hj. apply in_seq in Hj.
    rewrite Nat.mod_small by lia.
    rewrite <- (firstn_skipn i l) at 1.
    rewrite app_nth2; rewrite length_firstn, Nat.min_l by (fold n; lia);
      [f_equal; lia | lia].
  - rewrite <- (map_nth_seq (firstn i l)) at 1.
    rewrite length_firstn, Nat.min_l by (fold n; lia).
    replace (seq (0 + (n - i)) i) with (map (fun t => t + (n - i)) (seq 0 i)).
    + rewrite map_map. apply map_ext_in. intros t Ht. apply in_seq in Ht.
      replace (i + (t + (n - i))) with (t + 1 * n) by lia.
      rewrite Nat.Div0.mod_add, Nat.mod_small by lia.
      rewrite <- (firstn_skipn i l) at 1.
      rewrite app_nth1; [reflexivity|].
      rewrite length_firstn, Nat.min_l by (fold n; lia). lia.
    + clear. generalize (n - i). intros d.
      assert (Hshift : forall a, map (fun t => t + d) (seq a i) = seq (a + d) i).
      { induction i as [|i IH]; intros a; [reflexivity|].
        cbn [seq map]. f_equal. apply (IH (S a)). }
      apply Hshift.
Qed.

(** X3.  Round-robin over a whole turn: as many consecutive calls as
    the pool has entries, none of them due for a refresh, return every
    entry exactly once -- those from the index to the end of the list,
    then those before the index -- and leave the pool as it was. *)
Theorem full_turn_hands_out_every_proxy (nets : list Net) (s : t) :
  lock s = false ->
  current_index s < List.length (proxies s) ->
  List.length nets = List.length (proxies s) ->
  Forall (recent s) nets ->
  get_proxy_each nets s =
  (skipn (current_index s) (proxies s) ++ firstn (current_index s) (proxies s),
   s).
Proof.
  intros Hfree Hidx Hlen Hrecent.
  rewrite get_proxy_each_steps; auto.
  - rewrite Hlen. f_equal.
    + now apply rotation_by_index.
    + replace (current_index s + List.length (proxies s))
        with (current_index s + 1 * List.length (proxies s)) by lia.
      rewrite Nat.Div0.mod_add, Nat.mod_small by exact Hidx.
      destruct s; cbn in *. now rewrite Hfree.
  - destruct (proxies s); [cbn in Hidx; lia | discriminate].
Qed.

Lemma full_turn_hands_out_every_proxy_witness :
  get_proxy_each [soon_after; soon_after; soon_after; soon_after] four_proxies =
  (skipn (current_index four_proxies) (proxies four_proxies) ++
   firstn (current_index four_proxies) (proxies four_proxies),
   four_proxies).
Proof.
  apply (full_turn_hands_out_every_proxy
           [soon_after; soon_after; soon_after; soon_after] four_proxies).
  - reflexivity.
  - cbn. lia.
  - reflexivity.
  - repeat constructor; vm_compute; discriminate.
Defined.

(** X4.  A refresh that obtains no listing, or whose candidates all
    fail the probe, empties the pool: the proxies held before are
    dropped, whatever they were. *)
Theorem failed_refresh_empties_pool (net : Net) (s : t) :
  lock s = false ->
  set_iteration net [] = [] ->
  listing_failed net \/ (forall p, test_proxy net p = false) ->
  exists s',
    update_proxies net s = Returns tt s' /\ proxies s' = [].
Proof.
  intros Hfree Hset Hwhy.
  destruct (refresh_result net s Hfree) as (s' & Hrun & Hlen & Hin & _).
  exists s'. split; [exact Hrun|].
  destruct (proxies s') as [|p ps] eqn:Hps; [reflexivity|].
  destruct (Hin p (or_introl eq_refl)) as (Hprobe & c & Hc & _).
  destruct Hwhy as [Hfail | Hnone].
  - exfalso. unfold candidates, fetched, listing_failed in *.
    destruct (provider_response net) as [[status text]|].
    + apply Z.eqb_neq in Hfail. rewrite Hfail, Hset in Hc. destruct Hc.
    + rewrite Hset in Hc. destruct Hc.
  - rewrite Hnone in Hprobe. discriminate.
Qed.

Lemma failed_refresh_empties_pool_witness :
  exists s',
    update_proxies listing_down three_proxies = Returns tt s' /\
    proxies s' = [].
Proof.
  apply (failed_refresh_empties_pool listing_down three_proxies).
  - reflexivity.
  - reflexivity.
  - left. cbn. discriminate.
Defined.

(** X20.  [RetrySession.get] with a rotator whose lock is free and
    whose index points into its list.  When the rotator is due for a
    refresh the call blocks: neither [update_headers] nor
    [session.get] is reached.  Otherwise [get_proxy] returns the entry
    at the index, the rotator moves on by one, and the call goes on to
    [update_headers] and [session.get] with the proxy at the index
    for both schemes -- with no [proxies] argument at all when that
    entry is the empty text -- and returns or raises as these two do.
    Without a rotator it goes on to them with no [proxies]
    argument. *)
Theorem session_get_uses_current_proxy (net : Net) (rot : t) :
  lock rot = false -> index_in_range rot ->
  RetrySession.get net None = RetrySession.send net None None /\
  ((needs_refresh net rot = true /\
    RetrySession.get net (Some rot) =
      RetrySession.Blocked (Some (set_lock true rot))) \/
   exists proxy rot',
     needs_refresh net rot = false /\
     nth_error (proxies rot) (current_index rot) = Some proxy /\
     get_proxy net rot = Returns (Some proxy) rot' /\
     proxies rot' = proxies rot /\
     current_index rot' =
       (current_index rot + 1) mod List.length (proxies rot) /\
     RetrySession.get net (Some rot) =
       RetrySession.send net
         (match proxy with
          | EmptyString => None
          | _ => Some (String.append "http://" proxy,
                       String.append "http://" proxy)
          end) (Some rot')).
Proof.
  intros Hfree Hrange. split; [reflexivity|].
  destruct (needs_refresh net rot) eqn:Hneed.
  - left. split; [reflexivity|]. unfold RetrySession.get.
    now rewrite get_proxy_refresh_blocks.
  - right. destruct Hrange as [Hnone | Hlt].
    + unfold needs_refresh in Hneed. rewrite Hnone in Hneed. discriminate.
    + destruct (nth_error (proxies rot) (current_index rot)) as [p|] eqn:Hnth;
        [|apply nth_error_None in Hnth; lia].
      exists p. eexists. split; [reflexivity|]. split; [reflexivity|].
      split; [now apply get_proxy_fresh|].
      split; [reflexivity|]. split; [reflexivity|].
      unfold RetrySession.get.
      rewrite (get_proxy_fresh net rot p Hfree Hneed Hnth).
      destruct p; reflexivity.
Qed.

Lemma session_get_uses_current_proxy_witness :
  RetrySession.get soon_after None = RetrySession.send soon_after None None /\
  ((needs_refresh soon_after three_proxies = true /\
    RetrySession.get soon_after (Some three_proxies) =
      RetrySession.Blocked (Some (set_lock true three_proxies))) \/
   exists proxy rot',
     needs_refresh soon_after three_proxies = false /\
     nth_error (proxies three_proxies) (current_index three_proxies)
       = Some proxy /\
     get_proxy soon_after three_proxies = Returns (Some proxy) rot' /\
     proxies rot' = proxies three_proxies /\
     current_index rot' =
       (current_index three_proxies + 1)
         mod List.length (proxies three_proxies) /\
     RetrySession.get soon_after (Some three_proxies) =
       RetrySession.send soon_after
         (match proxy with
          | EmptyString => None
          | _ => Some (String.append "http://" proxy,
                       String.append "http://" proxy)
          end) (Some rot')).
Proof.
  apply (session_get_uses_current_proxy soon_after three_proxies).
  - reflexivity.
  - right. cbn. lia.
Defined.

End PoolExtras.

(** ** The page fetch job *)

Module JobExtras.

Import PageScraper Trace TraceFacts JobShape JobFacts JobUse.
Local Open Scope py_scope.

Ltac enter_loop :=
  unfold scrape_page, max_retries; rewrite scrape_page_loop_step;
  change (0 <? 3) with true; cbv iota.

Ltac settle :=
  repeat (cbn [driver world setups visits log count_visit count_setup
               open_session snd fst next_session];
          rewrite ?bump_same).

Lemma collect_in (items : list item_outcome) (r : ListingData) :
  In r (collect items) <-> In (Parsed r) items.
Proof.
  induction items as [|i items IH]; [reflexivity|].
  destruct i; cbn [collect In]; rewrite IH; split;
    intros H; try (right; exact H);
    try (destruct H as [H | H]; [discriminate H | exact H]).
  - destruct H as [-> | H]; [now left | now right].
  - destruct H as [H | H]; [inversion H; now left | now right].
Qed.

Lemma collect_length (items : list item_outcome) :
  List.length (collect items) <= List.length items.
Proof.
  induction items as [|i items IH]; [reflexivity|].
  destruct i; cbn [collect List.length]; lia.
Qed.

Lemma world_ext (w1 w2 : World) :
  setups w1 = setups w2 -> visits w1 = visits w2 ->
  next_session w1 = next_session w2 -> writes w1 = writes w2 ->
  json_file w1 = json_file w2 -> csv_file w1 = csv_file w2 ->
  trace w1 = trace w2 -> w1 = w2.
Proof. destruct w1, w2. cbn. intros. subst. reflexivity. Qed.

(** An attempt whose element wait finds listings. *)
Lemma iteration_returns (env : Env) (page : Z) (rc : nat)
      (d : option nat) (w : World) (items : list item_outcome) :
  (d = None -> starts (setup_driver_outcome env page (setups w page))) ->
  (d <> None -> current_url_raises env page (setups w page) = false) ->
  page_outcome_of env page (visits w page) = Listed items ->
  iteration env page rc {| driver := d; world := w |} =
  (Val (Return (collect items)),
   {| driver := None;
      world := log (Quit (session_of d w)) (navigated page rc d w) |}).
Proof.
  intros Hstart Hcur Hout. unfold navigated, ready, session_of.
  unfold_job. settle.
  destruct d as [sid|]; settle.
  1: rewrite (Hcur ltac:(discriminate)); settle.
  2: destruct (Hstart eq_refl) as [Hs | Hs]; rewrite Hs; settle.
  all: rewrite Hout; settle.
  all: destruct items; reflexivity.
Qed.

(** An attempt whose element wait times out. *)
Lemma iteration_times_out (env : Env) (page : Z) (rc : nat)
      (d : option nat) (w : World) :
  (d = None -> starts (setup_driver_outcome env page (setups w page))) ->
  (d <> None -> current_url_raises env page (setups w page) = false) ->
  page_outcome_of env page (visits w page) = WaitTimesOut ->
  iteration env page rc {| driver := d; world := w |} =
  (Val (Return []),
   {| driver := None;
      world := log (Quit (session_of d w))
                 (log (TimedOut page) (navigated page rc d w)) |}).
Proof.
  intros Hstart Hcur Hout. unfold navigated, ready, session_of.
  unfold_job. settle.
  destruct d as [sid|]; settle.
  1: rewrite (Hcur ltac:(discriminate)); settle.
  2: destruct (Hstart eq_refl) as [Hs | Hs]; rewrite Hs; settle.
  all: rewrite Hout; settle; reflexivity.
Qed.

(** An attempt that raises while another one is due. *)
Lemma iteration_continues (env : Env) (page : Z) (rc : nat)
      (d : option nat) (w : World) :
  (d = None -> starts (setup_driver_outcome env page (setups w page))) ->
  (d <> None -> current_url_raises env page (setups w page) = false) ->
  raises (page_outcome_of env page (visits w page)) ->
  rc + 1 < max_retries ->
  iteration env page rc {| driver := d; world := w |} =
  (Val (Continue (rc + 1)),
   {| driver := None;
      world := log (Sleep 2 5)
                 (log (Quit (session_of d w))
                    (log (Caught page (rc + 1)) (navigated page rc d w))) |}).
Proof.
  intros Hstart Hcur Hout Hrc. apply Nat.ltb_lt in Hrc.
  unfold navigated, ready, session_of. unfold_job. settle.
  destruct d as [sid|]; settle.
  1: rewrite (Hcur ltac:(discriminate)); settle.
  2: destruct (Hstart eq_refl) as [Hs | Hs]; rewrite Hs; settle.
  all: destruct Hout as [Hout | Hout]; rewrite Hout; settle;
    rewrite Hrc; reflexivity.
Qed.

(** X5.  An element wait that times out is not retried: when the
    first visit of a job ends that way, [scrape_page] returns the
    empty list after this one attempt.  The trace holds the attempt,
    its 1 to 2 second sleep, the navigation, the error logged for the
    time-out and the closing of the session; the attempt is not
    counted or logged as a failed one, no 2 to 5 second sleep is made,
    and the page has been visited once more.  The session held is the
    one whose [current_url] the attempt reads first. *)
Theorem wait_timeout_is_not_retried (env : Env) (page : Z) (j : Job)
        (sid : nat) :
  driver j = Some sid ->
  current_url_raises env page (setups (world j) page) = false ->
  page_outcome_of env page (visits (world j) page) = WaitTimesOut ->
  exists j',
    scrape_page env page j = (Val (PyList []), j') /\
    driver j' = None /\
    trace (world j') =
      trace (world j) ++
      [Attempt page 1; Sleep 1 2; Get sid page; TimedOut page; Quit sid] /\
    visits (world j') page = S (visits (world j) page) /\
    setups (world j') page = setups (world j) page.
Proof.
  destruct j as [d w]. cbn [driver world]. intros -> Hcur Hout.
  enter_loop.
  rewrite (iteration_times_out env page 0 (Some sid) w);
    [ | discriminate | intros _; exact Hcur | exact Hout ].
  eexists. split; [reflexivity|]. unfold navigated, ready, session_of.
  settle.
  split; [reflexivity|]. split; [|split; [|reflexivity]].
  - cbn [trace log count_visit Nat.add]. rewrite <- !app_assoc. reflexivity.
  - reflexivity.
Qed.

Lemma wait_timeout_is_not_retried_witness :
  exists j',
    scrape_page CrawlScenarios.all_time_out 7 (fresh_job 7)
      = (Val (PyList []), j') /\
    driver j' = None /\
    trace (world j') =
      trace (world (fresh_job 7)) ++
      [Attempt 7 1; Sleep 1 2; Get 0 7; TimedOut 7; Quit 0] /\
    visits (world j') 7 = S (visits (world (fresh_job 7)) 7) /\
    setups (world j') 7 = setups (world (fresh_job 7)) 7.
Proof.
  apply (wait_timeout_is_not_retried CrawlScenarios.all_time_out 7
           (fresh_job 7) 0); reflexivity.
Defined.

(** X6.  When the first element wait of a job finds listings, the job
    ends after that one attempt.  It returns one record for every
    listing that was extracted and parsed, in page order, and skips
    the listings that raised or gave nothing: a listing that cannot be
    read never costs the page its other records.  The session held is
    the one whose [current_url] the attempt reads first. *)
Theorem first_visit_returns_parsed_listings (env : Env) (page : Z) (j : Job)
        (sid : nat) (items : list item_outcome) :
  driver j = Some sid ->
  current_url_raises env page (setups (world j) page) = false ->
  page_outcome_of env page (visits (world j) page) = Listed items ->
  exists j',
    scrape_page env page j = (Val (PyList (collect items)), j') /\
    (forall r, In r (collect items) <-> In (Parsed r) items) /\
    (forall before after,
        items = before ++ after ->
        collect items = collect before ++ collect after) /\
    List.length (collect items) <= List.length items /\
    driver j' = None /\
    trace (world j') =
      trace (world j) ++
      [Attempt page 1; Sleep 1 2; Get sid page; Quit sid].
Proof.
  destruct j as [d w]. cbn [driver world]. intros -> Hcur Hout.
  enter_loop.
  rewrite (iteration_returns env page 0 (Some sid) w items);
    [ | discriminate | intros _; exact Hcur | exact Hout ].
  eexists. split; [reflexivity|].
  split; [intros r; apply collect_in|].
  split; [|split; [apply collect_length|split; [reflexivity|]]].
  - intros before after ->. clear.
    induction before as [|i before IH]; [reflexivity|].
    destruct i; cbn [app collect]; now rewrite IH.
  - unfold navigated, ready, session_of.
    cbn [trace log count_visit world Nat.add]. rewrite <- !app_assoc.
    reflexivity.
Qed.

Lemma first_visit_returns_parsed_listings_witness :
  exists j',
    scrape_page CrawlScenarios.calm 7 (fresh_job 7)
      = (Val (PyList (collect
                        [Parsed (CrawlScenarios.deere "4020");
                         Parsed (CrawlScenarios.deere "4440");
                         Parsed (CrawlScenarios.deere "8300")])), j') /\
    (forall r, In r (collect
                        [Parsed (CrawlScenarios.deere "4020");
                         Parsed (CrawlScenarios.deere "4440");
                         Parsed (CrawlScenarios.deere "8300")]) <->
               In (Parsed r)
                  [Parsed (CrawlScenarios.deere "4020");
                   Parsed (CrawlScenarios.deere "4440");
                   Parsed (CrawlScenarios.deere "8300")]) /\
    (forall before after,
        [Parsed (CrawlScenarios.deere "4020");
         Parsed (CrawlScenarios.deere "4440");
         Parsed (CrawlScenarios.deere "8300")] = before ++ after ->
        collect [Parsed (CrawlScenarios.deere "4020");
                 Parsed (CrawlScenarios.deere "4440");
                 Parsed (CrawlScenarios.deere "8300")]
        = collect before ++ collect after) /\
    List.length (collect
                   [Parsed (CrawlScenarios.deere "4020");
                    Parsed (CrawlScenarios.deere "4440");
                    Parsed (CrawlScenarios.deere "8300")]) <=
    List.length [Parsed (CrawlScenarios.deere "4020");
                 Parsed (CrawlScenarios.deere "4440");
                 Parsed (CrawlScenarios.deere "8300")] /\
    driver j' = None /\
    trace (world j') =
      trace (world (fresh_job 7)) ++
      [Attempt 7 1; Sleep 1 2; Get 0 7; Quit 0].
Proof.
  apply (first_visit_returns_parsed_listings CrawlScenarios.calm 7
           (fresh_job 7) 0); reflexivity.
Defined.

(** X7.  A job whose first two attempts raise and whose third finds
    listings returns exactly the records of the third attempt.  Each
    failed attempt is logged, its session closed and a 2 to 5 second
    sleep made; each later attempt starts a session of its own; no
    fourth attempt is made.  The session held at the start is the one
    whose [current_url] the first attempt reads. *)
Theorem third_attempt_gives_its_records (env : Env) (page : Z) (j : Job)
        (sid : nat) (items : list item_outcome) :
  driver j = Some sid ->
  current_url_raises env page (setups (world j) page) = false ->
  raises (page_outcome_of env page (visits (world j) page)) ->
  raises (page_outcome_of env page (S (visits (world j) page))) ->
  page_outcome_of env page (S (S (visits (world j) page))) = Listed items ->
  starts (setup_driver_outcome env page (setups (world j) page)) ->
  starts (setup_driver_outcome env page (S (setups (world j) page))) ->
  exists j',
    scrape_page env page j = (Val (PyList (collect items)), j') /\
    driver j' = None /\
    trace (world j') =
      trace (world j) ++
      [Attempt page 1; Sleep 1 2; Get sid page; Caught page 1; Quit sid;
       Sleep 2 5;
       Attempt page 2; Open (next_session (world j)); Sleep 1 2;
       Get (next_session (world j)) page; Caught page 2;
       Quit (next_session (world j)); Sleep 2 5;
       Attempt page 3; Open (S (next_session (world j))); Sleep 1 2;
       Get (S (next_session (world j))) page;
       Quit (S (next_session (world j)))].
Proof.
  destruct j as [d w]. cbn [driver world].
  intros -> Hcur Hfirst Hsecond Hthird Hstart1 Hstart2.
  exists {| driver := None;
            world :=
              {| setups := bump (bump (setups w) page) page;
                 visits := bump (bump (bump (visits w) page) page) page;
                 next_session := S (S (next_session w));
                 writes := writes w; json_file := json_file w;
                 csv_file := csv_file w;
                 trace :=
                   trace w ++
                   [Attempt page 1; Sleep 1 2; Get sid page; Caught page 1;
                    Quit sid; Sleep 2 5;
                    Attempt page 2; Open (next_session w); Sleep 1 2;
                    Get (next_session w) page; Caught page 2;
                    Quit (next_session w); Sleep 2 5;
                    Attempt page 3; Open (S (next_session w)); Sleep 1 2;
                    Get (S (next_session w)) page;
                    Quit (S (next_session w))] |} |}.
  split; [|split; reflexivity].
  enter_loop.
  rewrite (iteration_continues env page 0 (Some sid) w);
    [ | discriminate | intros _; exact Hcur | exact Hfirst
      | unfold max_retries; lia ].
  cbn [Nat.add]. rewrite scrape_page_loop_step.
  change (1 <? max_retries) with true. cbv iota.
  rewrite iteration_continues;
    [ | intros _; exact Hstart1
      | intros Hd; now elim Hd
      | unfold navigated, ready, session_of; settle; exact Hsecond
      | unfold max_retries; lia ].
  cbn [Nat.add]. rewrite scrape_page_loop_step.
  change (2 <? max_retries) with true. cbv iota.
  rewrite (iteration_returns env page 2 None _ items);
    [ | intros _; unfold navigated, ready, session_of; settle; exact Hstart2
      | intros Hd; now elim Hd
      | unfold navigated, ready, session_of; settle; exact Hthird ].
  do 2 apply f_equal. apply world_ext;
    unfold navigated, ready, session_of;
    cbn [trace setups visits next_session writes json_file csv_file snd
         log count_visit count_setup open_session Nat.add];
    rewrite <- ?app_assoc; reflexivity.
Qed.

Lemma third_attempt_gives_its_records_witness :
  exists j',
    scrape_page third_time_lucky 7 (fresh_job 7)
      = (Val (PyList (collect [StaleElement;
                               Parsed (CrawlScenarios.deere "4020");
                               NoData])), j') /\
    driver j' = None /\
    trace (world j') =
      trace (world (fresh_job 7)) ++
      [Attempt 7 1; Sleep 1 2; Get 0 7; Caught 7 1; Quit 0;
       Sleep 2 5;
       Attempt 7 2; Open (next_session (world (fresh_job 7))); Sleep 1 2;
       Get (next_session (world (fresh_job 7))) 7; Caught 7 2;
       Quit (next_session (world (fresh_job 7))); Sleep 2 5;
       Attempt 7 3; Open (S (next_session (world (fresh_job 7)))); Sleep 1 2;
       Get (S (next_session (world (fresh_job 7)))) 7;
       Quit (S (next_session (world (fresh_job 7))))].
Proof.
  apply (third_attempt_gives_its_records third_time_lucky 7 (fresh_job 7) 0).
  - reflexivity.
  - reflexivity.
  - left. reflexivity.
  - right. reflexivity.
  - reflexivity.
  - right. reflexivity.
  - right. reflexivity.
Defined.

End JobExtras.

(** ** Whole runs *)

Module RunExtras.

Import Trace TraceFacts JobShape JobFacts CrawlShape CrawlSteps LoopFacts.
Import FlushFacts RangeFacts GatherFacts CrawlScenarios RunUse.
Import MachineryPeteScraper.
Local Open Scope py_scope.

(** *** A relation between worlds that every step of a run keeps *)

Section WorldRelation.

Variable env : Env.
Variable R : World -> World -> Prop.
Hypothesis R_refl : forall w, R w w.
Hypothesis R_trans : forall w1 w2 w3, R w1 w2 -> R w2 w3 -> R w1 w3.
Hypothesis R_job : forall w page, R w (job_world env w page).
Hypothesis R_log : forall w e, of_orchestrator e -> R w (log e w).
Hypothesis R_write : forall w rs, R w (write_files env rs w).

Lemma keeps_bind {A B : Type} (m : M Crawl A) (k : A -> M Crawl B) :
  keeps R m -> (forall a, keeps R (k a)) -> keeps R (bind m k).
Proof.
  intros Hm Hk c. unfold bind. specialize (Hm c).
  destruct (m c) as [[a|] c1]; cbn [snd] in *; [|exact Hm].
  eapply R_trans; [exact Hm | apply Hk].
Qed.

Lemma keeps_try_except {A : Type} (m handler : M Crawl A) :
  keeps R m -> keeps R handler -> keeps R (try_except m handler).
Proof.
  intros Hm Hh c. unfold try_except. specialize (Hm c).
  destruct (m c) as [[a|] c1]; cbn [snd] in *; [exact Hm|].
  eapply R_trans; [exact Hm | apply Hh].
Qed.

Lemma keeps_for_each {A : Type} (xs : list A) (body : A -> M Crawl unit) :
  (forall x, keeps R (body x)) -> keeps R (for_each xs body).
Proof.
  intros Hbody. induction xs as [|x xs IH]; intros c; [apply R_refl|].
  cbn [for_each]. apply keeps_bind; [apply Hbody | intros _; exact IH].
Qed.

Lemma keeps_still {A : Type} (m : M Crawl A) :
  (forall c, world (snd (m c)) = world c) -> keeps R m.
Proof. intros Hm c. rewrite Hm. apply R_refl. Qed.

Lemma keeps_log (e : event) : of_orchestrator e -> keeps R (on_world (log e)).
Proof. intros He c. cbn. now apply R_log. Qed.

Lemma keeps_collect_future (page : Z) : keeps R (collect_future env page).
Proof. intros c. rewrite collect_future_spec. apply R_job. Qed.

Lemma keeps_run_unobserved (page : Z) : keeps R (run_unobserved env page).
Proof. intros c. rewrite run_unobserved_spec. apply R_job. Qed.

Lemma keeps_retry_page (page : Z) : keeps R (retry_page env page).
Proof.
  intros c. rewrite retry_page_spec. cbn [snd world].
  eapply R_trans; [apply (R_log _ (Sleep 3 5)); exact I | apply R_job].
Qed.

Lemma keeps_save_if_any : keeps R (save_if_any env).
Proof.
  intros c. rewrite save_if_any_spec. cbn [snd].
  destruct (all_results c); [apply R_refl | apply R_write].
Qed.

Lemma keeps_submit_all (pages : list Z) :
  forall submitted, keeps R (submit_all env pages submitted).
Proof.
  induction pages as [|page pages IH]; intros submitted.
  - intros c. apply R_refl.
  - cbn [submit_all]. destruct (submit_raises env page).
    + apply keeps_bind; [apply keeps_log; exact I | intros _].
      apply keeps_bind;
        [apply keeps_for_each; intros x; apply keeps_run_unobserved
        | intros _ c; apply R_refl].
    + apply keeps_bind; [apply keeps_log; exact I | intros _; apply IH].
Qed.

(** Whatever the oracle answers and however the run ends, the world
    it leaves is related to the world it started in. *)
Lemma run_keeps (batch_size start_page end_page : Z) :
  keeps R (scrape_pages_with env batch_size start_page end_page).
Proof.
  unfold scrape_pages_with. apply keeps_try_except;
    [|intros c; apply R_refl].
  apply keeps_bind; [apply keeps_still; reflexivity | intros _].
  apply keeps_bind; [|intros _].
  - unfold main_pass. apply keeps_for_each. intros batch_start.
    apply keeps_bind; [|intros _].
    + unfold run_batch. apply keeps_bind; [apply keeps_submit_all|].
      intros _. apply keeps_for_each. intros page.
      apply keeps_collect_future.
    + apply keeps_bind; [apply keeps_save_if_any|].
      intros _. apply keeps_log. exact I.
  - apply keeps_bind; [|intros _; apply keeps_save_if_any].
    unfold retry_pass. apply keeps_bind;
      [apply keeps_still; reflexivity|].
    intros failed. destruct failed as [|page failed];
      [intros c; apply R_refl|].
    apply keeps_for_each. intros x. apply keeps_retry_page.
Qed.

End WorldRelation.

(** *** Sessions over a whole run *)

Lemma sessions_refl (env : Env) (w : World) : sessions_since env w w.
Proof.
  exists []. rewrite app_nil_r. cbn.
  repeat split; auto using NoDup_nil, incl_nil_l.
Qed.

Lemma sessions_trans (env : Env) (w1 w2 w3 : World) :
  sessions_since env w1 w2 -> sessions_since env w2 w3 ->
  sessions_since env w1 w3.
Proof.
  intros (e1 & Ht1 & Ho1 & Hn1 & Hd1 & Hi1 & Hc1)
         (e2 & Ht2 & Ho2 & Hn2 & Hd2 & Hi2 & Hc2).
  exists (e1 ++ e2). rewrite Ht2, Ht1, app_assoc.
  rewrite opened_app, quitted_app, length_app.
  split; [reflexivity|]. split; [|split; [|split; [|split]]].
  - rewrite seq_app, <- Ho1. rewrite Hn1 in Ho2. now rewrite <- Ho2.
  - lia.
  - apply NoDup_app; [exact Hd1 | exact Hd2 |].
    intros x Hx1 Hx2. apply Hi1 in Hx1. apply Hi2 in Hx2.
    rewrite Ho1 in Hx1. rewrite Ho2, Hn1 in Hx2.
    apply in_seq in Hx1. apply in_seq in Hx2. lia.
  - apply incl_app_app; assumption.
  - intros Hnever. now rewrite Hc1, Hc2.
Qed.

Lemma sessions_still (env : Env) (w w' : World) (evs : list event) :
  trace w' = trace w ++ evs -> next_session w' = next_session w ->
  opened evs = [] -> quitted evs = [] ->
  sessions_since env w w'.
Proof.
  intros Ht Hn Ho Hq. exists evs. rewrite Ho, Hq. cbn.
  repeat split; auto using NoDup_nil, incl_nil_l. lia.
Qed.

Lemma sessions_log (env : Env) (w : World) (e : event) :
  of_orchestrator e -> sessions_since env w (log e w).
Proof.
  intros He. apply (sessions_still env w (log e w) [e]);
    destruct e; try destruct He; reflexivity.
Qed.

Lemma sessions_write (env : Env) (w : World) (rs : list ListingData) :
  sessions_since env w (write_files env rs w).
Proof.
  apply (sessions_still env w _ [Flush rs]); try reflexivity.
  - apply trace_write_files.
  - unfold write_files. destruct (write_outcome_of env (writes w)); reflexivity.
Qed.

(** The sessions of one job. *)
Lemma sessions_job (env : Env) (w : World) (page : Z) :
  sessions_since env w (job_world env w page).
Proof.
  unfold job_world, _scrape_single_page.
  pose proof (init_spec env page w) as Hinit.
  destruct (setup_driver_outcome env page (setups w page)) eqn:Hout.
  1,2: destruct Hinit as (j & -> & Hd & Hnext & Htr);
    destruct (scrape_page_loop_spec env page (S PageScraper.max_retries) 0 j)
      as (rs & j' & evs & Hrun & Hdid);
    [ unfold PageScraper.max_retries; lia | lia
    | intros sid Hsid; rewrite Hd in Hsid; inversion Hsid; lia | ];
    unfold PageScraper.scrape_page; rewrite Hrun; cbn [snd];
    destruct Hdid as [_ Htr' _ Hseq Hcount Hquit _ _ _];
    rewrite Hd in Hquit; cbn [held] in Hquit;
    exists ([Open (next_session w)] ++ evs);
    rewrite Htr', Htr, <- app_assoc, opened_app, quitted_app;
    cbn [opened quitted flat_map app List.length];
    fold (opened evs); fold (quitted evs);
    rewrite Hquit; cbn [app];
    (assert (Hall : next_session w :: opened evs =
                    seq (next_session w) (S (List.length (opened evs))))
       by (cbn [seq]; f_equal; rewrite Hnext in Hseq; exact Hseq));
    (split; [reflexivity|]); (split; [exact Hall|]);
    (split; [lia|]); (split; [rewrite Hall; apply seq_NoDup|]);
    (split; [apply incl_refl | reflexivity]).
  - clear Hinit. unfold PageScraper.__init__. unfold_job.
    cbn [PageScraper.driver PageScraper.world]. rewrite Hout.
    cbn [snd PageScraper.world PageScraper.driver].
    exists [Open (next_session w)].
    split; [reflexivity|]. split; [reflexivity|].
    split; [cbn; lia|].
    split; [constructor | split; [apply incl_nil_l|]].
    intros Hnever. destruct (Hnever page (setups w page) Hout).
  - clear Hinit. unfold PageScraper.__init__. unfold_job.
    cbn [PageScraper.driver PageScraper.world]. rewrite Hout.
    cbn [snd PageScraper.world PageScraper.driver].
    apply (sessions_still env w _ []); try reflexivity.
    cbn. now rewrite app_nil_r.
Qed.


(** X8.  Browser sessions over a whole run of [scrape_pages], whether
    it returns or re-raises and whatever the jobs, the submits and the
    writes do: [quit] is only ever called on a session the run itself
    created and never twice on the same session, and when no call of
    [setup_driver], in a constructor or in a later attempt, fails on a
    stealth command after creating its session, every session the run
    created has been closed by the time the run ends. *)
Theorem run_closes_its_sessions (env : Env)
        (batch_size start_page end_page : Z) (c : Crawl) :
  sessions_since env (world c)
    (world (snd (scrape_pages_with env batch_size start_page end_page c))).
Proof.
  apply (run_keeps env (sessions_since env)).
  - apply sessions_refl.
  - apply sessions_trans.
  - apply sessions_job.
  - apply sessions_log.
  - apply sessions_write.
Qed.

(** *** The files a returned run leaves *)

Lemma returned_run_ends_with_save (env : Env)
      (batch_size start_page end_page : Z) (c c' : Crawl) :
  scrape_pages_with env batch_size start_page end_page c = (Val tt, c') ->
  exists c2, save_if_any env c2 = (Val tt, c').
Proof.
  unfold scrape_pages_with, try_except, bind.
  destruct (fresh_locals c) as [[[]|] c0]; [|discriminate].
  destruct (main_pass env batch_size start_page end_page c0)
    as [[[]|] c1]; [|discriminate].
  destruct (retry_pass env c1) as [[[]|] c2]; [|discriminate].
  intros Hsave. exists c2.
  destruct (save_if_any env c2) as [[[]|] c3]; [|discriminate].
  exact Hsave.
Qed.

(** X9.  When [scrape_pages] returns with at least one record
    gathered, [self.results] is the gathered list and the last thing
    the run did to the files was one flush of that whole list: if that
    write succeeded, both output files hold exactly the gathered
    records; if it failed on the CSV side, the JSON file still does;
    a failed JSON dump leaves the JSON file cut short. *)
Theorem returned_run_leaves_results_in_files (env : Env)
        (batch_size start_page end_page : Z) (c c' : Crawl) :
  scrape_pages_with env batch_size start_page end_page c = (Val tt, c') ->
  all_results c' <> [] ->
  self_results c' = all_results c' /\
  (exists evs, trace (world c') = evs ++ [Flush (all_results c')]) /\
  exists k,
    writes (world c') = S k /\
    match write_outcome_of env k with
    | Written =>
        json_file (world c') = Whole (all_results c') /\
        csv_file (world c') = Whole (all_results c')
    | JsonOpenFails => True
    | JsonDumpFails => json_file (world c') = Damaged
    | CsvOpenFails => json_file (world c') = Whole (all_results c')
    | CsvWriteFails =>
        json_file (world c') = Whole (all_results c') /\
        csv_file (world c') = Damaged
    end.
Proof.
  intros Hrun Hsome.
  destruct (returned_run_ends_with_save _ _ _ _ _ _ Hrun) as (c2 & Hsave).
  rewrite save_if_any_spec in Hsave. inversion Hsave as [Hc']. clear Hsave.
  destruct (all_results c2) as [|r rs] eqn:Hall.
  - subst c'. contradiction.
  - rewrite <- Hc' in *. cbn [all_results world self_results results].
    split; [reflexivity|]. split.
    + exists (trace (world c2)). apply trace_write_files.
    + exists (writes (world c2)). unfold write_files.
      destruct (write_outcome_of env (writes (world c2)));
        cbn; auto.
Qed.

Lemma returned_run_leaves_results_in_files_witness :
  self_results calm_run_end = all_results calm_run_end /\
  (exists evs, trace (world calm_run_end) =
               evs ++ [Flush (all_results calm_run_end)]) /\
  exists k,
    writes (world calm_run_end) = S k /\
    match write_outcome_of calm k with
    | Written =>
        json_file (world calm_run_end) = Whole (all_results calm_run_end) /\
        csv_file (world calm_run_end) = Whole (all_results calm_run_end)
    | JsonOpenFails => True
    | JsonDumpFails => json_file (world calm_run_end) = Damaged
    | CsvOpenFails =>
        json_file (world calm_run_end) = Whole (all_results calm_run_end)
    | CsvWriteFails =>
        json_file (world calm_run_end) = Whole (all_results calm_run_end) /\
        csv_file (world calm_run_end) = Damaged
    end.
Proof.
  apply (returned_run_leaves_results_in_files calm 2 1 4
           (__init__ new_world) calm_run_end).
  - vm_compute. reflexivity.
  - vm_compute. discriminate.
Defined.

(** *** When a run raises *)

Lemma for_each_returns {A : Type} (body : A -> M Crawl unit) (xs : list A) :
  (forall x c, In x xs -> fst (body x c) = Val tt) ->
  forall c, fst (for_each xs body c) = Val tt.
Proof.
  induction xs as [|x xs IH]; intros Hbody c; [reflexivity|].
  cbn [for_each]. unfold bind.
  pose proof (Hbody x c (or_introl eq_refl)) as Hx.
  destruct (body x c) as [[[]|] c1]; [|discriminate].
  apply IH. intros y c2 Hy. apply Hbody. now right.
Qed.

Lemma for_each_raises {A : Type} (body : A -> M Crawl unit) (xs : list A)
      (x : A) :
  In x xs -> (forall c, fst (body x c) = Exc) ->
  forall c, fst (for_each xs body c) = Exc.
Proof.
  intros Hin Hx. induction xs as [|y xs IH]; intros c; [destruct Hin|].
  cbn [for_each]. unfold bind.
  destruct Hin as [-> | Hin].
  - specialize (Hx c). destruct (body x c) as [[[]|] c1];
      [discriminate | reflexivity].
  - destruct (body y c) as [[[]|] c1]; [now apply IH | reflexivity].
Qed.

Lemma submit_all_outcome (env : Env) (pages : list Z) :
  forall submitted c,
    fst (submit_all env pages submitted c) =
    if existsb (submit_raises env) pages then Exc else Val tt.
Proof.
  induction pages as [|p pages IH]; intros submitted c; [reflexivity|].
  cbn [submit_all existsb].
  destruct (submit_raises env p); cbn [orb].
  - unfold bind, on_world, modify, raise.
    destruct (for_each submitted (run_unobserved env) _) as [[[]|] c1];
      reflexivity.
  - unfold bind at 1. unfold on_world, modify. apply IH.
Qed.

(** One round of the batch loop raises exactly when a submit of the
    batch is refused. *)
Lemma batch_outcome (env : Env) (batch_size end_page batch_start : Z)
      (c : Crawl) :
  fst ((run_batch env batch_start
          (Z.min (batch_start + batch_size - 1) end_page) ;;
        save_if_any env ;;
        on_world (log (Sleep 3 5))) c) =
  if existsb (submit_raises env) (batch_pages batch_size end_page batch_start)
  then Exc else Val tt.
Proof.
  unfold run_batch, batch_pages.
  set (pages := Py.range1 batch_start
                  (Z.min (batch_start + batch_size - 1) end_page + 1)).
  pose proof (submit_all_outcome env pages [] c) as Hsub.
  unfold bind.
  destruct (submit_all env pages [] c) as [[[]|] c1]; cbn [fst] in Hsub;
    rewrite <- Hsub; [|reflexivity].
  pose proof (for_each_returns (collect_future env)
                (completion_order env pages)
                (fun x c0 _ => f_equal fst (collect_future_spec env x c0))
                c1) as Hloop.
  destruct (for_each (completion_order env pages) (collect_future env) c1)
    as [[[]|] c2]; [|discriminate].
  rewrite save_if_any_spec. reflexivity.
Qed.

Lemma existsb_flat_map {A B : Type} (f : B -> bool) (g : A -> list B)
      (xs : list A) :
  existsb f (flat_map g xs) = existsb (fun x => existsb f (g x)) xs.
Proof.
  induction xs as [|x xs IH]; [reflexivity|].
  cbn [flat_map existsb]. now rewrite existsb_app, IH.
Qed.

Lemma main_pass_outcome (env : Env) (batch_size start_page end_page : Z)
      (c : Crawl) :
  (1 <= batch_size)%Z ->
  fst (main_pass env batch_size start_page end_page c) =
  if existsb (submit_raises env) (Py.range1 start_page (end_page + 1))
  then Exc else Val tt.
Proof.
  intros Hsize.
  rewrite <- (batches_cover batch_size start_page end_page Hsize).
  rewrite existsb_flat_map. unfold main_pass.
  destruct (existsb _ (Py.range start_page (end_page + 1) batch_size))
    eqn:Hany.
  - apply existsb_exists in Hany as (b & Hin & Hb).
    apply (for_each_raises _ _ b Hin). intros c0.
    rewrite batch_outcome. now rewrite Hb.
  - apply for_each_returns. intros b c0 Hin.
    rewrite batch_outcome.
    rewrite <- not_true_iff_false in Hany.
    destruct (existsb (submit_raises env) (batch_pages batch_size end_page b))
      eqn:Hb; [|reflexivity].
    exfalso. apply Hany. apply existsb_exists. now exists b.
Qed.

Lemma retry_pass_returns (env : Env) (c : Crawl) :
  fst (retry_pass env c) = Val tt.
Proof.
  unfold retry_pass, bind, gets.
  destruct (failed_pages c) as [|p ps]; [reflexivity|].
  apply for_each_returns. intros x c0 _. now rewrite retry_page_spec.
Qed.

(** X10.  [scrape_pages] raises exactly when the executor refuses to
    take the job of some page of the range.  Nothing else ends a run
    early: not a job that raises or comes back empty, not a browser
    that fails to start, not a file that cannot be written. *)
Theorem run_raises_only_when_submit_refused (env : Env)
        (batch_size start_page end_page : Z) (c : Crawl) :
  (1 <= batch_size)%Z ->
  (fst (scrape_pages_with env batch_size start_page end_page c) = Exc <->
   exists page, (start_page <= page <= end_page)%Z /\
                submit_raises env page = true) /\
  (fst (scrape_pages_with env batch_size start_page end_page c) = Val tt <->
   forall page, (start_page <= page <= end_page)%Z ->
                submit_raises env page = false).
Proof.
  intros Hsize.
  assert (Hrun :
    fst (scrape_pages_with env batch_size start_page end_page c) =
    if existsb (submit_raises env) (Py.range1 start_page (end_page + 1))
    then Exc else Val tt).
  { unfold scrape_pages_with, try_except, bind, fresh_locals, modify.
    set (c0 := {| all_results := []; failed_pages := [];
                  results := Own (self_results c); world := world c |}).
    pose proof (main_pass_outcome env batch_size start_page end_page c0 Hsize)
      as Hmain.
    destruct (main_pass env batch_size start_page end_page c0)
      as [[[]|] c1]; cbn [fst] in Hmain; rewrite <- Hmain;
      [|reflexivity].
    pose proof (retry_pass_returns env c1) as Hretry.
    destruct (retry_pass env c1) as [[[]|] c2]; [|discriminate].
    rewrite save_if_any_spec. reflexivity. }
  rewrite Hrun.
  destruct (existsb (submit_raises env) (Py.range1 start_page (end_page + 1)))
    eqn:Hany.
  - apply existsb_exists in Hany as (p & Hin & Hp).
    apply in_range1 in Hin. split; split.
    + intros _. exists p. split; [lia | exact Hp].
    + reflexivity.
    + discriminate.
    + intros Hnone. rewrite (Hnone p) in Hp by lia. discriminate.
  - assert (Hnone : forall p, (start_page <= p <= end_page)%Z ->
                              submit_raises env p = false).
    { intros p Hin. destruct (submit_raises env p) eqn:Hp; [|reflexivity].
      rewrite <- not_true_iff_false in Hany. destruct Hany.
      apply existsb_exists. exists p. split; [|exact Hp].
      apply in_range1. lia. }
    split; split.
    + discriminate.
    + intros (p & Hin & Hp). rewrite (Hnone p Hin) in Hp. discriminate.
    + intros _. exact Hnone.
    + reflexivity.
Qed.

Lemma run_raises_only_when_submit_refused_witness :
  (fst (scrape_pages_with refuses_page_three 2 1 4 (__init__ new_world))
     = Exc <->
   exists page, (1 <= page <= 4)%Z /\
                submit_raises refuses_page_three page = true) /\
  (fst (scrape_pages_with refuses_page_three 2 1 4 (__init__ new_world))
     = Val tt <->
   forall page, (1 <= page <= 4)%Z ->
                submit_raises refuses_page_three page = false).
Proof.
  apply (run_raises_only_when_submit_refused refuses_page_three 2 1 4
           (__init__ new_world)).
  lia.
Defined.

(** *** The pages marked as failed *)

(** X21.  In a run where no submit is refused and every batch
    completes, [failed_pages] ends up holding exactly the pages of
    the range whose first job handed over no record, each of them
    once: the retry pass takes no page off the list, not even a page
    whose retry job brought records, and adds none. *)
Theorem failed_pages_are_first_job_failures (env : Env)
        (batch_size start_page end_page : Z) (c : Crawl) :
  (1 <= batch_size)%Z -> cooperative env ->
  exists c',
    scrape_pages_with env batch_size start_page end_page c = (Val tt, c') /\
    NoDup (failed_pages c') /\
    (forall page,
        In page (failed_pages c') <->
        (start_page <= page <= end_page)%Z /\
        job_records env (world c) page = []).
Proof.
  intros Hsize Hcoop.
  destruct (cooperative_run_union env batch_size start_page end_page c
              Hsize Hcoop) as (c' & evs & Hrun & _ & _ & Hfailed & _).
  exists c'. split; [exact Hrun|]. split.
  - apply (Permutation_NoDup (Permutation_sym Hfailed)).
    apply NoDup_filter, range1_NoDup.
  - intros page. split.
    + intros Hin. apply (Permutation_in _ Hfailed) in Hin.
      apply filter_In in Hin as (Hrange & Hfails).
      apply in_range1 in Hrange. split; [lia|].
      unfold fails in Hfails.
      now destruct (job_records env (world c) page).
    + intros (Hrange & Hnone).
      apply (Permutation_in _ (Permutation_sym Hfailed)).
      apply filter_In. split; [apply in_range1; lia|].
      unfold fails. now rewrite Hnone.
Qed.

Lemma failed_pages_are_first_job_failures_witness :
  exists c',
    scrape_pages_with (page_three_times_out (fun pages => pages)) 2 1 4
                      (__init__ new_world) = (Val tt, c') /\
    NoDup (failed_pages c') /\
    (forall page,
        In page (failed_pages c') <->
        (1 <= page <= 4)%Z /\
        job_records (page_three_times_out (fun pages => pages))
                    (world (__init__ new_world)) page = []).
Proof.
  apply (failed_pages_are_first_job_failures
           (page_three_times_out (fun pages => pages)) 2 1 4
           (__init__ new_world)).
  - lia.
  - split; [reflexivity | intros pages; apply Permutation_refl].
Defined.

End RunExtras.

(** ** Parsing a listing *)

Module ParseExtras.

Import PyText ListingParser.
Local Open Scope py_scope.

(** *** Texts *)

Lemma skip_whitespace_empty (s : string) :
  skip_whitespace s = EmptyString <-> all_chars is_whitespace s = true.
Proof.
  induction s as [|c s IH]; cbn; [tauto|].
  destruct (is_whitespace c); cbn; [exact IH|].
  split; discriminate.
Qed.

(** What [skip_whitespace] drops is whitespace, and what it leaves
    does not start with whitespace. *)
Lemma skip_whitespace_split (s : string) :
  exists lead,
    s = (lead ++ skip_whitespace s)%string /\
    all_chars is_whitespace lead = true /\
    skip_whitespace (skip_whitespace s) = skip_whitespace s.
Proof.
  induction s as [|c s (lead & Hs & Hlead & Hidem)].
  - exists EmptyString. repeat split.
  - cbn [skip_whitespace]. destruct (is_whitespace c) eqn:Hc.
    + exists (String c lead). cbn. rewrite Hc, Hlead, <- Hs. auto.
    + exists EmptyString. cbn. rewrite Hc. auto.
Qed.

Lemma skip_whitespace_head (s : string) (c : ascii) (r : string) :
  skip_whitespace s = String c r -> is_whitespace c = false.
Proof.
  induction s as [|c0 s IH]; cbn; [discriminate|].
  destruct (is_whitespace c0) eqn:Hc0; [exact IH|].
  intros Heq. inversion Heq. now subst.
Qed.

(** The word split off holds no whitespace, and whitespace follows it
    unless the text ends there. *)
Lemma first_word_split (s : string) :
  s = (fst (first_word s) ++ snd (first_word s))%string /\
  any_char is_whitespace (fst (first_word s)) = false /\
  (forall c r, snd (first_word s) = String c r -> is_whitespace c = true) /\
  (forall c r, s = String c r -> is_whitespace c = false ->
               fst (first_word s) <> EmptyString).
Proof.
  induction s as [|c s (Hs & Hw & Hafter & _)]; cbn [first_word].
  - repeat split; try discriminate.
  - destruct (is_whitespace c) eqn:Hc; cbn [fst snd].
    + repeat split.
      * intros c0 r Heq. inversion Heq. now subst.
      * intros c0 r Heq Hc0. inversion Heq. subst. congruence.
    + destruct (first_word s) as [w after]. cbn [fst snd] in *.
      cbn. rewrite Hc, <- Hs. repeat split; auto. discriminate.
Qed.

Lemma split_maxsplit_1_empty (s : string) :
  split_maxsplit_1 s = [] <-> all_chars is_whitespace s = true.
Proof.
  rewrite <- skip_whitespace_empty. unfold split_maxsplit_1.
  destruct (skip_whitespace s) as [|c r]; [tauto|].
  destruct (first_word (String c r)) as [w after].
  destruct (skip_whitespace after); split; discriminate.
Qed.

(** The pieces of [split(maxsplit=1)] of a text that is not all
    whitespace: the first word, and what follows the whitespace after
    it. *)
Lemma split_maxsplit_1_pieces (s : string) :
  all_chars is_whitespace s = false ->
  exists lead word gap rest,
    s = (lead ++ word ++ gap ++ rest)%string /\
    all_chars is_whitespace lead = true /\
    word <> EmptyString /\
    any_char is_whitespace word = false /\
    all_chars is_whitespace gap = true /\
    skip_whitespace rest = rest /\
    (rest <> EmptyString -> gap <> EmptyString) /\
    split_maxsplit_1 s =
      match rest with
      | EmptyString => [word]
      | _ => [word; rest]
      end.
Proof.
  intros Hsome. unfold split_maxsplit_1.
  destruct (skip_whitespace_split s) as (lead & Hs & Hlead & _).
  destruct (skip_whitespace s) as [|c r] eqn:Hskip.
  - rewrite (proj1 (skip_whitespace_empty s) Hskip) in Hsome. discriminate.
  - pose proof (skip_whitespace_head s c r Hskip) as Hc.
    destruct (first_word_split (String c r)) as (Ht & Hw & Hafter & Hne).
    specialize (Hne c r eq_refl Hc).
    destruct (first_word (String c r)) as [w after]. cbn [fst snd] in *.
    destruct (skip_whitespace_split after) as (gap & Ha & Hgap & Hidem).
    exists lead, w, gap, (skip_whitespace after).
    split; [now rewrite <- Ha, <- Ht|].
    repeat (split; [assumption|]).
    split.
    + intros Hrest Hnogap. subst gap. cbn in Ha.
      destruct after as [|c1 r1]; [now apply Hrest|].
      pose proof (Hafter c1 r1 eq_refl) as Hc1.
      rewrite (skip_whitespace_head _ c1 r1 (eq_sym Ha)) in Hc1.
      discriminate.
    + destruct (skip_whitespace after); reflexivity.
Qed.

(** *** The statements of [parse_listing_data] *)

Lemma set_price_same (l : ListingData) : set_price (price l) l = l.
Proof. now destruct l. Qed.

Lemma set_hours_same (l : ListingData) : set_hours (hours l) l = l.
Proof. now destruct l. Qed.

Lemma float_empty : float EmptyString = None.
Proof. reflexivity. Qed.

(** The price statement completes whatever the text, and touches the
    price only. *)
Lemma process_price_runs (d : raw) (l : ListingData) :
  exists v,
    process_price d l = (Val tt, set_price v l) /\
    (price l = None ->
     v = match get d "price_text" with
         | Some text => float (keep_chars digit_or_dot text)
         | None => None
         end).
Proof.
  unfold process_price.
  destruct (get d "price_text") as [[|c text]|].
  - exists (price l). rewrite set_price_same. auto.
  - set (numeric := keep_chars digit_or_dot (String c text)).
    unfold try_except, bind, to_float, modify, ret, raise.
    destruct numeric as [|c1 n1] eqn:Hnum.
    + exists None. auto.
    + destruct (float (String c1 n1)) as [x|] eqn:Hfl.
      * exists (Some x). auto.
      * exists (price l). rewrite set_price_same. split; [reflexivity|].
        intros ->. reflexivity.
  - exists (price l). rewrite set_price_same. auto.
Qed.

(** The hours statement completes whatever the text, and touches the
    hours only. *)
Lemma process_hours_runs (d : raw) (l : ListingData) :
  exists v,
    process_hours d l = (Val tt, set_hours v l) /\
    (hours l = None ->
     v = match get d "hours_text" with
         | Some text =>
             let hours_clean :=
               remove_char COMMA (keep_chars digit_dot_or_comma text) in
             match float hours_clean, hours_clean with
             | Some x, _ => Some x
             | None, EmptyString => None
             | None, _ =>
                 match search_number text with
                 | Some group1 => float (remove_char COMMA group1)
                 | None => None
                 end
             end
         | None => None
         end).
Proof.
  unfold process_hours.
  destruct (get d "hours_text") as [[|c text]|].
  - exists (hours l). rewrite set_hours_same. auto.
  - cbv zeta.
    set (hours_clean :=
           remove_char COMMA (keep_chars digit_dot_or_comma (String c text))).
    unfold try_except, bind, to_float, modify, ret, raise.
    destruct hours_clean as [|c1 n1] eqn:Hclean.
    + exists None. auto.
    + destruct (float (String c1 n1)) as [x|] eqn:Hfl.
      * exists (Some x). auto.
      * destruct (search_number (String c text)) as [group1|].
        -- destruct (float (remove_char COMMA group1)) as [y|].
           ++ exists (Some y). auto.
           ++ exists (hours l). rewrite set_hours_same.
              split; [reflexivity | intros ->; reflexivity].
        -- exists (hours l). rewrite set_hours_same.
           split; [reflexivity | intros ->; reflexivity].
  - exists (hours l). rewrite set_hours_same. auto.
Qed.

(** The fields of a listing that [parse_listing_data] returns. *)
Lemma parse_fields (d : raw) (l : ListingData) :
  parse_listing_data (Some d) = Some l ->
  match get d "title_text" with
  | Some (String _ _ as title) =>
      match split_maxsplit_1 title with
      | [] => False
      | [part0] => brand l = Some part0 /\ model l = None
      | part0 :: part1 :: _ => brand l = Some part0 /\ model l = Some part1
      end
  | _ => brand l = None /\ model l = None
  end /\
  price l = match get d "price_text" with
            | Some text => float (keep_chars digit_or_dot text)
            | None => None
            end /\
  hours l = match get d "hours_text" with
            | Some text =>
                let hours_clean :=
                  remove_char COMMA (keep_chars digit_dot_or_comma text) in
                match float hours_clean, hours_clean with
                | Some x, _ => Some x
                | None, EmptyString => None
                | None, _ =>
                    match search_number text with
                    | Some group1 => float (remove_char COMMA group1)
                    | None => None
                    end
                end
            | None => None
            end /\
  sold_date l = get d "sold_date" /\ specs l = get d "specs" /\
  location l = get d "location" /\ condition l = get d "condition".
Proof.
  unfold parse_listing_data. destruct d as [|entry d']; [discriminate|].
  remember (entry :: d') as d eqn:Hd. clear Hd. unfold bind at 1.
  assert (Htitle :
    exists b m,
      (process_title d new_listing = (Exc, new_listing) \/
       process_title d new_listing =
         (Val tt, set_model m (set_brand b new_listing))) /\
      (forall l, brand l = b -> model l = m ->
         process_title d new_listing <> (Exc, new_listing) ->
         match get d "title_text" with
         | Some (String _ _ as title) =>
             match split_maxsplit_1 title with
             | [] => False
             | [part0] => brand l = Some part0 /\ model l = None
             | part0 :: part1 :: _ =>
                 brand l = Some part0 /\ model l = Some part1
             end
         | _ => brand l = None /\ model l = None
         end)).
  { unfold process_title.
    destruct (get d "title_text") as [[|c title]|].
    - exists None, None. split; [right; reflexivity | auto].
    - destruct (split_maxsplit_1 (String c title)) as [|part0 [|part1 more]].
      + exists None, None. split; [left; reflexivity|].
        intros l0 _ _ Hne. now apply Hne.
      + exists (Some part0), None. split; [right; reflexivity | auto].
      + exists (Some part0), (Some part1). split; [right; reflexivity | auto].
    - exists None, None. split; [right; reflexivity | auto]. }
  destruct Htitle as (b & m & [Hrun | Hrun] & Hread); rewrite Hrun;
    [discriminate|].
  set (l1 := set_model m (set_brand b new_listing)).
  destruct (process_price_runs d l1) as (v & Hprice & Hv).
  unfold bind at 1. rewrite Hprice.
  destruct (process_hours_runs d (set_price v l1)) as (h & Hhours & Hh).
  unfold bind at 1. rewrite Hhours.
  unfold copy_direct_fields, modify. intros [= <-].
  specialize (Hv eq_refl). specialize (Hh eq_refl).
  split; [|cbn; rewrite Hv, Hh; repeat split].
  match goal with |- context [brand ?r] => apply (Hread r) end;
    try reflexivity.
  rewrite Hrun. discriminate.
Qed.

(** [parse_listing_data] gives up on an empty dict and on a title of
    whitespace, and on nothing else. *)
Lemma parse_dict_none (d : raw) :
  parse_listing_data (Some d) = None <->
  d = [] \/
  exists title, get d "title_text" = Some title /\
                title <> EmptyString /\
                all_chars is_whitespace title = true.
Proof.
  unfold parse_listing_data. destruct d as [|entry d'].
  - split; auto.
  - remember (entry :: d') as d eqn:Hd.
    assert (Hfull : d <> []) by (subst d; discriminate). clear Hd.
    unfold bind at 1. unfold process_title.
    destruct (get d "title_text") as [[|c title]|].
    + destruct (process_price_runs d new_listing) as (v & Hprice & _).
      unfold ret at 1. unfold bind at 1. rewrite Hprice.
      destruct (process_hours_runs d (set_price v new_listing))
        as (h & Hhours & _).
      unfold bind at 1. rewrite Hhours. cbn.
      split; [discriminate|].
      intros [Hd | (title & Ht & Hne & _)]; [contradiction|].
      inversion Ht. subst. contradiction.
    + pose proof (split_maxsplit_1_empty (String c title)) as Hempty.
      destruct (split_maxsplit_1 (String c title)) as [|part0 more].
      * unfold raise. split; [|reflexivity]. intros _. right.
        exists (String c title). split; [reflexivity|].
        split; [discriminate | now apply Hempty].
      * set (l1 := snd ((modify (set_brand (Some part0)) ;;
                         match more with
                         | [] => ret tt
                         | part1 :: _ => modify (set_model (Some part1))
                         end) new_listing)).
        assert (Hrun :
          (modify (set_brand (Some part0)) ;;
           match more with
           | [] => ret tt
           | part1 :: _ => modify (set_model (Some part1))
           end) new_listing = (Val tt, l1))
          by (subst l1; destruct more; reflexivity).
        rewrite Hrun.
        destruct (process_price_runs d l1) as (v & Hprice & _).
        unfold bind at 1. rewrite Hprice.
        destruct (process_hours_runs d (set_price v l1)) as (h & Hhours & _).
        unfold bind at 1. rewrite Hhours. cbn.
        split; [discriminate|].
        intros [Hd | (t & Ht & _ & Hws)]; [contradiction|].
        inversion Ht. subst t. apply Hempty in Hws. discriminate.
    + destruct (process_price_runs d new_listing) as (v & Hprice & _).
      unfold ret at 1. unfold bind at 1. rewrite Hprice.
      destruct (process_hours_runs d (set_price v new_listing))
        as (h & Hhours & _).
      unfold bind at 1. rewrite Hhours. cbn.
      split; [discriminate|].
      intros [Hd | (title & Ht & _)]; [contradiction | discriminate].
Qed.

(** X11.  [parse_listing_data] returns [None] exactly for a missing
    or empty [raw_data] and for a title that is not empty but holds
    whitespace only (its [parts[0]] raises); no price or hours text,
    however malformed, makes it give up.  A listing that is returned
    carries the four direct fields as the dict has them. *)
Theorem parse_gives_up_only_on_blank_title (raw_data : option raw) :
  (parse_listing_data raw_data = None <->
   raw_data = None \/ raw_data = Some [] \/
   exists d title,
     raw_data = Some d /\ get d "title_text" = Some title /\
     title <> EmptyString /\ all_chars is_whitespace title = true) /\
  (forall d listing,
      raw_data = Some d -> parse_listing_data raw_data = Some listing ->
      sold_date listing = get d "sold_date" /\
      specs listing = get d "specs" /\
      location listing = get d "location" /\
      condition listing = get d "condition").
Proof.
  split.
  - destruct raw_data as [d|].
    + rewrite parse_dict_none. split.
      * intros [-> | (title & Ht)]; [auto|].
        right. right. exists d, title. auto.
      * intros [Hn | [Hn | (d0 & title & Hd & Ht)]];
          [discriminate | inversion Hn; auto |].
        inversion Hd. subst d0. right. exists title. exact Ht.
    + split; auto.
  - intros d listing -> Hparse.
    apply parse_fields in Hparse. tauto.
Qed.

(** X12.  The title is cut at its first run of whitespace: [brand] is
    the first word of the title and [model] everything after the
    whitespace that follows it, trailing whitespace included, or
    [None] when nothing follows.  A brand of two words is thus split
    between the two fields. *)
Theorem title_is_cut_after_first_word (d : raw) (listing : ListingData)
        (title : string) :
  parse_listing_data (Some d) = Some listing ->
  get d "title_text" = Some title ->
  title <> EmptyString ->
  exists lead word gap rest,
    title = (lead ++ word ++ gap ++ rest)%string /\
    all_chars is_whitespace lead = true /\
    word <> EmptyString /\
    any_char is_whitespace word = false /\
    all_chars is_whitespace gap = true /\
    skip_whitespace rest = rest /\
    (rest <> EmptyString -> gap <> EmptyString) /\
    brand listing = Some word /\
    model listing = match rest with
                    | EmptyString => None
                    | _ => Some rest
                    end.
Proof.
  intros Hparse Htitle Hne.
  apply parse_fields in Hparse as (Hparts & _).
  rewrite Htitle in Hparts.
  destruct title as [|c title]; [contradiction|].
  destruct (all_chars is_whitespace (String c title)) eqn:Hws.
  - apply split_maxsplit_1_empty in Hws. rewrite Hws in Hparts.
    contradiction.
  - destruct (split_maxsplit_1_pieces _ Hws)
      as (lead & word & gap & rest & Hcut & Hlead & Hword & Hnows & Hgap &
          Hrest & Hsep & Hsplit).
    rewrite Hsplit in Hparts.
    exists lead, word, gap, rest.
    repeat (split; [assumption|]).
    destruct rest; tauto.
Qed.

Lemma title_is_cut_after_first_word_witness :
  exists lead word gap rest,
    "John Deere 4020" = (lead ++ word ++ gap ++ rest)%string /\
    all_chars is_whitespace lead = true /\
    word <> EmptyString /\
    any_char is_whitespace word = false /\
    all_chars is_whitespace gap = true /\
    skip_whitespace rest = rest /\
    (rest <> EmptyString -> gap <> EmptyString) /\
    brand parsed_deere_4020 = Some word /\
    model parsed_deere_4020 = match rest with
                              | EmptyString => None
                              | _ => Some rest
                              end.
Proof.
  apply (title_is_cut_after_first_word deere_4020 parsed_deere_4020).
  - vm_compute. reflexivity.
  - reflexivity.
  - discriminate.
Defined.

(** *** Digits, dots and commas *)

Lemma digit_not_dot (c : ascii) : is_digit c = true -> is_dot c = false.
Proof.
  destruct c as [[] [] [] [] [] [] [] []]; vm_compute; congruence.
Qed.

Lemma digit_not_comma (c : ascii) : is_digit c = true -> is_comma c = false.
Proof.
  destruct c as [[] [] [] [] [] [] [] []]; vm_compute; congruence.
Qed.

Lemma dot_not_comma (c : ascii) : is_dot c = true -> is_comma c = false.
Proof.
  destruct c as [[] [] [] [] [] [] [] []]; vm_compute; congruence.
Qed.

Lemma any_char_keep (p q : ascii -> bool) (s : string) :
  (forall c, q c = true -> p c = true) ->
  any_char q (keep_chars p s) = any_char q s.
Proof.
  intros Hsub. induction s as [|c s IH]; [reflexivity|].
  cbn. destruct (p c) eqn:Hp; cbn; rewrite IH; [reflexivity|].
  destruct (q c) eqn:Hq; [|reflexivity].
  rewrite (Hsub c Hq) in Hp. discriminate.
Qed.

Lemma count_char_keep (p q : ascii -> bool) (s : string) :
  (forall c, q c = true -> p c = true) ->
  count_char q (keep_chars p s) = count_char q s.
Proof.
  intros Hsub. induction s as [|c s IH]; [reflexivity|].
  cbn. destruct (p c) eqn:Hp; cbn; rewrite IH; [reflexivity|].
  destruct (q c) eqn:Hq; [|reflexivity].
  rewrite (Hsub c Hq) in Hp. discriminate.
Qed.

Lemma all_chars_keep (p : ascii -> bool) (s : string) :
  all_chars p (keep_chars p s) = true.
Proof.
  induction s as [|c s IH]; [reflexivity|].
  cbn. destruct (p c) eqn:Hp; [cbn; now rewrite Hp|exact IH].
Qed.

Lemma keep_chars_ext (p q : ascii -> bool) (s : string) :
  (forall c, p c = q c) -> keep_chars p s = keep_chars q s.
Proof.
  intros Heq. induction s as [|c s IH]; [reflexivity|].
  cbn. now rewrite Heq, IH.
Qed.

Lemma keep_chars_twice (p q : ascii -> bool) (s : string) :
  keep_chars p (keep_chars q s) = keep_chars (fun c => q c && p c) s.
Proof.
  induction s as [|c s IH]; [reflexivity|].
  cbn. destruct (q c); cbn; [|exact IH].
  destruct (p c); now rewrite IH.
Qed.

Lemma digits_value_keep (p : ascii -> bool) (s : string) :
  (forall c, is_digit c = true -> p c = true) ->
  forall acc, digits_value acc (keep_chars p s) = digits_value acc s.
Proof.
  intros Hsub. induction s as [|c s IH]; intros acc; [reflexivity|].
  cbn. destruct (p c) eqn:Hp; cbn.
  - destruct (is_digit c); apply IH.
  - destruct (is_digit c) eqn:Hd; [|apply IH].
    rewrite (Hsub c Hd) in Hp. discriminate.
Qed.

Lemma fraction_digits_keep (p : ascii -> bool) (s : string) :
  (forall c, is_digit c = true -> p c = true) ->
  (forall c, is_dot c = true -> p c = true) ->
  fraction_digits (keep_chars p s) = fraction_digits s.
Proof.
  intros Hdigit Hdot. induction s as [|c s IH]; [reflexivity|].
  cbn. destruct (p c) eqn:Hp; cbn.
  - destruct (is_dot c); [|exact IH].
    now apply count_char_keep.
  - destruct (is_dot c) eqn:Hd; [|exact IH].
    rewrite (Hdot c Hd) in Hp. discriminate.
Qed.

(** Dropping the commas of the digits, dots and commas of a text
    leaves its digits and dots. *)
Lemma hours_clean_is_numeric (s : string) :
  remove_char COMMA (keep_chars digit_dot_or_comma s) =
  keep_chars digit_or_dot s.
Proof.
  unfold remove_char. rewrite keep_chars_twice. apply keep_chars_ext.
  intros c. unfold digit_dot_or_comma, digit_or_dot.
  fold (is_comma c).
  destruct (is_digit c) eqn:Hdigit; cbn.
  - now rewrite (digit_not_comma c Hdigit).
  - destruct (is_dot c) eqn:Hdot; cbn.
    + now rewrite (dot_not_comma c Hdot).
    + now destruct (is_comma c).
Qed.

(** The digits and dots of a text are a number for [float] when the
    text holds a digit and at most one dot. *)
Lemma numeric_is_decimal (s : string) :
  is_decimal (keep_chars digit_or_dot s) =
  any_char is_digit s && (count_char is_dot s <=? 1).
Proof.
  unfold is_decimal. rewrite all_chars_keep.
  rewrite any_char_keep, count_char_keep; [reflexivity | |];
    intros c Hc; unfold digit_or_dot; rewrite Hc;
    [apply orb_true_r | reflexivity].
Qed.

Lemma float_numeric (s : string) :
  float (keep_chars digit_or_dot s) =
  if any_char is_digit s && (count_char is_dot s <=? 1)
  then Some (round_decimal (digits_value 0 s) (fraction_digits s))
  else None.
Proof.
  unfold float. rewrite numeric_is_decimal.
  rewrite digits_value_keep, fraction_digits_keep; [reflexivity | | |];
    intros c Hc; unfold digit_or_dot; rewrite Hc;
    [reflexivity | apply orb_true_r | reflexivity].
Qed.

(** X13.  The price is read from the digits and dots of the price
    text, everything else dropped: the field is set exactly when the
    text holds a digit and at most one dot, and its value is then the
    number written by all the digits of the text run together, with as
    many decimals as there are digits after the dot.  A text with two
    dots leaves the price unset. *)
Theorem price_is_digits_of_text (d : raw) (listing : ListingData)
        (text : string) :
  parse_listing_data (Some d) = Some listing ->
  get d "price_text" = Some text ->
  (price listing <> None <->
   any_char is_digit text = true /\ count_char is_dot text <= 1) /\
  (any_char is_digit text = true -> count_char is_dot text <= 1 ->
   price listing =
     Some (round_decimal (digits_value 0 text) (fraction_digits text))).
Proof.
  intros Hparse Htext.
  apply parse_fields in Hparse as (_ & Hprice & _).
  rewrite Htext, float_numeric in Hprice. rewrite Hprice.
  destruct (any_char is_digit text); cbn [andb].
  - destruct (count_char is_dot text <=? 1) eqn:Hdots.
    + apply Nat.leb_le in Hdots. split; [|reflexivity].
      split; [auto | discriminate].
    + apply Nat.leb_gt in Hdots. split.
      * split; [contradiction | lia].
      * lia.
  - split; [|discriminate].
    split; [contradiction | intros [Hfalse _]; discriminate].
Qed.

Lemma price_is_digits_of_text_witness :
  (price parsed_deere_4020 <> None <->
   any_char is_digit "$12,500.00" = true /\
   count_char is_dot "$12,500.00" <= 1) /\
  (any_char is_digit "$12,500.00" = true ->
   count_char is_dot "$12,500.00" <= 1 ->
   price parsed_deere_4020 =
     Some (round_decimal (digits_value 0 "$12,500.00")
                         (fraction_digits "$12,500.00"))).
Proof.
  apply (price_is_digits_of_text deere_4020 parsed_deere_4020).
  - vm_compute. reflexivity.
  - reflexivity.
Defined.

(** *** The first number of a text *)

Lemma all_chars_app (p : ascii -> bool) (a b : string) :
  all_chars p (a ++ b) = all_chars p a && all_chars p b.
Proof.
  induction a as [|c a IH]; [reflexivity|].
  cbn. now rewrite IH, andb_assoc.
Qed.

Lemma any_char_app (p : ascii -> bool) (a b : string) :
  any_char p (a ++ b) = any_char p a || any_char p b.
Proof.
  induction a as [|c a IH]; [reflexivity|].
  cbn. now rewrite IH, orb_assoc.
Qed.

Lemma count_char_app (p : ascii -> bool) (a b : string) :
  count_char p (a ++ b) = count_char p a + count_char p b.
Proof.
  induction a as [|c a IH]; [reflexivity|].
  cbn. rewrite IH. lia.
Qed.

Lemma all_chars_weaken (p q : ascii -> bool) (s : string) :
  (forall c, p c = true -> q c = true) ->
  all_chars p s = true -> all_chars q s = true.
Proof.
  intros Hsub. induction s as [|c s IH]; [reflexivity|].
  cbn. intros Hall. apply andb_true_iff in Hall as (Hc & Hs).
  now rewrite (Hsub c Hc), IH.
Qed.

Lemma count_char_none (p q : ascii -> bool) (s : string) :
  (forall c, p c = true -> q c = false) ->
  all_chars p s = true -> count_char q s = 0.
Proof.
  intros Hsub. induction s as [|c s IH]; [reflexivity|].
  cbn. intros Hall. apply andb_true_iff in Hall as (Hc & Hs).
  now rewrite (Hsub c Hc), IH.
Qed.

Lemma up_to_digits_digits (n : nat) (s : string) :
  all_chars is_digit (fst (up_to_digits n s)) = true.
Proof.
  revert s. induction n as [|n IH]; intros s; [reflexivity|].
  destruct s as [|c s]; [reflexivity|]. cbn [up_to_digits].
  destruct (is_digit c) eqn:Hc; [|reflexivity].
  specialize (IH s). destruct (up_to_digits n s) as [ds after].
  cbn in *. now rewrite Hc.
Qed.

Lemma all_digits_digits (s : string) :
  all_chars is_digit (fst (all_digits s)) = true.
Proof.
  induction s as [|c s IH]; [reflexivity|]. cbn [all_digits].
  destruct (is_digit c) eqn:Hc; [|reflexivity].
  destruct (all_digits s) as [ds after]. cbn in *. now rewrite Hc.
Qed.

Lemma comma_groups_chars (s : string) :
  all_chars (fun c => is_digit c || is_comma c) (fst (comma_groups s))
  = true.
Proof.
  remember (String.length s) as n eqn:Hn.
  assert (Hle : String.length s <= n) by lia. clear Hn.
  revert s Hle. induction n as [|n IH]; intros s Hle.
  - destruct s; [reflexivity | cbn in Hle; lia].
  - destruct s as [|c0 [|c1 [|c2 [|c3 rest]]]]; try reflexivity.
    cbn [comma_groups].
    destruct (is_comma c0 && is_digit c1 && is_digit c2 && is_digit c3)
      eqn:Hgroup; [|reflexivity].
    apply andb_true_iff in Hgroup as (Hgroup & H3).
    apply andb_true_iff in Hgroup as (Hgroup & H2).
    apply andb_true_iff in Hgroup as (H0 & H1).
    assert (Hrest : String.length rest <= n) by (cbn in Hle; lia).
    specialize (IH rest Hrest).
    destruct (comma_groups rest) as [gs after]. cbn in *.
    rewrite H0, H1, H2, H3, IH. now rewrite orb_true_r.
Qed.

Lemma fraction_chars (s : string) :
  all_chars digit_or_dot (fst (fraction s)) = true /\
  count_char is_dot (fst (fraction s)) <= 1.
Proof.
  unfold fraction. destruct s as [|c0 [|c1 rest]];
    [cbn; split; [reflexivity | lia] .. |].
  destruct (is_dot c0 && is_digit c1) eqn:Hfr;
    [|cbn; split; [reflexivity | lia]].
  apply andb_true_iff in Hfr as (H0 & H1).
  pose proof (all_digits_digits rest) as Hds.
  destruct (all_digits rest) as [ds after]. cbn [fst] in *.
  cbn [all_chars count_char]. unfold digit_or_dot at 1 2.
  rewrite H0, H1, (digit_not_dot c1 H1).
  rewrite (all_chars_weaken is_digit digit_or_dot ds);
    [| intros c Hc; unfold digit_or_dot; now rewrite Hc | exact Hds].
  rewrite (count_char_none is_digit is_dot ds digit_not_dot Hds).
  rewrite orb_true_r. cbn. split; [reflexivity | lia].
Qed.

Lemma float_decimal (s : string) :
  is_decimal s = true ->
  float s = Some (round_decimal (digits_value 0 s) (fraction_digits s)).
Proof. intros Hdec. unfold float. now rewrite Hdec. Qed.

Lemma comma_not_dot (c : ascii) : is_comma c = true -> is_dot c = false.
Proof.
  destruct c as [[] [] [] [] [] [] [] []]; vm_compute; congruence.
Qed.

Lemma not_comma_keeps_digit (c : ascii) :
  is_digit c = true -> negb (Ascii.eqb c COMMA) = true.
Proof. intros Hc. fold (is_comma c). now rewrite (digit_not_comma c Hc). Qed.

Lemma not_comma_keeps_dot (c : ascii) :
  is_dot c = true -> negb (Ascii.eqb c COMMA) = true.
Proof. intros Hc. fold (is_comma c). now rewrite (dot_not_comma c Hc). Qed.

Lemma all_chars_remove_comma (t : string) :
  all_chars digit_dot_or_comma t = true ->
  all_chars digit_or_dot (remove_char COMMA t) = true.
Proof.
  unfold remove_char. induction t as [|x t IH]; [reflexivity|].
  cbn [all_chars keep_chars]. intros Hxt.
  apply andb_true_iff in Hxt as (Hx & Ht).
  change (Ascii.eqb x COMMA) with (is_comma x).
  destruct (is_comma x) eqn:Hcomma; cbn [negb all_chars];
    [now apply IH|].
  unfold digit_dot_or_comma in Hx. rewrite Hcomma, orb_false_r in Hx.
  rewrite Hx. now apply IH.
Qed.

(** Group 1 of a match, its commas dropped, is a number for [float]. *)
Lemma number_at_decimal (s group1 : string) :
  number_at s = Some group1 ->
  is_decimal (remove_char COMMA group1) = true.
Proof.
  unfold number_at.
  pose proof (up_to_digits_digits 3 s) as Hds.
  destruct (up_to_digits 3 s) as [ds after]. cbn [fst] in Hds.
  destruct ds as [|c ds]; [discriminate|].
  pose proof (comma_groups_chars after) as Hgs.
  destruct (comma_groups after) as [gs after1]. cbn [fst] in Hgs.
  destruct (fraction_chars after1) as (Hfr & Hdots).
  destruct (fraction after1) as [fr after2]. cbn [fst] in Hfr, Hdots.
  intros [= <-].
  assert (Hfirst : is_digit c = true)
    by (cbn in Hds; now apply andb_true_iff in Hds).
  unfold is_decimal, remove_char.
  rewrite any_char_keep by exact not_comma_keeps_digit.
  rewrite count_char_keep by exact not_comma_keeps_dot.
  apply andb_true_iff. split; [apply andb_true_iff; split|].
  - assert (Hall : all_chars digit_dot_or_comma (String c ds ++ gs ++ fr)
                   = true).
    { rewrite !all_chars_app.
      rewrite (all_chars_weaken is_digit digit_dot_or_comma (String c ds));
        [| intros x Hx; unfold digit_dot_or_comma, digit_or_dot;
           now rewrite Hx | exact Hds].
      rewrite (all_chars_weaken (fun x => is_digit x || is_comma x)
                 digit_dot_or_comma gs);
        [| | exact Hgs].
      - rewrite (all_chars_weaken digit_or_dot digit_dot_or_comma fr);
          [reflexivity | | exact Hfr].
        intros x Hx. unfold digit_dot_or_comma. now rewrite Hx.
      - intros x Hx. unfold digit_dot_or_comma, digit_or_dot.
        destruct (is_digit x); [reflexivity|]. cbn in Hx. rewrite Hx.
        apply orb_true_r. }
    exact (all_chars_remove_comma _ Hall).
  - cbn. now rewrite Hfirst.
  - apply Nat.leb_le.
    change (String c (ds ++ gs ++ fr))%string
      with (String c ds ++ gs ++ fr)%string.
    rewrite (count_char_app is_dot (String c ds) (gs ++ fr)).
    rewrite count_char_app.
    rewrite (count_char_none is_digit is_dot _ digit_not_dot Hds).
    rewrite (count_char_none (fun x => is_digit x || is_comma x) is_dot gs);
      [lia | | exact Hgs].
    intros x Hx. destruct (is_digit x) eqn:Hd; [now apply digit_not_dot|].
    cbn in Hx. now apply comma_not_dot.
Qed.

Lemma up_to_digits_first (n : nat) (c : ascii) (s : string) :
  is_digit c = true ->
  exists ds after, up_to_digits (S n) (String c s) = (String c ds, after).
Proof.
  intros Hc. cbn [up_to_digits]. rewrite Hc.
  destruct (up_to_digits n s) as [ds after]. eauto.
Qed.

Lemma up_to_digits_none (n : nat) (c : ascii) (s : string) :
  is_digit c = false ->
  up_to_digits (S n) (String c s) = (EmptyString, String c s).
Proof. intros Hc. cbn [up_to_digits]. now rewrite Hc. Qed.

Lemma number_at_digit (c : ascii) (s : string) :
  is_digit c = true -> number_at (String c s) <> None.
Proof.
  intros Hc. unfold number_at.
  destruct (up_to_digits_first 2 c s Hc) as (ds & after & ->).
  destruct (comma_groups after) as [gs after1].
  destruct (fraction after1) as [fr after2]. discriminate.
Qed.

Lemma number_at_no_digit (c : ascii) (s : string) :
  is_digit c = false -> number_at (String c s) = None.
Proof.
  intros Hc. unfold number_at. now rewrite (up_to_digits_none 2 c s Hc).
Qed.

(** The search finds a number in every text that holds a digit, and
    in no other. *)
Lemma search_number_finds (s : string) :
  if any_char is_digit s
  then exists group1, search_number s = Some group1 /\
                      is_decimal (remove_char COMMA group1) = true
  else search_number s = None.
Proof.
  induction s as [|c s IH]; [reflexivity|].
  cbn [any_char search_number].
  destruct (is_digit c) eqn:Hc; cbn [orb].
  - pose proof (number_at_digit c s Hc) as Hsome.
    destruct (number_at (String c s)) as [group1|] eqn:Hat;
      [|contradiction].
    exists group1. split; [reflexivity|].
    now apply (number_at_decimal (String c s)).
  - rewrite (number_at_no_digit c s Hc). exact IH.
Qed.



End ParseExtras.

(** ** The brand crawler *)

Module BrandExtras.

Import PyText TractorLib RangeFacts LoopFacts.
Local Open Scope py_scope.

(** *** Chunks *)

(** The chunks cut from position [a] on. *)
Lemma chunks_from {A : Type} (lst : list A) (k : Z) :
  (1 <= k)%Z ->
  forall fuel a,
    (0 <= a)%Z ->
    Z.to_nat (Z.of_nat (List.length lst) - a) <= fuel ->
    List.concat (map (fun i => slice lst i (i + k))
                (Py.range a (Z.of_nat (List.length lst)) k))
      = skipn (Z.to_nat a) lst /\
    Forall (fun c => 1 <= List.length c <= Z.to_nat k)
           (map (fun i => slice lst i (i + k))
                (Py.range a (Z.of_nat (List.length lst)) k)) /\
    Forall (fun c => List.length c = Z.to_nat k)
           (removelast
              (map (fun i => slice lst i (i + k))
                   (Py.range a (Z.of_nat (List.length lst)) k))).
Proof.
  intros Hk. induction fuel as [|fuel IH]; intros a Ha Hfuel.
  - rewrite range_empty by lia. cbn.
    rewrite skipn_all2 by lia. repeat split; constructor.
  - destruct (Z_lt_le_dec a (Z.of_nat (List.length lst))) as [Hlt | Hge].
    + rewrite range_cons by lia. cbn [map List.concat].
      destruct (IH (a + k)%Z) as (Hcat & Hlen & Hfull); [lia | lia |].
      assert (Hhead : slice lst a (a + k) =
                      firstn (Z.to_nat k) (skipn (Z.to_nat a) lst)).
      { unfold slice. f_equal. f_equal. lia. }
      assert (Hsize : List.length (slice lst a (a + k)) =
                      Nat.min (Z.to_nat k)
                              (List.length lst - Z.to_nat a)).
      { rewrite Hhead, length_firstn, length_skipn. reflexivity. }
      split; [|split].
      * rewrite Hcat, Hhead.
        replace (Z.to_nat (a + k)) with (Z.to_nat k + Z.to_nat a) by lia.
        rewrite <- skipn_skipn. apply firstn_skipn.
      * constructor; [rewrite Hsize; lia | exact Hlen].
      * destruct (Z_lt_le_dec (a + k) (Z.of_nat (List.length lst)))
          as [Hmore | Hlast].
        -- rewrite (range_cons (a + k)) in * by lia. cbn [map] in *.
           cbn [removelast]. constructor; [rewrite Hsize; lia|].
           exact Hfull.
        -- rewrite (range_empty (a + k)) by lia. cbn. constructor.
    + rewrite range_empty by lia. cbn.
      rewrite skipn_all2 by lia. repeat split; constructor.
Qed.

Lemma chunk_list_chunks {A : Type} (lst : list A) (chunk_size : Z) :
  (1 <= chunk_size)%Z ->
  chunk_list lst chunk_size =
  Some (map (fun i => slice lst i (i + chunk_size))
            (Py.range 0 (Z.of_nat (List.length lst)) chunk_size)).
Proof.
  intros Hk. unfold chunk_list.
  destruct (Z.eqb_spec chunk_size 0) as [Hz | _]; [lia|].
  destruct (Z.ltb_spec chunk_size 0) as [Hneg | _]; [lia|].
  reflexivity.
Qed.

Lemma chunk_list_spec {A : Type} (lst : list A) (chunk_size : Z) :
  (1 <= chunk_size)%Z ->
  exists chunks,
    chunk_list lst chunk_size = Some chunks /\
    List.concat chunks = lst /\
    Forall (fun c => 1 <= List.length c <= Z.to_nat chunk_size) chunks /\
    Forall (fun c => List.length c = Z.to_nat chunk_size)
           (removelast chunks) /\
    Z.of_nat (List.length chunks) =
      ((Z.of_nat (List.length lst) + chunk_size - 1) / chunk_size)%Z.
Proof.
  intros Hk. eexists. split; [now apply chunk_list_chunks|].
  destruct (chunks_from lst chunk_size Hk
              (Z.to_nat (Z.of_nat (List.length lst) - 0)) 0%Z)
    as (Hcat & Hlen & Hfull); [lia | lia |].
  split; [exact Hcat|]. split; [exact Hlen|]. split; [exact Hfull|].
  unfold Py.range. rewrite !length_map, length_seq.
  rewrite Z2Nat.id.
  - f_equal. lia.
  - apply Z.div_pos; lia.
Qed.

(** X15.  For a chunk size of at least 1, [chunk_list] cuts the list
    into consecutive chunks: put end to end the chunks give back the
    list, no chunk is empty, every chunk but the last holds exactly
    [chunk_size] elements and the last at most that many, and there
    are [len(lst) / chunk_size] chunks, rounded up. *)
Theorem chunk_list_cuts_into_full_chunks {A : Type} (lst : list A)
        (chunk_size : Z) :
  (1 <= chunk_size)%Z ->
  exists chunks,
    chunk_list lst chunk_size = Some chunks /\
    List.concat chunks = lst /\
    Forall (fun c => 1 <= List.length c <= Z.to_nat chunk_size) chunks /\
    Forall (fun c => List.length c = Z.to_nat chunk_size)
           (removelast chunks) /\
    Z.of_nat (List.length chunks) =
      ((Z.of_nat (List.length lst) + chunk_size - 1) / chunk_size)%Z.
Proof. intros Hk. exact (chunk_list_spec lst chunk_size Hk). Qed.

Lemma chunk_list_cuts_into_full_chunks_witness :
  exists chunks,
    chunk_list BRANDS 7 = Some chunks /\
    List.concat chunks = BRANDS /\
    Forall (fun c => 1 <= List.length c <= Z.to_nat 7) chunks /\
    Forall (fun c => List.length c = Z.to_nat 7) (removelast chunks) /\
    Z.of_nat (List.length chunks) =
      ((Z.of_nat (List.length BRANDS) + 7 - 1) / 7)%Z.
Proof.
  apply (chunk_list_cuts_into_full_chunks BRANDS 7). lia.
Defined.

(** *** All brands *)

Lemma scrape_brand_chunk_flat_map (site : Site) (brand_chunk : list string) :
  scrape_brand_chunk site brand_chunk =
  flat_map (scrape_brand_models site) brand_chunk.
Proof.
  unfold scrape_brand_chunk.
  assert (Hgen : forall acc,
    fold_left (fun results brand =>
                 match scrape_brand_models site brand with
                 | [] => results
                 | brand_results => results ++ brand_results
                 end) brand_chunk acc
    = acc ++ flat_map (scrape_brand_models site) brand_chunk).
  { induction brand_chunk as [|b rest IH]; intros acc.
    - cbn. now rewrite app_nil_r.
    - cbn [fold_left flat_map]. rewrite IH.
      destruct (scrape_brand_models site b) as [|r rs].
      + reflexivity.
      + now rewrite app_assoc. }
  apply (Hgen []).
Qed.

Lemma chunk_results_concat (site : Site) (chunks : list (list string)) :
  List.concat (map (scrape_brand_chunk site) chunks) =
  flat_map (scrape_brand_models site) (List.concat chunks).
Proof.
  induction chunks as [|c chunks IH]; [reflexivity|].
  cbn [map List.concat]. rewrite flat_map_app, IH.
  now rewrite scrape_brand_chunk_flat_map.
Qed.

(** The loop over [chunk_results] appends them all, in order. *)
Lemma extend_all (chunk_results : list (list Tractor)) :
  forall s,
    for_each chunk_results extend s =
    (Val tt, {| results := results s ++ List.concat chunk_results;
                json_file := json_file s; csv_file := csv_file s;
                log_lines := log_lines s |}).
Proof.
  induction chunk_results as [|c rest IH]; intros s.
  - cbn. rewrite app_nil_r. now destruct s.
  - cbn [for_each List.concat]. unfold bind, extend at 1, modify.
    rewrite IH. cbn. now rewrite app_assoc.
Qed.

(** X16.  With at least one process, [scrape_all_brands] appends to
    [self.results] the items of all 31 brands, brand after brand in
    the order of [BRANDS], whatever the number of processes; with up
    to 31 processes the brands are cut into at least as many chunks as
    there are processes.  When the writes succeed the call returns,
    the JSON file holds the whole of [self.results], the CSV file
    too unless there is no result at all, and one line is logged.
    With fewer than one process the call raises and leaves the object
    and the files as they were. *)
Theorem all_brands_whatever_the_processes (site : Site)
        (num_processes : Z) (s : Scraper) :
  ((1 <= num_processes)%Z ->
   results (snd (scrape_all_brands site num_processes s)) =
     results s ++ all_models site /\
   (save_outcome site = Written ->
    scrape_all_brands site num_processes s =
      (Val tt,
       {| results := results s ++ all_models site;
          json_file := Dump (results s ++ all_models site);
          csv_file := match results s ++ all_models site with
                      | [] => csv_file s
                      | _ => Dump (results s ++ all_models site)
                      end;
          log_lines := log_lines s ++
                       [List.length (results s ++ all_models site)] |})) /\
   ((num_processes <= Z.of_nat (List.length BRANDS))%Z ->
    exists brand_chunks,
      chunk_list BRANDS
        (Z.max 1 (Z.of_nat (List.length BRANDS) / num_processes))
        = Some brand_chunks /\
      List.concat brand_chunks = BRANDS /\
      (num_processes <= Z.of_nat (List.length brand_chunks))%Z)) /\
  ((num_processes <= 0)%Z ->
   scrape_all_brands site num_processes s = (Exc, s)).
Proof.
  split.
  - intros Hn. change (Z.of_nat (List.length BRANDS)) with 31%Z.
    destruct (chunk_list_spec BRANDS (Z.max 1 (31 / num_processes)))
      as (chunks & Hchunks & Hcat & _ & _ & Hcount); [lia|].
    assert (Hrun :
      scrape_all_brands site num_processes s =
      (save_results site ;; log_completed)
        {| results := results s ++ all_models site;
           json_file := json_file s; csv_file := csv_file s;
           log_lines := log_lines s |}).
    { unfold scrape_all_brands.
      destruct (Z.eqb_spec num_processes 0) as [Hz | _]; [lia|].
      change (Z.of_nat (List.length BRANDS)) with 31%Z.
      rewrite Hchunks.
      destruct (Z.ltb_spec num_processes 1) as [Hneg | _]; [lia|].
      unfold bind at 1. rewrite extend_all.
      rewrite chunk_results_concat, Hcat. reflexivity. }
    rewrite Hrun. clear Hrun.
    unfold save_results, log_completed, bind, gets, set_json, set_csv,
      modify, raise, ret.
    cbn [results json_file csv_file log_lines].
    split; [|split].
    + destruct (save_outcome site);
        destruct (results s ++ all_models site); reflexivity.
    + intros ->. destruct (results s ++ all_models site); reflexivity.
    + intros Hmax. exists chunks. split; [exact Hchunks|].
      split; [exact Hcat|]. rewrite Hcount.
      change (Z.of_nat (List.length BRANDS)) with 31%Z.
      assert (Hsize : (1 <= 31 / num_processes)%Z)
        by (apply Z.div_le_lower_bound; lia).
      rewrite Z.max_r by lia.
      set (c := (31 / num_processes)%Z) in *.
      assert (Hfit : (num_processes * c <= 31)%Z)
        by (subst c; apply Z.mul_div_le; lia).
      apply Z.div_le_lower_bound; [lia|]. nia.
  - intros Hn. unfold scrape_all_brands.
    destruct (Z.eqb_spec num_processes 0) as [Hz | Hnz]; [reflexivity|].
    assert (Hsize : (1 <= Z.max 1 (Z.of_nat (List.length BRANDS) /
                                   num_processes))%Z) by lia.
    rewrite (chunk_list_chunks BRANDS _ Hsize).
    destruct (Z.ltb_spec num_processes 1) as [_ | Hpos]; [reflexivity|lia].
Qed.

(** *** Brand pages *)

Lemma all_distinct_NoDup (l : list string) :
  all_distinct l = true -> NoDup l.
Proof.
  induction l as [|x l IH]; [constructor|].
  cbn [all_distinct]. intros Hall.
  apply andb_true_iff in Hall as (Hx & Hl).
  constructor; [|now apply IH].
  intros Hin. apply negb_true_iff in Hx.
  assert (Hex : existsb (String.eqb x) l = true).
  { apply existsb_exists. exists x. split; [exact Hin|].
    apply String.eqb_refl. }
  rewrite Hex in Hx. discriminate.
Qed.

Lemma lower_char_not_upper (c : ascii) : is_upper (lower_char c) = false.
Proof.
  destruct c as [[] [] [] [] [] [] [] []]; vm_compute; reflexivity.
Qed.

Lemma all_chars_keep_both (p q : ascii -> bool) (s : string) :
  all_chars q s = true -> all_chars q (keep_chars p s) = true.
Proof.
  induction s as [|c s IH]; [reflexivity|].
  cbn. intros Hall. apply andb_true_iff in Hall as (Hc & Hs).
  destruct (p c); cbn; [rewrite Hc|]; now apply IH.
Qed.

Lemma all_chars_kept (p : ascii -> bool) (s : string) :
  all_chars p (keep_chars p s) = true.
Proof.
  induction s as [|c s IH]; [reflexivity|].
  cbn. destruct (p c) eqn:Hp; [cbn; now rewrite Hp | exact IH].
Qed.

Lemma all_chars_and (p q : ascii -> bool) (s : string) :
  all_chars p s = true -> all_chars q s = true ->
  all_chars (fun c => p c && q c) s = true.
Proof.
  induction s as [|c s IH]; [reflexivity|].
  cbn. intros Hp Hq.
  apply andb_true_iff in Hp as (Hpc & Hps).
  apply andb_true_iff in Hq as (Hqc & Hqs).
  now rewrite Hpc, Hqc, IH.
Qed.

Lemma lower_not_upper (s : string) :
  all_chars (fun c => negb (is_upper c)) (lower s) = true.
Proof.
  induction s as [|c s IH]; [reflexivity|].
  cbn. now rewrite lower_char_not_upper, IH.
Qed.

(** X17.  No two of the 31 brands are sent to the same page, and the
    part of the URL made from each of them holds small letters and
    dashes only.  For any brand outside [brand_map] that part holds
    no space, no dash, no dot and no ASCII capital letter. *)
Theorem brand_urls_distinct_and_plain :
  NoDup (map get_brand_url BRANDS) /\
  Forall (fun brand => all_chars is_slug_char (brand_formatted brand) = true)
         BRANDS /\
  (forall brand,
      lookup brand_map brand = None ->
      all_chars is_plain (brand_formatted brand) = true).
Proof.
  split; [|split].
  - apply all_distinct_NoDup. vm_compute. reflexivity.
  - repeat constructor.
  - intros brand Hout. unfold brand_formatted. rewrite Hout.
    unfold remove_char.
    set (no_space := fun x => negb (Ascii.eqb x SPACE)).
    set (no_dash := fun x => negb (Ascii.eqb x DASH)).
    set (no_dot := fun x => negb (Ascii.eqb x DOT)).
    set (no_upper := fun x => negb (is_upper x)).
    assert (H1 : all_chars no_upper (keep_chars no_space (lower brand))
                 = true)
      by (apply all_chars_keep_both, lower_not_upper).
    assert (H2 : all_chars no_space (keep_chars no_space (lower brand))
                 = true) by apply all_chars_kept.
    set (t1 := keep_chars no_space (lower brand)) in *.
    assert (H3 : all_chars no_upper (keep_chars no_dash t1) = true)
      by now apply all_chars_keep_both.
    assert (H4 : all_chars no_space (keep_chars no_dash t1) = true)
      by now apply all_chars_keep_both.
    assert (H5 : all_chars no_dash (keep_chars no_dash t1) = true)
      by apply all_chars_kept.
    set (t2 := keep_chars no_dash t1) in *.
    assert (H6 : all_chars no_upper (keep_chars no_dot t2) = true)
      by now apply all_chars_keep_both.
    assert (H7 : all_chars no_space (keep_chars no_dot t2) = true)
      by now apply all_chars_keep_both.
    assert (H8 : all_chars no_dash (keep_chars no_dot t2) = true)
      by now apply all_chars_keep_both.
    assert (H9 : all_chars no_dot (keep_chars no_dot t2) = true)
      by apply all_chars_kept.
    set (t3 := keep_chars no_dot t2) in *.
    pose proof (all_chars_and _ _ _ (all_chars_and _ _ _
                  (all_chars_and _ _ _ H7 H8) H9) H6) as Hall.
    exact Hall.
Qed.

(** *** The rows of a brand page *)

Lemma lstrip_of_all (p q : ascii -> bool) (s : string) :
  all_chars q s = true -> all_chars q (lstrip_of p s) = true.
Proof.
  induction s as [|c s IH]; [reflexivity|].
  cbn [lstrip_of]. intros Hall.
  destruct (p c); [|exact Hall].
  cbn in Hall. apply andb_true_iff in Hall as (_ & Hs). now apply IH.
Qed.

Lemma rstrip_of_all (p q : ascii -> bool) (s : string) :
  all_chars q s = true -> all_chars q (rstrip_of p s) = true.
Proof.
  induction s as [|c s IH]; [reflexivity|].
  cbn [rstrip_of all_chars]. intros Hall.
  apply andb_true_iff in Hall as (Hc & Hs). specialize (IH Hs).
  destruct (rstrip_of p s) as [|c1 kept].
  - destruct (p c); [reflexivity|]. cbn. now rewrite Hc.
  - cbn [all_chars] in *. now rewrite Hc, IH.
Qed.

Lemma strip_all (q : ascii -> bool) (s : string) :
  all_chars q s = true -> all_chars q (strip s) = true.
Proof. intros Hall. now apply rstrip_of_all, lstrip_of_all. Qed.

Lemma before_char_all (c : ascii) (q : ascii -> bool) (s : string) :
  all_chars q s = true -> all_chars q (before_char c s) = true.
Proof.
  induction s as [|x s IH]; [reflexivity|].
  cbn [before_char all_chars]. intros Hall.
  apply andb_true_iff in Hall as (Hx & Hs).
  destruct (Ascii.eqb x c); [reflexivity|].
  cbn. now rewrite Hx, IH.
Qed.

Lemma before_char_without (c : ascii) (s : string) :
  all_chars (fun x => negb (Ascii.eqb x c)) (before_char c s) = true.
Proof.
  induction s as [|x s IH]; [reflexivity|].
  cbn [before_char]. destruct (Ascii.eqb x c) eqn:Hx; [reflexivity|].
  cbn. now rewrite Hx, IH.
Qed.

Lemma remove_pair_step (a b c d : ascii) (rest : string) :
  remove_pair a b (String c (String d rest)) =
  if Ascii.eqb c a && Ascii.eqb d b then remove_pair a b rest
  else String c (remove_pair a b (String d rest)).
Proof. reflexivity. Qed.

Lemma remove_pair_all (a b : ascii) (q : ascii -> bool) (s : string) :
  all_chars q s = true -> all_chars q (remove_pair a b s) = true.
Proof.
  remember (String.length s) as n eqn:Hn.
  assert (Hle : String.length s <= n) by lia. clear Hn.
  revert s Hle. induction n as [|n IH]; intros s Hle Hall.
  - destruct s; [reflexivity | cbn in Hle; lia].
  - destruct s as [|c [|d rest]]; try exact Hall.
    rewrite remove_pair_step.
    assert (Hc : q c = true /\ all_chars q (String d rest) = true)
      by (cbn [all_chars] in Hall; now apply andb_true_iff in Hall).
    destruct Hc as (Hc & Htail).
    destruct (Ascii.eqb c a && Ascii.eqb d b).
    + cbn [all_chars] in Htail.
      apply andb_true_iff in Htail as (_ & Hrest).
      apply IH; [cbn in Hle; lia | exact Hrest].
    + change (all_chars q (String c (remove_pair a b (String d rest))))
        with (q c && all_chars q (remove_pair a b (String d rest))).
      rewrite Hc. cbn [andb].
      apply IH; [cbn in Hle |- *; lia | exact Htail].
Qed.

Lemma any_char_none (q : ascii -> bool) (s : string) :
  all_chars (fun x => negb (q x)) s = true -> any_char q s = false.
Proof.
  induction s as [|c s IH]; [reflexivity|].
  cbn. intros Hall. apply andb_true_iff in Hall as (Hc & Hs).
  apply negb_true_iff in Hc. now rewrite Hc, IH.
Qed.

Lemma lower_char_twice (c : ascii) :
  lower_char (lower_char c) = lower_char c.
Proof.
  destruct c as [[] [] [] [] [] [] [] []]; vm_compute; reflexivity.
Qed.

Lemma lower_fixed (s : string) :
  all_chars (fun c => Ascii.eqb (lower_char c) c) s = true <-> lower s = s.
Proof.
  induction s as [|c s IH]; [tauto|]. cbn. split.
  - intros Hall. apply andb_true_iff in Hall as (Hc & Hs).
    apply Ascii.eqb_eq in Hc. rewrite Hc. f_equal. now apply IH.
  - intros [= Hc Hs]. rewrite Hc, Ascii.eqb_refl. now apply IH.
Qed.

Lemma lower_lowered (s : string) :
  all_chars (fun c => Ascii.eqb (lower_char c) c) (lower s) = true.
Proof.
  induction s as [|c s IH]; [reflexivity|].
  cbn. now rewrite lower_char_twice, Ascii.eqb_refl, IH.
Qed.

Lemma rstrip_of_twice (p : ascii -> bool) (s : string) :
  rstrip_of p (rstrip_of p s) = rstrip_of p s.
Proof.
  induction s as [|c s IH]; [reflexivity|].
  cbn [rstrip_of]. destruct (rstrip_of p s) as [|c1 kept] eqn:Hr.
  - destruct (p c) eqn:Hc; [reflexivity|]. cbn. now rewrite Hc.
  - cbn [rstrip_of]. cbn [rstrip_of] in IH.
    destruct (rstrip_of p kept) as [|c2 kept2].
    + destruct (p c1); [discriminate|]. now rewrite IH.
    + now rewrite IH.
Qed.

(** The right strip leaves a first character outside the class where
    it is. *)
Lemma rstrip_of_head (p : ascii -> bool) (c : ascii) (s : string) :
  p c = false -> exists kept, rstrip_of p (String c s) = String c kept.
Proof.
  intros Hc. cbn [rstrip_of]. destruct (rstrip_of p s) as [|c1 kept].
  - rewrite Hc. eauto.
  - eauto.
Qed.

Lemma lstrip_of_head (p : ascii -> bool) (s : string) :
  lstrip_of p s = EmptyString \/
  exists c rest, lstrip_of p s = String c rest /\ p c = false.
Proof.
  induction s as [|c s IH]; [now left|].
  cbn [lstrip_of]. destruct (p c) eqn:Hc; [exact IH|].
  right. eauto.
Qed.

Lemma strip_twice (s : string) : strip (strip s) = strip s.
Proof.
  unfold strip.
  destruct (lstrip_of_head is_whitespace s) as [-> | (c & rest & -> & Hc)].
  - reflexivity.
  - destruct (rstrip_of_head is_whitespace c rest Hc) as (kept & Hkept).
    rewrite Hkept at 1. cbn [lstrip_of]. rewrite Hc, <- Hkept.
    apply rstrip_of_twice.
Qed.

(** The horsepower text kept for a row. *)
Lemma clean_hp_shape (power : string) :
  any_char (fun c => Ascii.eqb c PAREN) (clean_hp power) = false /\
  strip (clean_hp power) = clean_hp power /\
  lower (clean_hp power) = clean_hp power.
Proof.
  unfold clean_hp.
  set (hp := strip (remove_pair "h" "p" (lower power))).
  assert (Hlow : all_chars (fun c => Ascii.eqb (lower_char c) c) hp = true)
    by (apply strip_all, remove_pair_all, lower_lowered).
  destruct (any_char (fun c => Ascii.eqb c PAREN) hp) eqn:Hparen.
  - split; [|split].
    + apply any_char_none, strip_all, before_char_without.
    + apply strip_twice.
    + apply lower_fixed, strip_all, before_char_all, Hlow.
  - split; [exact Hparen|]. split.
    + apply strip_twice.
    + now apply lower_fixed.
Qed.

Lemma row_item_shape (brand_name : string) (cells : list Cell)
      (item : Tractor) :
  row_item brand_name cells = Some item ->
  tractor_brand item = brand_name /\
  (exists target, url item = (BASE_URL ++ target)%string) /\
  (exists power, horsepower item = clean_hp power) /\
  3 <= List.length cells.
Proof.
  unfold row_item. destruct cells as [|c0 [|c1 [|c2 more]]];
    try discriminate.
  destruct (anchor c0) as [model_link|]; [|discriminate].
  destruct (href model_link) as [target|]; [|discriminate].
  intros [= <-]. cbn. repeat split; eauto. lia.
Qed.

(** X18.  Every item that [scrape_brand_models] makes of a brand page
    carries the brand it was asked for and a URL on [BASE_URL], and
    its horsepower text is in small letters, without whitespace at
    either end and without a parenthesis: a power given as
    "95 hp (70.8 kW)" is kept as "95".  There are never more items
    than rows, and a page that cannot be fetched gives the empty
    list. *)
Theorem brand_page_items_are_clean (get_soup : string -> option Page)
        (brand_name brand_url : string) :
  Forall (fun item =>
            tractor_brand item = brand_name /\
            (exists target, url item = (BASE_URL ++ target)%string) /\
            any_char (fun c => Ascii.eqb c PAREN) (horsepower item) = false /\
            strip (horsepower item) = horsepower item /\
            lower (horsepower item) = horsepower item)
         (scrape_brand_models_of_page get_soup brand_name brand_url) /\
  List.length (scrape_brand_models_of_page get_soup brand_name brand_url)
    <= match get_soup brand_url with
       | Some tables => List.length (List.concat tables)
       | None => 0
       end /\
  clean_hp "95 hp (70.8 kW)" = "95".
Proof.
  unfold scrape_brand_models_of_page.
  destruct (get_soup brand_url) as [tables|];
    [|split; [constructor | split; [apply Nat.le_refl | reflexivity]]].
  split; [|split; [|reflexivity]].
  - apply Forall_forall. intros item Hin.
    apply in_flat_map in Hin as (rows & _ & Hin).
    apply in_flat_map in Hin as (row & _ & Hin).
    destruct (row_item brand_name row) as [item0|] eqn:Hrow;
      [|destruct Hin].
    destruct Hin as [<- | []].
    apply row_item_shape in Hrow
      as (Hbrand & Hurl & (power & Hpower) & _).
    rewrite Hpower.
    destruct (clean_hp_shape power) as (Hparen & Hstrip & Hlower).
    auto.
  - induction tables as [|rows tables IH]; [apply Nat.le_refl|].
    cbn [flat_map List.concat]. rewrite !length_app.
    assert (Hrows : List.length
              (flat_map (fun row =>
                           match row_item brand_name row with
                           | Some item => [item]
                           | None => []
                           end) rows) <= List.length rows).
    { clear. induction rows as [|row rows IH]; [apply Nat.le_refl|].
      cbn [flat_map]. rewrite length_app.
      destruct (row_item brand_name row); cbn; lia. }
    lia.
Qed.

End BrandExtras.

(** ** Horsepower values *)

Module MergeExtras.

Import PyText MergeData ParseExtras.

Lemma all_digits_split (s : string) :
  s = (fst (all_digits s) ++ snd (all_digits s))%string.
Proof.
  induction s as [|c s IH]; [reflexivity|]. cbn [all_digits].
  destruct (is_digit c); [|reflexivity].
  destruct (all_digits s) as [ds after]. cbn [fst snd] in *.
  cbn. now rewrite <- IH.
Qed.

Lemma fraction_split (s : string) :
  s = (fst (fraction s) ++ snd (fraction s))%string.
Proof.
  unfold fraction. destruct s as [|c0 [|c1 rest]]; try reflexivity.
  destruct (is_dot c0 && is_digit c1); [|reflexivity].
  pose proof (all_digits_split rest) as Hrest.
  destruct (all_digits rest) as [ds after]. cbn [fst snd] in *.
  cbn. now rewrite <- Hrest.
Qed.

Lemma append_assoc (a b c : string) :
  ((a ++ b) ++ c = a ++ b ++ c)%string.
Proof. induction a as [|x a IH]; [reflexivity|]. cbn. now rewrite IH. Qed.

(** The pattern matches at a digit, and what it takes is a number
    for [float]. *)
Lemma decimal_at_digit (c : ascii) (s : string) :
  is_digit c = true ->
  exists number after,
    decimal_at (String c s) = Some number /\
    String c s = (number ++ after)%string /\
    is_decimal number = true.
Proof.
  intros Hc. unfold decimal_at.
  pose proof (all_digits_split (String c s)) as Hsplit.
  pose proof (all_digits_digits (String c s)) as Hds.
  assert (Hfirst : exists ds0, fst (all_digits (String c s)) = String c ds0).
  { cbn [all_digits]. rewrite Hc. destruct (all_digits s). cbn. eauto. }
  destruct (all_digits (String c s)) as [ds after1]. cbn [fst snd] in *.
  destruct Hfirst as (ds0 & ->).
  pose proof (fraction_split after1) as Hfr.
  destruct (fraction_chars after1) as (Hchars & Hdots).
  destruct (fraction after1) as [fr after2]. cbn [fst snd] in *.
  exists (String c ds0 ++ fr)%string, after2.
  split; [reflexivity|]. split.
  - rewrite append_assoc, <- Hfr. exact Hsplit.
  - unfold is_decimal.
    rewrite all_chars_app, any_char_app, count_char_app.
    rewrite (all_chars_weaken is_digit digit_or_dot (String c ds0));
      [| intros x Hx; unfold digit_or_dot; now rewrite Hx | exact Hds].
    rewrite Hchars.
    rewrite (count_char_none is_digit is_dot _ digit_not_dot Hds).
    cbn [any_char]. rewrite Hc. cbn.
    apply Nat.leb_le. exact Hdots.
Qed.

Lemma decimal_at_no_digit (c : ascii) (s : string) :
  is_digit c = false -> decimal_at (String c s) = None.
Proof. intros Hc. unfold decimal_at. cbn [all_digits]. now rewrite Hc. Qed.

Lemma search_decimal_finds (s : string) :
  any_char is_digit s = true ->
  exists before number after,
    s = (before ++ number ++ after)%string /\
    any_char is_digit before = false /\
    search_decimal s = Some number /\
    is_decimal number = true.
Proof.
  induction s as [|c s IH]; [discriminate|].
  cbn [any_char search_decimal].
  destruct (is_digit c) eqn:Hc; cbn [orb].
  - intros _.
    destruct (decimal_at_digit c s Hc) as (number & after & Hat & Hs & Hdec).
    exists EmptyString, number, after. rewrite Hat. auto.
  - intros Hs. rewrite (decimal_at_no_digit c s Hc).
    destruct (IH Hs) as (before & number & after & Hcut & Hnone & Hfound & Hdec).
    exists (String c before), number, after.
    cbn. rewrite Hc, <- Hcut. auto.
Qed.

Lemma search_decimal_none (s : string) :
  any_char is_digit s = false -> search_decimal s = None.
Proof.
  induction s as [|c s IH]; [reflexivity|].
  cbn [any_char search_decimal]. intros Hnone.
  apply orb_false_iff in Hnone as (Hc & Hs).
  rewrite (decimal_at_no_digit c s Hc). now apply IH.
Qed.


End MergeExtras.
